(** * pkg/toon: the response envelope handler

    A shallow embedding of [response.go], [handler.go], [validation.go] and
    the error taxonomy of the package, together with the properties of the
    handler that its specification states.

    Layout:
    - [Go]: the fragment of the Go run time the package relies on (nil
      pointers and the run-time panic, byte slices over a store of arrays,
      [make] and [copy]);
    - [time], [io], [http]: the library types the package mentions;
    - [toon]: the package itself, parametric in [encoding/json];
    - [json]: a reference model of the decoder and the encoder of
      [encoding/json] on the types of the package;
    - the properties: of the handler, of the reference codec, and of
      the constructors, the accessors and the memory they share. *)

From Stdlib Require Import ZArith NArith List String Ascii Bool Lia Wf_nat.
From Stdlib.Strings Require Import Byte.
From stdpp Require Import base list.
Import ListNotations.
Local Open Scope string_scope.
Local Open Scope list_scope.

(** Equality of bytes is decided by [Byte.eqb]. *)
#[global] Instance byte_eq_decision : EqDecision byte := fun x y =>
  match Byte.eqb x y as b return Byte.eqb x y = b -> Decision (x = y) with
  | true => fun H => left (byte_dec_bl x y H)
  | false => fun H => right (eqb_false H)
  end eq_refl.

(** ** The Go fragment *)

Module Go.

(** A call either returns or ends in a run-time panic. *)
Inductive outcome (A : Type) : Type :=
| Ret (a : A)
| Panic.
Arguments Ret {A} a.
Arguments Panic {A}.

#[global] Instance outcome_ret : MRet outcome := @Ret.
#[global] Instance outcome_bind : MBind outcome := fun A B f c =>
  match c with
  | Ret a => f a
  | Panic => Panic
  end.

(** A pointer [*T] is [nil] or the address of a value; the package never
    writes through the pointers it holds, so the pointee stands for the
    address. *)
Definition ptr (T : Type) : Type := option T.

(** Evaluating a field of a nil pointer panics. *)
Definition deref {T : Type} (p : ptr T) : outcome T :=
  match p with
  | Some v => Ret v
  | None => Panic
  end.

(** *** Byte slices

    The store is the sequence of byte arrays allocated so far; an array is
    named by its index. A slice value is [nil] or a window on an array.
    Capacity is left out: the package never reslices or appends, and the
    slices it creates with [make([]byte, n)] have capacity [n]. *)
Definition addr : Type := nat.
Abbreviation heap := (list (list byte)).

Record slice : Type := mkSlice {
  s_ptr : addr;
  s_off : nat;
  s_len : nat
}.

Definition bytes : Type := option slice.

Definition len (b : bytes) : nat :=
  match b with
  | None => 0
  | Some s => s_len s
  end.

(** The bytes a slice shows in a store. *)
Definition window (s : slice) (arr : list byte) : list byte :=
  take (s_len s) (drop (s_off s) arr).

Definition load (st : heap) (b : bytes) : list byte :=
  match b with
  | None => []
  | Some s =>
      match st !! s_ptr s with
      | Some arr => window s arr
      | None => []
      end
  end.

(** A slice is valid in a store when its window lies inside an allocated
    array; Go's memory safety keeps every slice valid. *)
Definition valid_slice (st : heap) (s : slice) : Prop :=
  exists arr, st !! s_ptr s = Some arr /\ s_off s + s_len s <= length arr.

Definition valid (st : heap) (b : bytes) : Prop :=
  match b with
  | None => True
  | Some s => valid_slice st s
  end.

(** Stateful calls thread the store. *)
Definition M (A : Type) : Type := heap -> outcome (A * heap).

#[global] Instance M_ret : MRet M := fun A a st => Ret (a, st).
#[global] Instance M_bind : MBind M := fun A B f c st =>
  match c st with
  | Ret (a, st') => f a st'
  | Panic => Panic
  end.

Definition lift {A : Type} (c : outcome A) : M A := fun st =>
  match c with
  | Ret a => Ret (a, st)
  | Panic => Panic
  end.

(** [make([]byte, n)]: a fresh zeroed array and the slice of all of it. *)
Definition make (n : nat) : M slice := fun st =>
  Ret (mkSlice (length st) 0 n, st ++ [replicate n x00]).

(** Overwrite [arr] from position [off] with [src]. *)
Definition blit (off : nat) (src arr : list byte) : list byte :=
  take off arr ++ src ++ drop (off + length src) arr.

(** [copy(dst, src)]: copies [min(len(dst), len(src))] bytes and returns
    that number. *)
Definition copy (dst src : bytes) : M nat := fun st =>
  let n := Nat.min (len dst) (len src) in
  match dst with
  | None => Ret (n, st)
  | Some d =>
      let data := take n (load st src) in
      Ret (n, alter (blit (s_off d) data) (s_ptr d) st)
  end.

(** [s[i] = x] as a caller of the package may execute it: out of range
    is a run-time panic. *)
Definition set_index (s : slice) (i : nat) (x : byte) : M unit := fun st =>
  if decide (i < s_len s)
  then Ret (tt, alter (blit (s_off s + i) [x]) (s_ptr s) st)
  else Panic.

(** What a caller can do to a store through a slice it holds: change
    the array behind it, and nothing else. Through a nil slice it can do
    nothing. *)
Definition writes_through (b : bytes) (st st' : heap) : Prop :=
  match b with
  | None => st' = st
  | Some s =>
      length st' = length st /\
      forall a, a <> s_ptr s -> st' !! a = st !! a
  end.

End Go.

Export Go.

(** Sequencing, for both [outcome] and [M]. *)
Definition bind {F : Type -> Type} `{MBind F} {A B : Type}
  (c : F A) (k : A -> F B) : F B := mbind k c.

Notation "x <- c ;; k" := (bind c (fun x => k))
  (at level 100, c at next level, right associativity).
Notation "'let*' pat := c 'in' k" :=
  (bind c (fun x => match x with pat => k end))
  (at level 10, pat pattern, c at level 200, k at level 200).

(** ** Library types the package mentions *)

(** The [error] values of the libraries: the package wraps them and never
    looks inside. *)
Inductive error : Type :=
| errorString (s : string).

Module strconv.

Definition digit (c : byte) : option Z :=
  match c with
  | x30 => Some 0 | x31 => Some 1 | x32 => Some 2 | x33 => Some 3
  | x34 => Some 4 | x35 => Some 5 | x36 => Some 6 | x37 => Some 7
  | x38 => Some 8 | x39 => Some 9
  | _ => None
  end%Z.

(** The number a run of digits denotes, after the digits of [x]. *)
Fixpoint number (s : list byte) (x : Z) : option Z :=
  match s with
  | [] => Some x
  | c :: r =>
      match digit c with
      | Some d => number r (x * 10 + d)%Z
      | None => None
      end
  end.

Definition digit_byte (d : Z) : byte :=
  nth (Z.to_nat d) [x30; x31; x32; x33; x34; x35; x36; x37; x38; x39] x30.

(** The decimal digits of [x], the last one first. [n] bounds their
    number. *)
Fixpoint decimal (n : nat) (x : Z) : list byte :=
  match n with
  | 0 => []
  | S n' =>
      digit_byte (x mod 10)
      :: (if (x <? 10)%Z then [] else decimal n' (x / 10)%Z)
  end.

(** [strconv.FormatUint(x, 10)], for [x] of 64 bits. *)
Definition FormatUint (x : Z) : list byte := rev (decimal 20 x).

(** [strconv.FormatInt(x, 10)]. *)
Definition FormatInt (x : Z) : list byte :=
  if (x <? 0)%Z then x2d :: FormatUint (- x) else FormatUint x.

(** [strconv.ParseInt(s, 10, 64)] on a number literal. *)
Definition ParseInt (s : list byte) : option Z :=
  let (neg, ds) := match s with
                   | c :: r => if bool_decide (c = x2d) then (true, r)
                               else (false, s)
                   | [] => (false, s)
                   end in
  match ds with
  | [] => None
  | _ =>
      match number ds 0%Z with
      | Some x =>
          let n := if neg then (- x)%Z else x in
          if ((- 2 ^ 63 <=? n) && (n <=? 2 ^ 63 - 1))%Z then Some n else None
      | None => None
      end
  end.

End strconv.

Module time.

Import strconv.

(** [time.Time] as the instant it denotes, in seconds and nanoseconds since
    January 1, year 1, 00:00:00 UTC, with the zone offset it was given in. *)
Record Time : Type := mkTime {
  sec : Z;
  nsec : Z;
  offset : Z
}.

(** The zero value of the type. *)
Definition zero : Time := mkTime 0 0 0.

(** [t.IsZero()]: the instant is January 1, year 1, 00:00:00 UTC. *)
Definition IsZero (t : Time) : bool :=
  (sec t =? 0)%Z && (nsec t =? 0)%Z.

(** *** The calendar *)

Definition isLeap (year : Z) : bool :=
  ((year mod 4 =? 0) && (negb (year mod 100 =? 0) || (year mod 400 =? 0)))%Z.

Definition daysIn (month year : Z) : Z :=
  (if (month =? 2) && isLeap year then 29
   else if month =? 2 then 28
   else if (month =? 4) || (month =? 6) || (month =? 9) || (month =? 11)
   then 30 else 31)%Z.

(** Days of a common year before the first of the month; the entry after
    December is the length of the year. *)
Definition daysBefore (month : Z) : Z :=
  nth (Z.to_nat (month - 1))
    [0; 31; 59; 90; 120; 151; 181; 212; 243; 273; 304; 334; 365]%Z 0%Z.

(** The days from January 1, year 1 to the given day. *)
Definition daysSinceEpoch (year month day : Z) : Z :=
  (let y := year - 1 in
   365 * y + y / 4 - y / 100 + y / 400
   + daysBefore month
   + (if isLeap year && (3 <=? month) then 1 else 0)
   + (day - 1))%Z.

(** [time.Date(year, month, day, hour, min, sec, nsec, time.UTC)] for
    fields in their ranges. *)
Definition Date (year month day hour min sec nsec : Z) : Time :=
  mkTime (daysSinceEpoch year month day * 86400
          + hour * 3600 + min * 60 + sec)%Z nsec 0.

(** The year of the day [d] days after January 1, year 1, and the day
    within that year, from 0: cycles of 400, 100 and 4 years are cut off
    in turn. *)
Definition absYear (d : Z) : Z * Z :=
  (let n400 := d / 146097 in
   let d1 := d - 146097 * n400 in
   let n := d1 / 36524 in
   let n100 := n - n / 4 in
   let d2 := d1 - 36524 * n100 in
   let n4 := d2 / 1461 in
   let d3 := d2 - 1461 * n4 in
   let m := d3 / 365 in
   let n1 := m - m / 4 in
   (400 * n400 + 100 * n100 + 4 * n4 + n1 + 1, d3 - 365 * n1))%Z.

(** The month and the day of the month of day [yday] of a year. *)
Definition yearDate (leap : bool) (yday : Z) : Z * Z :=
  (if leap && (yday =? 59) then (2, 29)
   else
     let day := if leap && (59 <? yday) then yday - 1 else yday in
     let month := day / 31 in
     let e := daysBefore (month + 2) in
     if e <=? day then (month + 2, day - e + 1)
     else (month + 1, day - daysBefore (month + 1) + 1))%Z.

(** [absDate]: year, month and day. *)
Definition absDate (d : Z) : Z * Z * Z :=
  let (year, yday) := absYear d in
  let (month, day) := yearDate (isLeap year) yday in
  (year, month, day).

(** *** RFC 3339 *)

(** [parseUint]: a run of digits as a number within [lo, hi]. *)
Definition parseUint (s : list byte) (lo hi : Z) : option Z :=
  match number s 0%Z with
  | Some x => if ((lo <=? x) && (x <=? hi))%Z then Some x else None
  | None => None
  end.

Definition isDigit (c : byte) : bool :=
  match digit c with
  | Some _ => true
  | None => false
  end.

(** The digits at the head of [s], and what follows them. *)
Fixpoint leading_digits (s : list byte) : list byte * list byte :=
  match s with
  | c :: r =>
      if isDigit c
      then let (ds, rest) := leading_digits r in (c :: ds, rest)
      else ([], s)
  | [] => ([], [])
  end.

(** [parseNanoseconds]: the first nine digits of a fraction, scaled. *)
Definition parseNanoseconds (ds : list byte) : Z :=
  let ds9 := take 9 ds in
  match number ds9 0%Z with
  | Some x => (x * 10 ^ Z.of_nat (9 - length ds9))%Z
  | None => 0%Z
  end.

(** The fraction of a second at the head of [s], in nanoseconds, and what
    follows it. *)
Definition fraction (s : list byte) : Z * list byte :=
  match s with
  | p :: c :: r =>
      if bool_decide (p = x2e) && isDigit c
      then let (ds, z) := leading_digits (c :: r) in (parseNanoseconds ds, z)
      else (0%Z, s)
  | _ => (0%Z, s)
  end.

(** The zone designator: the offset in seconds. *)
Definition parseZone (s : list byte) : option Z :=
  match s with
  | [z] => if bool_decide (z = x5a) then Some 0%Z else None
  | [sign; h1; h2; colon; m1; m2] =>
      match parseUint [h1; h2] 0 23, parseUint [m1; m2] 0 59 with
      | Some hr, Some mm =>
          if bool_decide (colon = x3a) then
            if bool_decide (sign = x2b) then Some ((hr * 60 + mm) * 60)%Z
            else if bool_decide (sign = x2d)
            then Some (- ((hr * 60 + mm) * 60))%Z
            else None
          else None
      | _, _ => None
      end
  | _ => None
  end.

(** [parseRFC3339]. *)
Definition parseRFC3339 (s : list byte) : option Time :=
  match s with
  | y1 :: y2 :: y3 :: y4 :: c1 :: mo1 :: mo2 :: c2 :: d1 :: d2 :: c3
    :: h1 :: h2 :: c4 :: mi1 :: mi2 :: c5 :: s1 :: s2 :: rest =>
      match parseUint [y1; y2; y3; y4] 0 9999,
            parseUint [mo1; mo2] 1 12 with
      | Some year, Some month =>
          match parseUint [d1; d2] 1 (daysIn month year),
                parseUint [h1; h2] 0 23,
                parseUint [mi1; mi2] 0 59,
                parseUint [s1; s2] 0 59 with
          | Some day, Some hour, Some minute, Some second =>
              if bool_decide (c1 = x2d) && bool_decide (c2 = x2d)
                 && bool_decide (c3 = x54)
                 && bool_decide (c4 = x3a) && bool_decide (c5 = x3a)
              then
                let (ns, zone) := fraction rest in
                match parseZone zone with
                | Some off =>
                    let t := Date year month day hour minute second ns in
                    Some (mkTime (sec t - off) ns off)
                | None => None
                end
              else None
          | _, _, _, _ => None
          end
      | _, _ => None
      end
  | _ => None
  end.

(** [appendInt]: [x] in decimal, with zeros in front up to [width]
    digits. *)
Definition appendInt (x : Z) (width : nat) : list byte :=
  let ds := FormatUint (Z.abs x) in
  (if (x <? 0)%Z then [x2d] else [])
  ++ repeat x30 (width - length ds) ++ ds.

(** [s] without the zeros at its end. *)
Fixpoint trim_zeros (s : list byte) : list byte :=
  match s with
  | [] => []
  | c :: r =>
      match trim_zeros r with
      | [] => if bool_decide (c = x30) then [] else [c]
      | t => c :: t
      end
  end.

(** [appendNano]: the fraction of a second, nine digits without the zeros
    at the end, nothing if none is left. *)
Definition appendNano (ns : Z) : list byte :=
  match trim_zeros (appendInt ns 9) with
  | [] => []
  | ds => x2e :: ds
  end.

(** The zone designator of an offset. *)
Definition appendZone (off : Z) : list byte :=
  (if off =? 0 then [x5a]
   else
     let zone := Z.quot off 60 in
     (if zone <? 0 then [x2d] else [x2b])
     ++ appendInt (Z.abs zone / 60) 2 ++ [x3a]
     ++ appendInt (Z.abs zone mod 60) 2)%Z.

(** [t.appendFormatRFC3339(b, nanos)]. *)
Definition appendFormatRFC3339 (t : Time) (nanos : bool) : list byte :=
  (let abs := sec t + offset t in
   let '(year, month, day) := absDate (abs / 86400) in
   let clock := abs mod 86400 in
   appendInt year 4 ++ [x2d] ++ appendInt month 2 ++ [x2d]
   ++ appendInt day 2 ++ [x54]
   ++ appendInt (clock / 3600) 2 ++ [x3a]
   ++ appendInt (clock mod 3600 / 60) 2 ++ [x3a]
   ++ appendInt (clock mod 60) 2
   ++ (if nanos then appendNano (nsec t) else [])
   ++ appendZone (offset t))%Z.

(** [t.Format(time.RFC3339)]. *)
Definition Format_RFC3339 (t : Time) : string :=
  string_of_list_byte (appendFormatRFC3339 t false).

(** [t.appendStrictRFC3339]: the text, unless the year has not four digits
    or the hour of the zone is beyond 23. *)
Definition appendStrictRFC3339 (t : Time) : option (list byte) :=
  let b := appendFormatRFC3339 t true in
  match drop 4 b with
  | c :: _ =>
      if bool_decide (c = x2d) then
        match rev b with
        | z :: _ =>
            if bool_decide (z = x5a) then Some b
            else
              match drop (length b - 6) b with
              | [g; h1; h2; _; _; _] =>
                  if isDigit g then None
                  else
                    match number [h1; h2] 0%Z with
                    | Some hr => if (24 <=? hr)%Z then None else Some b
                    | None => None
                    end
              | _ => None
              end
        | [] => None
        end
      else None
  | [] => None
  end.

(** [t.MarshalJSON()]. *)
Definition MarshalJSON (t : Time) : option (list byte) :=
  match appendStrictRFC3339 t with
  | Some b => Some ([x22] ++ b ++ [x22])
  | None => None
  end.

End time.

Module io.

(** An [io.ReadCloser]: the bytes it still delivers, the error that ends
    the stream (none: [io.EOF]), and how often it has been closed. *)
Record ReadCloser : Type := mkReadCloser {
  pending : list byte;
  failure : option error;
  closed : nat
}.

(** [io.ReadAll(r)]: reads until the stream ends, into a buffer of its own;
    the slice it returns is never nil, and the error is nil at [io.EOF]. *)
Definition ReadAll (r : ReadCloser) : M (bytes * option error * ReadCloser) :=
  fun st =>
    Ret ((Some (mkSlice (length st) 0 (length (pending r))), failure r,
          mkReadCloser [] (failure r) (closed r)),
         st ++ [pending r]).

Definition Close (r : ReadCloser) : ReadCloser :=
  mkReadCloser (pending r) (failure r) (S (closed r)).

End io.

Module http.

(** The two fields of [http.Response] the package reads. *)
Record Response : Type := mkResponse {
  StatusCode : Z;
  Body : ptr io.ReadCloser
}.

End http.

(** ** The package *)

Module toon.

(** *** response.go *)

(** [RateLimit]: rate limiting information. *)
Record RateLimit : Type := mkRateLimit {
  RateLimit_Limit : Z;
  RateLimit_Remaining : Z;
  RateLimit_Reset : time.Time
}.

(** [Meta]: metadata about the response. *)
Record Meta : Type := mkMeta {
  Meta_Timestamp : time.Time;
  Meta_RequestID : string;
  Meta_APIVersion : string;
  Meta_RateLimit : ptr RateLimit
}.

(** [ResponseError]: error information in a response. *)
Record ResponseError : Type := mkResponseError {
  ResponseError_Code : string;
  ResponseError_Message : string;
  ResponseError_Details : string;
  ResponseError_Field : string
}.

(** [Response]: the envelope. [raw] is what stands for [json.RawMessage]:
    a slice once the envelope is in memory, the bytes themselves in what
    the decoder delivers. *)
Record Response_ (raw : Type) : Type := mkResponse {
  Response_Success : bool;
  Response_Data : raw;
  Response_Error : ptr ResponseError;
  Response_Meta : ptr Meta
}.
Arguments mkResponse {raw} _ _ _ _.
Arguments Response_Success {raw} _.
Arguments Response_Data {raw} _.
Arguments Response_Error {raw} _.
Arguments Response_Meta {raw} _.

Definition Response : Type := Response_ bytes.

(** *** The error taxonomy *)

Definition ErrCode : Type := string.

Definition ErrCodeInvalidResponse : ErrCode := "INVALID_RESPONSE".
Definition ErrCodeEmptyResponse : ErrCode := "EMPTY_RESPONSE".
Definition ErrCodeJSONUnmarshal : ErrCode := "JSON_UNMARSHAL".
Definition ErrCodeNilHandler : ErrCode := "NIL_HANDLER".
Definition ErrCodeNilResponse : ErrCode := "NIL_RESPONSE".
Definition ErrCodeEmptyData : ErrCode := "EMPTY_DATA".
Definition ErrCodeIORead : ErrCode := "IO_READ".
Definition ErrCodeInvalidStatusCode : ErrCode := "INVALID_STATUS_CODE".

(** The values put in [Context map[string]interface{}]. *)
Inductive value : Type :=
| VInt (n : Z)
| VBool (b : bool)
| VString (s : string).

(** [ValidationError]; the context literal of every call site has distinct
    keys, kept in the order written. *)
Record ValidationError : Type := mkValidationError {
  Code : ErrCode;
  Message : string;
  Err : option error;
  Context : list (string * value)
}.

(** The [error] a call returns: [nil] or a [*ValidationError]. *)
Definition result_error : Type := option ValidationError.

(** [err.Error()], which is what [%v] prints of an error. *)
Definition error_Error (e : error) : string :=
  match e with
  | errorString s => s
  end.

(** [Error] of a [ValidationError], on its pointer receiver. *)
Definition ValidationError_Error (ve : ptr ValidationError) : string :=
  match ve with
  | None => ""
  | Some v =>
      match Err v with
      | Some e =>
          "[" ++ Code v ++ "] " ++ Message v ++ ": " ++ error_Error e
      | None => "[" ++ Code v ++ "] " ++ Message v
      end
  end%string.

(** [Unwrap] of a [ValidationError]: the underlying error. *)
Definition ValidationError_Unwrap (ve : ptr ValidationError) : option error :=
  match ve with
  | None => None
  | Some v => Err v
  end.

(** *** handler.go *)

(** [Handler]. The mutex [mu] is not a field of the model: the package
    takes the read lock only, so [RLock] never waits, and every method
    releases it before it returns. What [h.mu.RLock()] does observably is
    evaluate [h.mu], which panics on a nil receiver. *)
Record Handler : Type := mkHandler {
  resp : ptr Response;
  body : bytes;
  rawErr : option error
}.

(** [h.mu.RLock()] with its deferred [h.mu.RUnlock()]. *)
Definition RLock (h : ptr Handler) : outcome unit :=
  _ <- deref h ;; mret tt.

(** *** encoding/json

    The package calls [json.Unmarshal] twice: on the body, into a zero
    [Response], and on the payload, into whatever the caller passes. The
    decoder is the library's; the package is modelled for any decoder. *)

(** A non-nil [interface{}] handed to [UnmarshalData], as far as the
    package looks at it: [%T] prints its dynamic type. *)
Record any : Type := mkAny {
  dynamic_type : string
}.

Section Package.

(** [json.Unmarshal(body, &resp)] for a zero [resp]: the envelope with
    the payload by value, and the error. *)
Variable json_Unmarshal_Response :
  list byte -> Response_ (option (list byte)) * option error.

(** [json.Unmarshal(data, v)] for a non-nil [v]: [T] is the memory of the
    caller that [v] gives access to; the call returns what it has become
    and the error. *)
Variable T : Type.
Variable json_Unmarshal : list byte -> any -> T -> T * option error.

(** The bytes of a slice. *)
Definition read (b : bytes) : M (list byte) := fun st =>
  Ret (load st b, st).

(** The decoded envelope laid out in memory: [RawMessage.UnmarshalJSON]
    appends the payload to the nil [Data] of the zero envelope, which
    allocates an array for it. *)
Definition place (e : Response_ (option (list byte))) (st : heap)
  : Response * heap :=
  let put (d : bytes) :=
    mkResponse (Response_Success e) d (Response_Error e)
      (Response_Meta e) in
  match Response_Data e with
  | None | Some [] => (put None, st)
  | Some raw =>
      (put (Some (mkSlice (length st) 0 (length raw))), st ++ [raw])
  end.

Definition Unmarshal_Response (data : list byte)
  : M (Response * option error) := fun st =>
  let (e, err) := json_Unmarshal_Response data in
  let (r, st') := place e st in
  Ret ((r, err), st').

(** [NewHandler] creates a handler from raw bytes. *)
Definition NewHandler (body : bytes) : M (ptr Handler * result_error) :=
  match body with
  | None =>
      mret (None,
            Some (mkValidationError ErrCodeEmptyResponse "body is nil"
                    None []))
  | Some _ =>
      if (len body =? 0)%nat
      then mret (None,
                 Some (mkValidationError ErrCodeEmptyResponse
                         "body is empty" None []))
      else
        data <- read body ;;
        let* (resp, err) := Unmarshal_Response data in
        match err with
        | Some e =>
            mret (None,
                  Some (mkValidationError ErrCodeJSONUnmarshal
                          "failed to unmarshal response body" (Some e)
                          [("body_size", VInt (Z.of_nat (len body)))]))
        | None => mret (Some (mkHandler (Some resp) body None), None)
        end
  end.

(** [IsSuccess]: whether the response indicates success. *)
Definition IsSuccess (h : ptr Handler) : outcome bool :=
  _ <- RLock h ;;
  match h with
  | None => mret false
  | Some h' =>
      match resp h' with
      | None => mret false
      | Some r => mret (Response_Success r)
      end
  end.

(** [IsError]: whether the response contains an error. *)
Definition IsError (h : ptr Handler) : outcome bool :=
  _ <- RLock h ;;
  match h with
  | None => mret true
  | Some h' =>
      match resp h' with
      | None => mret true
      | Some r =>
          mret (negb (Response_Success r)
                && bool_decide (Response_Error r <> None))
      end
  end.

(** [GetError]: the error of the response, if present. *)
Definition GetError (h : ptr Handler) : outcome (ptr ResponseError) :=
  _ <- RLock h ;;
  match h with
  | None => mret None
  | Some h' =>
      match resp h' with
      | None => mret None
      | Some r => mret (Response_Error r)
      end
  end.

(** The loop of [ErrorString]: [i] is the index of the next part. *)
Fixpoint join_parts (i : nat) (parts : list string) (result : string)
  : string :=
  match parts with
  | [] => result
  | part :: rest =>
      join_parts (S i) rest
        (if (i =? 0)%nat then part else (result ++ " | " ++ part)%string)
  end.

Definition nonempty (s : string) : bool := negb (String.eqb s "").

(** [ErrorString]: the formatted error, empty if there is none. *)
Definition ErrorString (h : ptr Handler) : outcome string :=
  err <- GetError h ;;
  match err with
  | None => mret ""
  | Some e =>
      let parts := [ResponseError_Code e] in
      let parts :=
        if nonempty (ResponseError_Message e)
        then parts ++ [ResponseError_Message e] else parts in
      let parts :=
        if nonempty (ResponseError_Details e)
        then parts ++ [ResponseError_Details e] else parts in
      let parts :=
        if nonempty (ResponseError_Field e)
        then parts ++ [("field: " ++ ResponseError_Field e)%string]
        else parts in
      mret (join_parts 0 parts "")
  end.

(** [GetData]: a copy of the raw payload. *)
Definition GetData (h : ptr Handler) : M bytes :=
  _ <- lift (RLock h) ;;
  match h with
  | None => mret None
  | Some h' =>
      match resp h' with
      | None => mret None
      | Some r =>
          if (len (Response_Data r) =? 0)%nat
          then mret None
          else
            data <- make (len (Response_Data r)) ;;
            _ <- copy (Some data) (Response_Data r) ;;
            mret (Some data)
      end
  end.

(** [UnmarshalData]: decodes the payload into what [v] points to; [x] is
    the caller's memory before the call, and the second component of the
    result that memory after it. *)
Definition UnmarshalData (h : ptr Handler) (v : option any) (x : T)
  : M (result_error * T) :=
  match v with
  | None =>
      mret (Some (mkValidationError ErrCodeInvalidResponse
                    "target interface is nil" None []), x)
  | Some target =>
      data <- GetData h ;;
      if (len data =? 0)%nat
      then mret (Some (mkValidationError ErrCodeEmptyData
                         "response data is empty" None []), x)
      else
        raw <- read data ;;
        let (x', err) := json_Unmarshal raw target x in
        match err with
        | Some e =>
            mret (Some (mkValidationError ErrCodeJSONUnmarshal
                          "failed to unmarshal data into target type"
                          (Some e)
                          [("data_size", VInt (Z.of_nat (len data)));
                           ("target", VString (dynamic_type target))]),
                  x')
        | None => mret (None, x')
        end
  end.

(** [GetMeta]: the metadata of the response. *)
Definition GetMeta (h : ptr Handler) : outcome (ptr Meta) :=
  _ <- RLock h ;;
  match h with
  | None => mret None
  | Some h' =>
      match resp h' with
      | None => mret None
      | Some r => mret (Response_Meta r)
      end
  end.

(** [GetRequestID]. *)
Definition GetRequestID (h : ptr Handler) : outcome string :=
  meta <- GetMeta h ;;
  match meta with
  | None => mret ""
  | Some m => mret (Meta_RequestID m)
  end.

(** [GetRateLimit]. *)
Definition GetRateLimit (h : ptr Handler) : outcome (ptr RateLimit) :=
  meta <- GetMeta h ;;
  match meta with
  | None => mret None
  | Some m => mret (Meta_RateLimit m)
  end.

(** [IsRateLimited]: rate limited according to the remaining quota. *)
Definition IsRateLimited (h : ptr Handler) : outcome bool :=
  rl <- GetRateLimit h ;;
  match rl with
  | None => mret false
  | Some l => mret (RateLimit_Remaining l <=? 0)%Z
  end.

(** [GetRateLimitReset]: [&rl.Reset]. *)
Definition GetRateLimitReset (h : ptr Handler) : outcome (ptr time.Time) :=
  rl <- GetRateLimit h ;;
  match rl with
  | None => mret None
  | Some l => mret (Some (RateLimit_Reset l))
  end.

(** [%d] of an [int]. *)
Definition Sprintf_d (n : Z) : string :=
  string_of_list_byte (strconv.FormatInt n).

(** [GetRateLimitStatus]: a formatted status of the rate limit. *)
Definition GetRateLimitStatus (h : ptr Handler) : outcome string :=
  rl <- GetRateLimit h ;;
  match rl with
  | None => mret "rate limit information not available"
  | Some l =>
      let remaining := RateLimit_Remaining l in
      let remaining := if (remaining <? 0)%Z then 0%Z else remaining in
      mret (Sprintf_d remaining ++ "/" ++ Sprintf_d (RateLimit_Limit l)
            ++ " requests remaining (reset: "
            ++ time.Format_RFC3339 (RateLimit_Reset l) ++ ")")%string
  end.

(** [GetAPIVersion]. *)
Definition GetAPIVersion (h : ptr Handler) : outcome string :=
  meta <- GetMeta h ;;
  match meta with
  | None => mret ""
  | Some m => mret (Meta_APIVersion m)
  end.

(** [GetTimestamp]: [&meta.Timestamp], or nil. *)
Definition GetTimestamp (h : ptr Handler) : outcome (ptr time.Time) :=
  meta <- GetMeta h ;;
  match meta with
  | None => mret None
  | Some m =>
      if time.IsZero (Meta_Timestamp m)
      then mret None
      else mret (Some (Meta_Timestamp m))
  end.

(** [String]: a formatted representation of the response. *)
Definition Handler_String (h : ptr Handler) : outcome string :=
  match h with
  | None => mret "Handler(nil)"
  | Some h' =>
      match resp h' with
      | None => mret "Handler(nil)"
      | Some r =>
          if Response_Success r
          then
            requestID <- GetRequestID h ;;
            if nonempty requestID
            then mret ("Handler(Success, RequestID=" ++ requestID ++ ")")%string
            else mret "Handler(Success)"
          else
            errStr <- ErrorString h ;;
            if nonempty errStr
            then mret ("Handler(Error=" ++ errStr ++ ")")%string
            else mret "Handler(Error)"
      end
  end.

(** [RawBody]: a copy of the original body. *)
Definition RawBody (h : ptr Handler) : M bytes :=
  _ <- lift (RLock h) ;;
  match h with
  | None => mret None
  | Some h' =>
      match body h' with
      | None => mret None
      | Some _ =>
          b <- make (len (body h')) ;;
          _ <- copy (Some b) (body h') ;;
          mret (Some b)
      end
  end.

(** [Response]: the underlying envelope. *)
Definition Handler_Response (h : ptr Handler) : outcome (ptr Response) :=
  _ <- RLock h ;;
  match h with
  | None => mret None
  | Some h' => mret (resp h')
  end.

(** [FromHTTPResponse] creates a handler from an HTTP response. The
    second component of the result is the response after the call: its
    body is closed by the deferred call on every return that follows
    the nil check. *)
Definition FromHTTPResponse (httpResp : ptr http.Response)
  : M (ptr Handler * result_error * ptr http.Response) :=
  match httpResp with
  | None =>
      mret (None,
            Some (mkValidationError ErrCodeInvalidResponse
                    "http response is nil" None []),
            None)
  | Some r =>
      match http.Body r with
      | None =>
          mret (None,
                Some (mkValidationError ErrCodeInvalidResponse
                        "http response body is nil" None
                        [("status_code", VInt (http.StatusCode r))]),
                httpResp)
      | Some rc =>
          let* (body, err, rc') := io.ReadAll rc in
          let after :=
            Some (http.mkResponse (http.StatusCode r)
                    (Some (io.Close rc'))) in
          match err with
          | Some e =>
              mret (None,
                    Some (mkValidationError ErrCodeIORead
                            "failed to read response body" (Some e)
                            [("status_code", VInt (http.StatusCode r))]),
                    after)
          | None =>
              let* (handler, err) := NewHandler body in
              match err with
              | Some _ => mret (None, err, after)
              | None =>
                  if ((http.StatusCode r <? 200)
                      || (http.StatusCode r >=? 300))%Z
                  then
                    success <- lift (IsSuccess handler) ;;
                    if success
                    then
                      success' <- lift (IsSuccess handler) ;;
                      mret (None,
                            Some (mkValidationError
                                    ErrCodeInvalidStatusCode
                                    "http status code indicates error but response success is true"
                                    None
                                    [("status_code",
                                      VInt (http.StatusCode r));
                                     ("success", VBool success')]),
                            after)
                    else mret (handler, None, after)
                  else mret (handler, None, after)
              end
          end
      end
  end.

(** *** validation.go *)

(** [Validate]: structural validation of the response. *)
Definition Validate (h : ptr Handler) : result_error :=
  match h with
  | None => Some (mkValidationError ErrCodeNilHandler "handler is nil" None [])
  | Some h' =>
      match resp h' with
      | None =>
          Some (mkValidationError ErrCodeNilResponse "response is nil"
                  None [])
      | Some r =>
          if negb (Response_Success r)
             && bool_decide (Response_Error r = None)
          then Some (mkValidationError ErrCodeInvalidResponse
                       "success is false but error object is missing"
                       None [])
          else
            match Response_Error r with
            | Some e =>
                if String.eqb (ResponseError_Code e) ""
                then Some (mkValidationError ErrCodeInvalidResponse
                             "error code is empty" None [])
                else if String.eqb (ResponseError_Message e) ""
                then Some (mkValidationError ErrCodeInvalidResponse
                             "error message is empty" None [])
                else None
            | None => None
            end
      end
  end.

End Package.

(** *** What a handler holds *)

(** The slices of a handler are valid in the store. *)
Definition Handler_valid (st : heap) (h : Handler) : Prop :=
  valid st (body h) /\
  match resp h with
  | Some r => valid st (Response_Data r)
  | None => True
  end.

(** The payload of a handler: the [Data] of its envelope, nil without
    envelope. *)
Definition payload (h : Handler) : bytes :=
  match resp h with
  | Some r => Response_Data r
  | None => None
  end.

(** What a handler shows in a store: the envelope with the payload by
    value, and the body. *)
Definition view (st : heap) (h : Handler)
  : ptr (Response_ (list byte)) * list byte :=
  (match resp h with
   | Some r =>
       Some (mkResponse (Response_Success r) (load st (Response_Data r))
               (Response_Error r) (Response_Meta r))
   | None => None
   end,
   load st (body h)).

(** The call [f] hands out a defensive copy of [source] in [st]: it
    returns a slice that shows the bytes of [source] and leaves the
    handler as it was; whatever a caller then writes through that slice,
    the handler still shows the same, and the next call of [f] returns
    the same bytes again. *)
Definition defensive_copy_of (f : M bytes) (source : bytes) (h : Handler)
  (st : heap) : Prop :=
  exists out st1,
    f st = Ret (out, st1) /\
    load st1 out = load st source /\
    view st1 h = view st h /\
    forall st2,
      writes_through out st1 st2 ->
      view st2 h = view st h /\
      exists out' st3,
        f st2 = Ret (out', st3) /\
        load st3 out' = load st1 out /\
        view st3 h = view st h /\
        (out' = None <-> out = None).

(** A handler that is not nil and wraps an envelope: the three methods
    with a branch for the absent envelope do not take it. *)
Definition wraps_envelope (p : ptr Handler) : Prop :=
  exists h r,
    p = Some h /\ resp h = Some r /\
    IsSuccess p = Ret (Response_Success r) /\
    IsError p = Ret (negb (Response_Success r)
                     && bool_decide (Response_Error r <> None)) /\
    exists s, Handler_String p = Ret s /\ s <> "Handler(nil)".

End toon.

(** ** A reference decoder

    [encoding/json] is not part of the package. The definitions of this
    module follow the library's documented behaviour on the declarations of
    [response.go] and serve as an instance of the package's two decoder
    parameters: syntax check first, then a decode driven by the field tags.
    Not modelled: the limit on the nesting depth, and the lenient second
    attempt of [time.Time.UnmarshalJSON] on a timestamp that is not strict
    RFC 3339 (such a timestamp is refused here). *)

Module json.

Import toon.

(** *** Syntax *)

Definition is_space (c : byte) : bool :=
  match c with
  | x20 | x09 | x0a | x0d => true
  | _ => false
  end.

(** The space at the head of [s], and what follows it. *)
Fixpoint spaces (s : list byte) : list byte * list byte :=
  match s with
  | c :: r =>
      if is_space c
      then let (w, t) := spaces r in (c :: w, t)
      else ([], s)
  | [] => ([], [])
  end.

Definition skip_space (s : list byte) : list byte := snd (spaces s).

Definition is_digit (c : byte) : bool :=
  match c with
  | x30 | x31 | x32 | x33 | x34 | x35 | x36 | x37 | x38 | x39 => true
  | _ => false
  end.

Definition hex_value (c : byte) : option N :=
  match c with
  | x30 => Some 0 | x31 => Some 1 | x32 => Some 2 | x33 => Some 3
  | x34 => Some 4 | x35 => Some 5 | x36 => Some 6 | x37 => Some 7
  | x38 => Some 8 | x39 => Some 9
  | x61 | x41 => Some 10 | x62 | x42 => Some 11 | x63 | x43 => Some 12
  | x64 | x44 => Some 13 | x65 | x45 => Some 14 | x66 | x46 => Some 15
  | _ => None
  end%N.

Definition is_hex (c : byte) : bool :=
  match hex_value c with
  | Some _ => true
  | None => false
  end.

(** The characters that may follow a backslash, [u] apart. *)
Definition is_escape (c : byte) : bool :=
  match c with
  | x22 | x5c | x2f | x62 | x66 | x6e | x72 | x74 => true
  | _ => false
  end.

(** [p] in front of what a scan has found. *)
Definition more {A : Type} (p : list byte) (x : option (list byte * A))
  : option (list byte * A) :=
  match x with
  | Some (l, t) => Some (p ++ l, t)
  | None => None
  end.

(** The inside of a string literal, from after the opening quote: the
    characters up to the closing quote, escapes as written, and what
    follows the closing quote. *)
Fixpoint scan_string (s : list byte) : option (list byte * list byte) :=
  match s with
  | [] => None
  | c :: r =>
      if bool_decide (c = x22) then Some ([], r)
      else if bool_decide (c = x5c) then
        match r with
        | [] => None
        | e :: r1 =>
            if bool_decide (e = x75) then
              match r1 with
              | h1 :: h2 :: h3 :: h4 :: r2 =>
                  if is_hex h1 && is_hex h2 && is_hex h3 && is_hex h4
                  then more [c; e; h1; h2; h3; h4] (scan_string r2)
                  else None
              | _ => None
              end
            else if is_escape e then more [c; e] (scan_string r1)
            else None
        end
      else if (Byte.to_N c <? 32)%N then None
      else more [c] (scan_string r)
  end.

(** The digits at the head of [s], and what follows them. *)
Fixpoint digits (s : list byte) : list byte * list byte :=
  match s with
  | c :: r =>
      if is_digit c
      then let (d, t) := digits r in (c :: d, t)
      else ([], s)
  | [] => ([], [])
  end.

(** One digit at least. *)
Definition scan_digits (s : list byte) : option (list byte * list byte) :=
  match digits s with
  | ([], _) => None
  | found => Some found
  end.

Definition scan_exponent (s : list byte) : option (list byte * list byte) :=
  match s with
  | c :: r =>
      if bool_decide (c = x65) || bool_decide (c = x45) then
        match r with
        | g :: r1 =>
            if bool_decide (g = x2b) || bool_decide (g = x2d)
            then more [c; g] (scan_digits r1)
            else more [c] (scan_digits r)
        | [] => None
        end
      else Some ([], s)
  | [] => Some ([], [])
  end.

Definition scan_fraction (s : list byte) : option (list byte * list byte) :=
  match s with
  | c :: r =>
      if bool_decide (c = x2e) then
        match scan_digits r with
        | Some (d, t) => more (c :: d) (scan_exponent t)
        | None => None
        end
      else scan_exponent s
  | [] => Some ([], [])
  end.

Definition scan_integer (s : list byte) : option (list byte * list byte) :=
  match s with
  | c :: r =>
      if bool_decide (c = x30) then more [c] (scan_fraction r)
      else if is_digit c
      then let (d, t) := digits r in more (c :: d) (scan_fraction t)
      else None
  | [] => None
  end.

(** A number literal, and what follows it. *)
Definition scan_number (s : list byte) : option (list byte * list byte) :=
  match s with
  | c :: r =>
      if bool_decide (c = x2d) then more [c] (scan_integer r)
      else scan_integer s
  | [] => None
  end.

Definition true_ : list byte := [x74; x72; x75; x65].
Definition false_ : list byte := [x66; x61; x6c; x73; x65].
Definition null : list byte := [x6e; x75; x6c; x6c].

(** [s] without the [p] it starts with. *)
Definition strip (p s : list byte) : option (list byte) :=
  if bool_decide (take (length p) s = p)
  then Some (drop (length p) s)
  else None.

(** [true], [false] or [null], and what follows it. *)
Definition scan_literal (s : list byte) : option (list byte * list byte) :=
  match strip true_ s with
  | Some r => Some (true_, r)
  | None =>
      match strip false_ s with
      | Some r => Some (false_, r)
      | None =>
          match strip null s with
          | Some r => Some (null, r)
          | None => None
          end
      end
  end.

(** [compact] with HTML escaping, inside a string literal. *)
Fixpoint escapeHTML (s : list byte) : list byte :=
  match s with
  | [] => []
  | c :: r =>
      if bool_decide (c = x3c) then [x5c; x75; x30; x30; x33; x63] ++ escapeHTML r
      else if bool_decide (c = x3e)
      then [x5c; x75; x30; x30; x33; x65] ++ escapeHTML r
      else if bool_decide (c = x26)
      then [x5c; x75; x30; x30; x32; x36] ++ escapeHTML r
      else
        match r with
        | c1 :: c2 :: r2 =>
            if bool_decide (c = xe2) && bool_decide (c1 = x80)
               && bool_decide (c2 = xa8)
            then [x5c; x75; x32; x30; x32; x38] ++ escapeHTML r2
            else if bool_decide (c = xe2) && bool_decide (c1 = x80)
                    && bool_decide (c2 = xa9)
            then [x5c; x75; x32; x30; x32; x39] ++ escapeHTML r2
            else c :: escapeHTML r
        | _ => c :: escapeHTML r
        end
  end.

(** One pass of the scanner over a value, from its first character: the
    text of the value, what [compact] keeps of it, and what follows it.
    [n] bounds the number of nested calls; the length of the text is
    enough. *)
Fixpoint scan_value (n : nat) (s : list byte)
  : option (list byte * list byte * list byte) :=
  match n with
  | 0 => None
  | S n' =>
      match s with
      | [] => None
      | c :: r =>
          if bool_decide (c = x7b) then
            let (w, r1) := spaces r in
            match r1 with
            | c1 :: r2 =>
                if bool_decide (c1 = x7d)
                then Some (c :: w ++ [c1], [c; c1], r2)
                else
                  match scan_members n' r1 with
                  | Some (t, k, rest) => Some (c :: w ++ t, c :: k, rest)
                  | None => None
                  end
            | [] => None
            end
          else if bool_decide (c = x5b) then
            let (w, r1) := spaces r in
            match r1 with
            | c1 :: r2 =>
                if bool_decide (c1 = x5d)
                then Some (c :: w ++ [c1], [c; c1], r2)
                else
                  match scan_elements n' r1 with
                  | Some (t, k, rest) => Some (c :: w ++ t, c :: k, rest)
                  | None => None
                  end
            | [] => None
            end
          else if bool_decide (c = x22) then
            match scan_string r with
            | Some (inside, rest) =>
                Some (c :: inside ++ [x22], c :: escapeHTML inside ++ [x22],
                      rest)
            | None => None
            end
          else
            match scan_literal s with
            | Some (l, rest) => Some (l, l, rest)
            | None =>
                match scan_number s with
                | Some (l, rest) => Some (l, l, rest)
                | None => None
                end
            end
      end
  end
with scan_members (n : nat) (s : list byte)
  : option (list byte * list byte * list byte) :=
  match n with
  | 0 => None
  | S n' =>
      match s with
      | [] => None
      | c :: r =>
          if bool_decide (c = x22) then
            match scan_string r with
            | Some (key, r1) =>
                let (w1, r2) := spaces r1 in
                match r2 with
                | c2 :: r3 =>
                    if bool_decide (c2 = x3a) then
                      let (w2, r4) := spaces r3 in
                      match scan_value n' r4 with
                      | Some (t, k, r5) =>
                          let (w3, r6) := spaces r5 in
                          let head :=
                            c :: key ++ [x22] ++ w1 ++ [c2] ++ w2 ++ t ++ w3 in
                          let kept :=
                            c :: escapeHTML key ++ [x22; c2] ++ k in
                          match r6 with
                          | c6 :: r7 =>
                              if bool_decide (c6 = x2c) then
                                let (w4, r8) := spaces r7 in
                                match scan_members n' r8 with
                                | Some (t', k', rest) =>
                                    Some (head ++ [c6] ++ w4 ++ t',
                                          kept ++ [c6] ++ k', rest)
                                | None => None
                                end
                              else if bool_decide (c6 = x7d)
                              then Some (head ++ [c6], kept ++ [c6], r7)
                              else None
                          | [] => None
                          end
                      | None => None
                      end
                    else None
                | [] => None
                end
            | None => None
            end
          else None
      end
  end
with scan_elements (n : nat) (s : list byte)
  : option (list byte * list byte * list byte) :=
  match n with
  | 0 => None
  | S n' =>
      match scan_value n' s with
      | Some (t, k, r1) =>
          let (w1, r2) := spaces r1 in
          match r2 with
          | c2 :: r3 =>
              if bool_decide (c2 = x2c) then
                let (w2, r4) := spaces r3 in
                match scan_elements n' r4 with
                | Some (t', k', rest) =>
                    Some (t ++ w1 ++ [c2] ++ w2 ++ t', k ++ [c2] ++ k', rest)
                | None => None
                end
              else if bool_decide (c2 = x5d)
              then Some (t ++ w1 ++ [c2], k ++ [c2], r3)
              else None
          | [] => None
          end
      | None => None
      end
  end.

(** The scanner over a document: one value, with space around it. *)
Definition scan_document (s : list byte) : option (list byte * list byte) :=
  match scan_value (S (length s)) (skip_space s) with
  | Some (t, k, r) =>
      match skip_space r with
      | [] => Some (t, k)
      | _ => None
      end
  | None => None
  end.

(** [checkValid]. *)
Definition checkValid (s : list byte) : bool :=
  match scan_document s with
  | Some _ => true
  | None => false
  end.

(** The text of the value of a valid document, without the space around
    it. *)
Definition document (s : list byte) : list byte :=
  match scan_document s with
  | Some (t, _) => t
  | None => []
  end.

(** [compact] with HTML escaping, as [Marshal] applies it to what a
    [MarshalJSON] method returns. *)
Definition compact (s : list byte) : option (list byte) :=
  match scan_document s with
  | Some (_, k) => Some k
  | None => None
  end.

(** The members of an object of valid syntax, from the first key: each
    key as written between its quotes, with the text of its value. *)
Fixpoint object_members (n : nat) (s : list byte)
  : list (list byte * list byte) :=
  match n with
  | 0 => []
  | S n' =>
      match s with
      | [] => []
      | c :: r =>
          match (if bool_decide (c = x22) then scan_string r else None) with
          | Some (key, r1) =>
              match skip_space r1 with
              | [] => []
              | _ :: r3 =>
                  match scan_value n' (skip_space r3) with
                  | Some (t, _, r5) =>
                      (key, t) ::
                      match skip_space r5 with
                      | c6 :: r7 =>
                          if bool_decide (c6 = x2c)
                          then object_members n' (skip_space r7)
                          else []
                      | [] => []
                      end
                  | None => []
                  end
              end
          | None => []
          end
      end
  end.

(** The members of the text of a value, if it is an object. *)
Definition members (v : list byte) : option (list (list byte * list byte)) :=
  match v with
  | c :: r =>
      if bool_decide (c = x7b)
      then Some (object_members (length v) (skip_space r))
      else None
  | [] => None
  end.

(** *** Strings *)

Definition byte_of (n : N) : byte :=
  match Byte.of_N n with
  | Some b => b
  | None => x00
  end.

Definition RuneError : N := 65533.

(** [utf8.EncodeRune]. *)
Definition EncodeRune (r : N) : list byte :=
  (if r <? 128 then [byte_of r]
   else if r <? 2048
   then [byte_of (N.lor 192 (N.shiftr r 6));
         byte_of (N.lor 128 (N.land r 63))]
   else if ((55296 <=? r) && (r <=? 57343)) || (1114111 <? r)
   then [xef; xbf; xbd]
   else if r <? 65536
   then [byte_of (N.lor 224 (N.shiftr r 12));
         byte_of (N.lor 128 (N.land (N.shiftr r 6) 63));
         byte_of (N.lor 128 (N.land r 63))]
   else [byte_of (N.lor 240 (N.shiftr r 18));
         byte_of (N.lor 128 (N.land (N.shiftr r 12) 63));
         byte_of (N.lor 128 (N.land (N.shiftr r 6) 63));
         byte_of (N.lor 128 (N.land r 63))])%N.

Definition between (lo hi : N) (c : byte) : bool :=
  ((lo <=? Byte.to_N c) && (Byte.to_N c <=? hi))%N.

Definition low6 (c : byte) : N := N.land (Byte.to_N c) 63.

(** [utf8.DecodeRune]: the rune at the head of [s] and its width; an
    invalid or short sequence is [RuneError] of width 1. *)
Definition DecodeRune (s : list byte) : N * nat :=
  match s with
  | [] => (RuneError, 0)
  | c0 :: r =>
      let b0 := Byte.to_N c0 in
      if (b0 <? 128)%N then (b0, 1)
      else if between 194 223 c0 then
        match r with
        | c1 :: _ =>
            if between 128 191 c1
            then ((N.lor (N.shiftl (N.land b0 31) 6) (low6 c1))%N, 2)
            else (RuneError, 1)
        | _ => (RuneError, 1)
        end
      else if between 224 239 c0 then
        match r with
        | c1 :: c2 :: _ =>
            let lo := if (b0 =? 224)%N then 160%N else 128%N in
            let hi := if (b0 =? 237)%N then 159%N else 191%N in
            if between lo hi c1 && between 128 191 c2
            then ((N.lor (N.shiftl (N.land b0 15) 12)
                     (N.lor (N.shiftl (low6 c1) 6) (low6 c2)))%N, 3)
            else (RuneError, 1)
        | _ => (RuneError, 1)
        end
      else if between 240 244 c0 then
        match r with
        | c1 :: c2 :: c3 :: _ =>
            let lo := if (b0 =? 240)%N then 144%N else 128%N in
            let hi := if (b0 =? 244)%N then 143%N else 191%N in
            if between lo hi c1 && between 128 191 c2 && between 128 191 c3
            then ((N.lor (N.shiftl (N.land b0 7) 18)
                     (N.lor (N.shiftl (low6 c1) 12)
                        (N.lor (N.shiftl (low6 c2) 6) (low6 c3))))%N, 4)
            else (RuneError, 1)
        | _ => (RuneError, 1)
        end
      else (RuneError, 1)
  end.

Definition getu4 (h1 h2 h3 h4 : byte) : N :=
  match hex_value h1, hex_value h2, hex_value h3, hex_value h4 with
  | Some a, Some b, Some c, Some d => (((a * 16 + b) * 16 + c) * 16 + d)%N
  | _, _, _, _ => RuneError
  end.

Definition IsSurrogate (r : N) : bool := ((55296 <=? r) && (r <? 57344))%N.

(** [utf16.DecodeRune]: the rune of a surrogate pair, if it is one. *)
Definition utf16_DecodeRune (r1 r2 : N) : option N :=
  if ((55296 <=? r1) && (r1 <? 56320) && (56320 <=? r2) && (r2 <? 57344))%N
  then Some (N.lor (N.shiftl (r1 - 55296) 10) (r2 - 56320) + 65536)%N
  else None.

Definition unescape (c : byte) : list byte :=
  match c with
  | x22 => [x22]
  | x5c => [x5c]
  | x2f => [x2f]
  | x62 => [x08]
  | x66 => [x0c]
  | x6e => [x0a]
  | x72 => [x0d]
  | x74 => [x09]
  | _ => []
  end.

(** [s] after the rune of width [size] at its head. *)
Definition after_rune (size : nat) (s : list byte) : list byte :=
  match size with
  | 2 => drop 2 s
  | 3 => drop 3 s
  | 4 => drop 4 s
  | _ => drop 1 s
  end.

(** [unquoteBytes], on the inside of a string literal of valid syntax:
    escapes are replaced, and bytes that are not UTF-8 become U+FFFD.
    [n] bounds the number of steps; the length of the text is enough. *)
Fixpoint unquote_steps (n : nat) (s : list byte) : list byte :=
  match n with
  | 0 => []
  | S n' =>
      match s with
      | [] => []
      | c :: r =>
          if bool_decide (c = x5c) then
            match r with
            | [] => []
            | e :: r1 =>
                if bool_decide (e = x75) then
                  match r1 with
                  | h1 :: h2 :: h3 :: h4 :: r2 =>
                      let rr := getu4 h1 h2 h3 h4 in
                      if IsSurrogate rr then
                        match r2 with
                        | b :: u :: g1 :: g2 :: g3 :: g4 :: r3 =>
                            if bool_decide (b = x5c) && bool_decide (u = x75)
                            then
                              match utf16_DecodeRune rr (getu4 g1 g2 g3 g4)
                              with
                              | Some dec => EncodeRune dec ++ unquote_steps n' r3
                              | None =>
                                  EncodeRune RuneError ++ unquote_steps n' r2
                              end
                            else EncodeRune RuneError ++ unquote_steps n' r2
                        | _ => EncodeRune RuneError ++ unquote_steps n' r2
                        end
                      else EncodeRune rr ++ unquote_steps n' r2
                  | _ => []
                  end
                else unescape e ++ unquote_steps n' r1
            end
          else if (Byte.to_N c <? 128)%N then c :: unquote_steps n' r
          else
            let (rr, size) := DecodeRune s in
            EncodeRune rr ++ unquote_steps n' (after_rune size s)
      end
  end.

Definition unquote (s : list byte) : list byte := unquote_steps (length s) s.

(** [foldName]: the key under the case folding that field lookup uses.
    Outside ASCII only the two runes that fold to an ASCII letter are of
    interest, the long s and the Kelvin sign. *)
Fixpoint foldName (s : list byte) : list byte :=
  match s with
  | [] => []
  | c :: r =>
      match r with
      | c1 :: r1 =>
          if bool_decide (c = xc5) && bool_decide (c1 = xbf)
          then x53 :: foldName r1
          else
            match r1 with
            | c2 :: r2 =>
                if bool_decide (c = xe2) && bool_decide (c1 = x84)
                   && bool_decide (c2 = xaa)
                then x4b :: foldName r2
                else
                  (if between 97 122 c then byte_of (Byte.to_N c - 32) else c)
                  :: foldName r
            | [] =>
                (if between 97 122 c then byte_of (Byte.to_N c - 32) else c)
                :: foldName r
            end
      | [] => [if between 97 122 c then byte_of (Byte.to_N c - 32) else c]
      end
  end.

(** The field a key selects: the one of that name, else the first whose
    name folds to the same. *)
Definition field_of (names : list string) (key : list byte) : option string :=
  let k := string_of_list_byte key in
  match List.find (String.eqb k) names with
  | Some f => Some f
  | None =>
      List.find
        (fun f =>
           bool_decide (foldName (list_byte_of_string f) = foldName key))
        names
  end.

(** *** Decoding by field *)

(** The first error is kept; decoding goes on. *)
Definition saved : Type := option error.

Definition keep (old new : saved) : saved :=
  match old with
  | Some _ => old
  | None => new
  end.

Definition type_error (what : string) : saved :=
  Some (errorString ("json: cannot unmarshal value into Go value of type "
                     ++ what)%string).

Definition is_null (v : list byte) : bool := bool_decide (v = null).

(** A [bool] field. *)
Definition decode_bool (v : list byte) (cur : bool) : bool * saved :=
  if is_null v then (cur, None)
  else if bool_decide (v = true_) then (true, None)
  else if bool_decide (v = false_) then (false, None)
  else (cur, type_error "bool").

(** A [string] field. *)
Definition decode_string (v : list byte) (cur : string) : string * saved :=
  if is_null v then (cur, None)
  else
    match v with
    | x22 :: r =>
        match scan_string r with
        | Some (inside, _) => (string_of_list_byte (unquote inside), None)
        | None => (cur, type_error "string")
        end
    | _ => (cur, type_error "string")
    end.

(** An [int] field. *)
Definition decode_int (v : list byte) (cur : Z) : Z * saved :=
  if is_null v then (cur, None)
  else
    match v with
    | x22 :: _ | x7b :: _ | x5b :: _ | x74 :: _ | x66 :: _ =>
        (cur, type_error "int")
    | _ =>
        match strconv.ParseInt v with
        | Some n => (n, None)
        | None => (cur, type_error "int")
        end
    end.

(** [time.Time.UnmarshalJSON]. *)
Definition Time_UnmarshalJSON (data : list byte) (cur : time.Time)
  : time.Time * saved :=
  if is_null data then (cur, None)
  else
    match data with
    | x22 :: r =>
        match List.rev r with
        | x22 :: inside =>
            match time.parseRFC3339 (List.rev inside) with
            | Some t => (t, None)
            | None =>
                (cur, Some (errorString "parsing time: not RFC 3339"))
            end
        | _ =>
            (cur,
             Some (errorString
                     "Time.UnmarshalJSON: input is not a JSON string"))
        end
    | _ =>
        (cur,
         Some (errorString "Time.UnmarshalJSON: input is not a JSON string"))
    end.

(** [json.RawMessage.UnmarshalJSON]: the text of the value. *)
Definition RawMessage_UnmarshalJSON (data : list byte)
  (cur : option (list byte)) : option (list byte) * saved :=
  (Some data, None).

(** The members of an object assigned to the fields they select, in the
    order written. *)
Definition decode_fields {S : Type} (names : list string)
  (set : string -> list byte -> S -> S * saved)
  (ms : list (list byte * list byte)) (init : S) : S * saved :=
  fold_left
    (fun acc m =>
       match field_of names (unquote (fst m)) with
       | Some f =>
           let (x, e) := set f (snd m) (fst acc) in (x, keep (snd acc) e)
       | None => acc
       end)
    ms (init, None).

(** A struct, in place. *)
Definition decode_struct {S : Type} (what : string) (names : list string)
  (set : string -> list byte -> S -> S * saved)
  (v : list byte) (cur : S) : S * saved :=
  if is_null v then (cur, None)
  else
    match members v with
    | Some ms => decode_fields names set ms cur
    | None => (cur, type_error what)
    end.

(** A field that is a pointer to a struct: [null] sets it to nil, any
    other value is decoded into what it points to, allocated if need be. *)
Definition decode_ptr {S : Type} (zero : S)
  (dec : list byte -> S -> S * saved)
  (v : list byte) (cur : ptr S) : ptr S * saved :=
  if is_null v then (None, None)
  else
    let (x, e) := dec v (default zero cur) in (Some x, e).

Definition set_RateLimit (f : string) (v : list byte) (l : RateLimit)
  : RateLimit * saved :=
  if String.eqb f "limit" then
    let (x, e) := decode_int v (RateLimit_Limit l) in
    (mkRateLimit x (RateLimit_Remaining l) (RateLimit_Reset l), e)
  else if String.eqb f "remaining" then
    let (x, e) := decode_int v (RateLimit_Remaining l) in
    (mkRateLimit (RateLimit_Limit l) x (RateLimit_Reset l), e)
  else
    let (x, e) := Time_UnmarshalJSON v (RateLimit_Reset l) in
    (mkRateLimit (RateLimit_Limit l) (RateLimit_Remaining l) x, e).

Definition decode_RateLimit : list byte -> RateLimit -> RateLimit * saved :=
  decode_struct "toon.RateLimit" ["limit"; "remaining"; "reset"]
    set_RateLimit.

Definition set_Meta (f : string) (v : list byte) (m : Meta) : Meta * saved :=
  if String.eqb f "timestamp" then
    let (x, e) := Time_UnmarshalJSON v (Meta_Timestamp m) in
    (mkMeta x (Meta_RequestID m) (Meta_APIVersion m) (Meta_RateLimit m), e)
  else if String.eqb f "request_id" then
    let (x, e) := decode_string v (Meta_RequestID m) in
    (mkMeta (Meta_Timestamp m) x (Meta_APIVersion m) (Meta_RateLimit m), e)
  else if String.eqb f "api_version" then
    let (x, e) := decode_string v (Meta_APIVersion m) in
    (mkMeta (Meta_Timestamp m) (Meta_RequestID m) x (Meta_RateLimit m), e)
  else
    let (x, e) :=
      decode_ptr (mkRateLimit 0 0 time.zero) decode_RateLimit v
        (Meta_RateLimit m) in
    (mkMeta (Meta_Timestamp m) (Meta_RequestID m) (Meta_APIVersion m) x, e).

Definition decode_Meta : list byte -> Meta -> Meta * saved :=
  decode_struct "toon.Meta"
    ["timestamp"; "request_id"; "api_version"; "rate_limit"] set_Meta.

Definition set_ResponseError (f : string) (v : list byte)
  (x : ResponseError) : ResponseError * saved :=
  if String.eqb f "code" then
    let (y, e) := decode_string v (ResponseError_Code x) in
    (mkResponseError y (ResponseError_Message x) (ResponseError_Details x)
       (ResponseError_Field x), e)
  else if String.eqb f "message" then
    let (y, e) := decode_string v (ResponseError_Message x) in
    (mkResponseError (ResponseError_Code x) y (ResponseError_Details x)
       (ResponseError_Field x), e)
  else if String.eqb f "details" then
    let (y, e) := decode_string v (ResponseError_Details x) in
    (mkResponseError (ResponseError_Code x) (ResponseError_Message x) y
       (ResponseError_Field x), e)
  else
    let (y, e) := decode_string v (ResponseError_Field x) in
    (mkResponseError (ResponseError_Code x) (ResponseError_Message x)
       (ResponseError_Details x) y, e).

Definition decode_ResponseError
  : list byte -> ResponseError -> ResponseError * saved :=
  decode_struct "toon.ResponseError"
    ["code"; "message"; "details"; "field"] set_ResponseError.

(** The envelope as the decoder delivers it, payload by value. *)
Definition Envelope : Type := Response_ (option (list byte)).

Definition set_Response (f : string) (v : list byte) (r : Envelope)
  : Envelope * saved :=
  if String.eqb f "success" then
    let (x, e) := decode_bool v (Response_Success r) in
    (mkResponse x (Response_Data r) (Response_Error r) (Response_Meta r), e)
  else if String.eqb f "data" then
    let (x, e) := RawMessage_UnmarshalJSON v (Response_Data r) in
    (mkResponse (Response_Success r) x (Response_Error r) (Response_Meta r),
     e)
  else if String.eqb f "error" then
    let (x, e) :=
      decode_ptr (mkResponseError "" "" "" "") decode_ResponseError v
        (Response_Error r) in
    (mkResponse (Response_Success r) (Response_Data r) x (Response_Meta r),
     e)
  else
    let (x, e) :=
      decode_ptr (mkMeta time.zero "" "" None) decode_Meta v
        (Response_Meta r) in
    (mkResponse (Response_Success r) (Response_Data r) (Response_Error r) x,
     e).

Definition decode_Response : list byte -> Envelope -> Envelope * saved :=
  decode_struct "toon.Response" ["success"; "data"; "error"; "meta"]
    set_Response.

Definition SyntaxError : error := errorString "json: syntax error".

(** [json.Unmarshal(data, &resp)] for a zero [resp]. *)
Definition Unmarshal_Response (data : list byte) : Envelope * option error :=
  let zero : Envelope := mkResponse false None None None in
  if checkValid data
  then decode_Response (document data) zero
  else (zero, Some SyntaxError).

(** *** Encoding *)

Definition hex_digit (n : N) : byte :=
  nth (N.to_nat n)
    [x30; x31; x32; x33; x34; x35; x36; x37; x38; x39;
     x61; x62; x63; x64; x65; x66] x30.

(** [htmlSafeSet]: the ASCII characters a string literal holds as they
    are. *)
Definition htmlSafe (c : byte) : bool :=
  (32 <=? Byte.to_N c)%N
  && negb (bool_decide (c = x22)) && negb (bool_decide (c = x5c))
  && negb (bool_decide (c = x3c)) && negb (bool_decide (c = x3e))
  && negb (bool_decide (c = x26)).

(** The escape of an ASCII character that is not safe. *)
Definition escape (c : byte) : list byte :=
  if bool_decide (c = x5c) || bool_decide (c = x22) then [x5c; c]
  else if bool_decide (c = x08) then [x5c; x62]
  else if bool_decide (c = x0c) then [x5c; x66]
  else if bool_decide (c = x0a) then [x5c; x6e]
  else if bool_decide (c = x0d) then [x5c; x72]
  else if bool_decide (c = x09) then [x5c; x74]
  else [x5c; x75; x30; x30;
        hex_digit (N.shiftr (Byte.to_N c) 4);
        hex_digit (N.land (Byte.to_N c) 15)].

(** [appendString] with HTML escaping, between the quotes. [n] bounds the
    number of steps; the length of the string is enough. *)
Fixpoint quote_steps (n : nat) (s : list byte) : list byte :=
  match n with
  | 0 => []
  | S n' =>
      match s with
      | [] => []
      | c :: r =>
          if (Byte.to_N c <? 128)%N then
            (if htmlSafe c then [c] else escape c) ++ quote_steps n' r
          else
            let (rr, size) := DecodeRune s in
            if (rr =? RuneError)%N && (size =? 1)%nat
            then [x5c; x75; x66; x66; x66; x64] ++ quote_steps n' r
            else if (rr =? 8232)%N || (rr =? 8233)%N
            then [x5c; x75; x32; x30; x32; hex_digit (N.land rr 15)]
                 ++ quote_steps n' (after_rune size s)
            else take size s ++ quote_steps n' (after_rune size s)
      end
  end.

Definition quote (s : list byte) : list byte :=
  [x22] ++ quote_steps (length s) s ++ [x22].

(** A member of an object: the key as written between its quotes, and the
    text of the value. *)
Definition member : Type := list byte * list byte.

Definition emit_member (m : member) : list byte :=
  [x22] ++ fst m ++ [x22; x3a] ++ snd m.

Fixpoint emit_members (ms : list member) : list byte :=
  match ms with
  | [] => []
  | m :: r =>
      match r with
      | [] => emit_member m
      | _ => emit_member m ++ [x2c] ++ emit_members r
      end
  end.

Definition emit_object (ms : list member) : list byte :=
  [x7b] ++ emit_members ms ++ [x7d].

(** The fields of a struct in the order declared, each with the members
    it contributes: none if it is omitted, and no object at all if its
    encoding fails. *)
Fixpoint fields (l : list (option (list member))) : option (list member) :=
  match l with
  | [] => Some []
  | f :: r =>
      match f, fields r with
      | Some ms, Some rest => Some (ms ++ rest)
      | _, _ => None
      end
  end.

Definition object (l : list (option (list member))) : option (list byte) :=
  option_map emit_object (fields l).

Definition field (name : string) (v : option (list byte))
  : option (list member) :=
  option_map (fun t => [(list_byte_of_string name, t)]) v.

Definition omitted : option (list member) := Some [].

(** What a [MarshalJSON] method returns, as [Marshal] takes it over. *)
Definition marshaler (b : option (list byte)) : option (list byte) :=
  match b with
  | Some t => compact t
  | None => None
  end.

Definition encode_bool (b : bool) : list byte := if b then true_ else false_.

Definition encode_string (s : string) : list byte :=
  quote (list_byte_of_string s).

(** [json.RawMessage.MarshalJSON]. *)
Definition RawMessage_MarshalJSON (m : option (list byte))
  : option (list byte) :=
  match m with
  | Some t => Some t
  | None => Some null
  end.

Definition Marshal_RateLimit (l : RateLimit) : option (list byte) :=
  object
    [field "limit" (Some (strconv.FormatInt (RateLimit_Limit l)));
     field "remaining" (Some (strconv.FormatInt (RateLimit_Remaining l)));
     field "reset" (marshaler (time.MarshalJSON (RateLimit_Reset l)))].

Definition Marshal_Meta (m : Meta) : option (list byte) :=
  object
    [field "timestamp" (marshaler (time.MarshalJSON (Meta_Timestamp m)));
     if String.eqb (Meta_RequestID m) "" then omitted
     else field "request_id" (Some (encode_string (Meta_RequestID m)));
     if String.eqb (Meta_APIVersion m) "" then omitted
     else field "api_version" (Some (encode_string (Meta_APIVersion m)));
     match Meta_RateLimit m with
     | None => omitted
     | Some l => field "rate_limit" (Marshal_RateLimit l)
     end].

Definition Marshal_ResponseError (x : ResponseError) : option (list byte) :=
  object
    [field "code" (Some (encode_string (ResponseError_Code x)));
     field "message" (Some (encode_string (ResponseError_Message x)));
     if String.eqb (ResponseError_Details x) "" then omitted
     else field "details" (Some (encode_string (ResponseError_Details x)));
     if String.eqb (ResponseError_Field x) "" then omitted
     else field "field" (Some (encode_string (ResponseError_Field x)))].

(** [json.Marshal(resp)]. *)
Definition Marshal_Response (r : Envelope) : option (list byte) :=
  object
    [field "success" (Some (encode_bool (Response_Success r)));
     match Response_Data r with
     | None | Some [] => omitted
     | Some _ =>
         field "data" (marshaler (RawMessage_MarshalJSON (Response_Data r)))
     end;
     match Response_Error r with
     | None => omitted
     | Some x => field "error" (Marshal_ResponseError x)
     end;
     match Response_Meta r with
     | None => omitted
     | Some m => field "meta" (Marshal_Meta m)
     end].

(** *** The payload of the tests *)

(** The struct the tests of the package decode a payload into:
    [ID int `json:"id"`] and [Name string `json:"name"`]. *)
Record TestData : Type := mkTestData {
  TestData_ID : Z;
  TestData_Name : string
}.

Definition set_TestData (f : string) (v : list byte) (x : TestData)
  : TestData * saved :=
  if String.eqb f "id" then
    let (y, e) := decode_int v (TestData_ID x) in
    (mkTestData y (TestData_Name x), e)
  else
    let (y, e) := decode_string v (TestData_Name x) in
    (mkTestData (TestData_ID x) y, e).

Definition pointer_to_TestData : any := mkAny "*toon.TestData".

(** [json.Unmarshal(data, v)] where the caller's memory is one [TestData]:
    [v] is the pointer to it, or else something that cannot be decoded
    into. *)
Definition Unmarshal_TestData (data : list byte) (v : any) (x : TestData)
  : TestData * option error :=
  if checkValid data
  then
    if String.eqb (dynamic_type v) (dynamic_type pointer_to_TestData)
    then decode_struct "toon.TestData" ["id"; "name"] set_TestData
           (document data) x
    else (x, Some (errorString "json: Unmarshal(non-pointer)"))
  else (x, Some SyntaxError).

(** Text written with the apostrophe in the place of the quotation
    mark. *)
Definition text (s : string) : list byte :=
  List.map (fun c => match c with x27 => x22 | _ => c end)
    (list_byte_of_string s).

End json.

(** ** The inputs of the package's tests *)

Module fixtures.

Import toon.

(** [{"success": true}] *)
Definition success_body : list byte := json.text "{'success': true}".

(** The body of [TestUnmarshalData]. *)
Definition payload_body : list byte :=
  json.text "{'success': true, 'data': {'id': 42, 'name': 'test'}}".

(** The valid error response of [TestValidate]. *)
Definition error_body : list byte :=
  json.text "{'success': false, 'error': {'code': 'ERR', 'message': 'msg'}}".

(** The second body of [TestRateLimit], with the reset time of the
    example program. *)
Definition limited_body : list byte :=
  json.text
    "{'success': true, 'meta': {'rate_limit': {'limit': 1000, 'remaining': 0, 'reset': '2025-12-31T23:59:59Z'}}}".

(** The caller's memory with [b] in it, and the slice of all of [b]. *)
Definition caller (b : list byte) : heap := [b].

Definition whole (b : list byte) : bytes := Some (mkSlice 0 0 (length b)).

(** What [httptest] delivers: a status code and a body to read. *)
Definition transport (status : Z) (b : list byte) : ptr http.Response :=
  Some (http.mkResponse status (Some (io.mkReadCloser b None 0))).

(** [NewHandler([]byte(b))] with the reference decoder: the handler and
    the store it lives in. *)
Definition constructed (b : list byte) : Handler * heap :=
  match NewHandler json.Unmarshal_Response (whole b) (caller b) with
  | Ret ((Some h, _), st) => (h, st)
  | _ => (mkHandler None None None, caller b)
  end.

(** What a test observes of [NewHandler([]byte(b))]: the handler and the
    code of the error. *)
Definition observed (b : list byte) : ptr Handler * option ErrCode :=
  match NewHandler json.Unmarshal_Response (whole b) (caller b) with
  | Ret ((p, err), _) => (p, option_map Code err)
  | Panic => (None, None)
  end.

End fixtures.

(** ** The terms of the properties

    What the properties of the reference codec and of the copies are
    stated with: the texts the scanner accepts, the values of a field
    that the encoder writes without error, the fields a round trip
    keeps, and what a call may allocate. *)

Section ScannerTerms.

Import json.

Definition no_space (u : list byte) : Prop :=
  match u with
  | [] => True
  | c :: _ => is_space c = false
  end.

Definition no_digit (u : list byte) : Prop :=
  match u with
  | [] => True
  | c :: _ => is_digit c = false
  end.

(** What may follow a number: no digit, no point, no exponent. *)
Definition ends (u : list byte) : Prop :=
  match u with
  | [] => True
  | c :: _ => is_digit c = false /\ c <> x2e /\ c <> x65 /\ c <> x45
  end.

(** A piece of a number: it is in front of what follows it, and is found
    again in front of anything a number may end at. *)
Definition number_piece (f : list byte -> option (list byte * list byte))
  : Prop :=
  forall s l r,
    f s = Some (l, r) ->
    s = l ++ r /\ forall u, ends u -> f (l ++ u) = Some (l, u).

(** A number starts with a digit or the minus sign. *)
Definition number_head (l : list byte) : Prop :=
  match l with
  | [] => False
  | c :: _ => is_digit c = true \/ c = x2d
  end.

Definition value_frame (n : nat) : Prop :=
  forall s t k r,
    scan_value n s = Some (t, k, r) ->
    s = t ++ r /\ t <> [] /\
    forall m u, length t <= m -> ends u ->
                scan_value m (t ++ u) = Some (t, k, u).

Definition members_frame (n : nat) : Prop :=
  forall s t k r,
    scan_members n s = Some (t, k, r) ->
    s = t ++ r /\
    forall m u, length t <= m -> scan_members m (t ++ u) = Some (t, k, u).

Definition elements_frame (n : nat) : Prop :=
  forall s t k r,
    scan_elements n s = Some (t, k, r) ->
    s = t ++ r /\
    forall m u, length t <= m -> scan_elements m (t ++ u) = Some (t, k, u).

(** [v] is the text of a value, and [k] what [compact] keeps of it. *)
Definition value_text (v k : list byte) : Prop :=
  v <> [] /\
  forall m u, length v <= m -> ends u ->
              scan_value m (v ++ u) = Some (v, k, u).

End ScannerTerms.

Section CalendarTerms.

Import time.
Local Open Scope Z_scope.

(** The length of a year in days. *)
Definition yearLength (year : Z) : Z := if isLeap year then 366 else 365.

(** The day of the year, from 0. *)
Definition yearDay (leap : bool) (month day : Z) : Z :=
  daysBefore month + (if leap && (3 <=? month) then 1 else 0) + (day - 1).

Definition monthLength (leap : bool) (month : Z) : Z :=
  if (month =? 2) && leap then 29
  else if month =? 2 then 28
  else if (month =? 4) || (month =? 6) || (month =? 9) || (month =? 11)
  then 30 else 31.

Definition Zrange (lo : Z) (n : nat) : list Z :=
  map (fun i => lo + Z.of_nat i) (seq 0 n).

Definition date_checked (leap : bool) (month day : Z) : bool :=
  (monthLength leap month <? day)
  || ((0 <=? yearDay leap month day)
      && (yearDay leap month day <? (if leap then 366 else 365))
      && bool_decide (yearDate leap (yearDay leap month day) = (month, day))).

End CalendarTerms.

Section TimestampTerms.

Import strconv time.
Local Open Scope Z_scope.

(** What the decoder leaves in a field of type [time.Time]: the zero
    value, or a time of the calendar with a zone of hours and minutes. *)
Definition time_ok (t : Time) : Prop :=
  exists year month day hour minute second hr mm (neg : bool),
    0 <= year <= 9999 /\ 1 <= month <= 12 /\ 1 <= day <= daysIn month year /\
    0 <= hour <= 23 /\ 0 <= minute <= 59 /\ 0 <= second <= 59 /\
    0 <= hr <= 23 /\ 0 <= mm <= 59 /\ 0 <= nsec t /\
    offset t = (if neg then - ((hr * 60 + mm) * 60) else (hr * 60 + mm) * 60) /\
    sec t + offset t
    = daysSinceEpoch year month day * 86400
      + hour * 3600 + minute * 60 + second.

(** The zone designators that are written. *)
Definition zone_text (z : list byte) : Prop :=
  z = [x5a] \/
  exists sign hr mm,
    (sign = x2b \/ sign = x2d) /\ 0 <= hr <= 23 /\ 0 <= mm <= 59 /\
    z = [sign; digit_byte (hr / 10); digit_byte (hr mod 10); x3a;
         digit_byte (mm / 10); digit_byte (mm mod 10)].

(** Date and time of day as [appendFormatRFC3339] writes them. *)
Definition stamp (year month day hour minute second : Z) : list byte :=
  [digit_byte (year / 1000); digit_byte (year / 100 mod 10);
   digit_byte (year / 10 mod 10); digit_byte (year mod 10); x2d;
   digit_byte (month / 10); digit_byte (month mod 10); x2d;
   digit_byte (day / 10); digit_byte (day mod 10); x54;
   digit_byte (hour / 10); digit_byte (hour mod 10); x3a;
   digit_byte (minute / 10); digit_byte (minute mod 10); x3a;
   digit_byte (second / 10); digit_byte (second mod 10)].

(** The characters of a time as written. *)
Definition time_char (c : byte) : bool :=
  isDigit c || bool_decide (c = x2d) || bool_decide (c = x54)
  || bool_decide (c = x3a) || bool_decide (c = x2e) || bool_decide (c = x5a)
  || bool_decide (c = x2b).

End TimestampTerms.

Section NumberTerms.

Import strconv json.
Local Open Scope Z_scope.

(** The values of the type [int]. *)
Definition int_ok (n : Z) : Prop := - 2 ^ 63 <= n <= 2 ^ 63 - 1.

End NumberTerms.

Section RuneTerms.

Import json.
Local Open Scope N_scope.

(** The runes that have an encoding of their own. *)
Definition valid_rune (r : N) : bool :=
  (r <? 55296) || ((57344 <=? r) && (r <=? 1114111)).

Definition high (c : byte) : Prop := 128 <= Byte.to_N c.

(** The bytes of a string that [unquote] has made: runes, encoded. *)
Definition utf8 (s : list byte) : Prop :=
  exists rs, Forall (fun r => valid_rune r = true) rs /\
             s = flat_map EncodeRune rs.

(** One rune as [appendString] writes it. *)
Definition quoted_rune (r : N) : list byte :=
  if r <? 128 then
    (if htmlSafe (byte_of r) then [byte_of r] else escape (byte_of r))
  else if (r =? 8232) || (r =? 8233)
  then [x5c; x75; x32; x30; x32; hex_digit (N.land r 15)]
  else EncodeRune r.

End RuneTerms.

Section CompactTerms.

Import json.

(** The inside of a string literal. *)
Definition inside (b : list byte) : Prop :=
  forall u, scan_string (b ++ x22 :: u) = Some (b, u).

(** The characters [escapeHTML] passes over. *)
Definition inert (c : byte) : bool :=
  negb (bool_decide (c = x3c)) && negb (bool_decide (c = x3e))
  && negb (bool_decide (c = x26)) && negb (bool_decide (c = xe2)).

(** What may stand where the elements of an array start. *)
Definition element_head (s : list byte) : Prop :=
  match s with
  | [] => False
  | c :: _ => is_space c = false /\ c <> x5d
  end.

Definition value_kept (n : nat) : Prop :=
  forall s t k r,
    scan_value n s = Some (t, k, r) -> exists k', value_text k k'.

Definition members_kept (n : nat) : Prop :=
  forall s t k r,
    scan_members n s = Some (t, k, r) ->
    exists k' k0,
      k = x22 :: k0 /\
      forall m u, length k <= m -> scan_members m (k ++ u) = Some (k, k', u).

Definition elements_kept (n : nat) : Prop :=
  forall s t k r,
    scan_elements n s = Some (t, k, r) ->
    exists k',
      (forall u, element_head (k ++ u)) /\
      forall m u, length k <= m -> scan_elements m (k ++ u) = Some (k, k', u).

End CompactTerms.

Section EnvelopeTerms.

Import toon json.

(** A member that can be written: the key is the inside of a string
    literal, the value the text of a value. *)
Definition member_ok (m : member) : Prop :=
  inside (fst m) /\ exists k, value_text (snd m) k.

Definition string_ok (s : string) : Prop := utf8 (list_byte_of_string s).

Definition RateLimit_ok (l : RateLimit) : Prop :=
  int_ok (RateLimit_Limit l) /\ int_ok (RateLimit_Remaining l)
  /\ time_ok (RateLimit_Reset l).

Definition Meta_ok (m : Meta) : Prop :=
  time_ok (Meta_Timestamp m) /\ string_ok (Meta_RequestID m)
  /\ string_ok (Meta_APIVersion m)
  /\ from_option RateLimit_ok True (Meta_RateLimit m).

Definition ResponseError_ok (x : ResponseError) : Prop :=
  string_ok (ResponseError_Code x) /\ string_ok (ResponseError_Message x)
  /\ string_ok (ResponseError_Details x) /\ string_ok (ResponseError_Field x).

(** A payload: the text of a value, of which [compact] keeps a value. *)
Definition payload_ok (t : list byte) : Prop :=
  exists k k', value_text t k /\ value_text k k'.

Definition Envelope_ok (e : Envelope) : Prop :=
  from_option payload_ok True (Response_Data e)
  /\ from_option ResponseError_ok True (Response_Error e)
  /\ from_option Meta_ok True (Response_Meta e).

(** A text the scanner has found as a value. *)
Definition scanned (v : list byte) : Prop :=
  exists n s k r, scan_value n s = Some (v, k, r).

(** The step of [decode_fields]. *)
Definition decode_step {S : Type} (names : list string)
  (set : string -> list byte -> S -> S * saved)
  (acc : S * saved) (m : list byte * list byte) : S * saved :=
  match field_of names (unquote (fst m)) with
  | Some f => let (x, e) := set f (snd m) (fst acc) in (x, keep (snd acc) e)
  | None => acc
  end.

(** Limit and remaining of a rate limit. *)
Definition quota (l : RateLimit) : Z * Z :=
  (RateLimit_Limit l, RateLimit_Remaining l).

(** The fields of an envelope that a round trip is to keep. *)
Definition captured (e : Envelope)
  : bool * option string * option (Z * Z) :=
  (Response_Success e,
   option_map Meta_RequestID (Response_Meta e),
   match Response_Meta e with
   | Some m => option_map quota (Meta_RateLimit m)
   | None => None
   end).

Definition zero_Response : Envelope := mkResponse false None None None.

End EnvelopeTerms.

(** What a call that hands out [out] may have done to the store: nothing
    when [out] is nil, and else allocated one array of [n] bytes, of which
    [out] is the slice. *)
Definition allocated (st : heap) (out : bytes) (st' : heap) (n : nat) : Prop :=
  match out with
  | None => st' = st
  | Some s =>
      exists arr,
        st' = st ++ [arr] /\ length arr = n /\ s = mkSlice (length st) 0 n
  end.

(** Tactics the proofs share. *)

Ltac norm := repeat (first [rewrite <- app_assoc | progress simpl]).
Ltac lens H :=
  repeat (first [rewrite length_app in H | progress simpl in H]);
  repeat (first [rewrite length_app | progress simpl]); lia.

Ltac dlia := Z.div_mod_to_equations; lia.

Ltac nlia := zify; Z.to_euclidean_division_equations; lia.

(** Comparisons of numbers that are decided by their bounds. *)
Ltac nbool :=
  repeat match goal with
  | |- context [N.ltb ?x ?y] =>
      first [rewrite (proj2 (N.ltb_lt x y)) by lia
            |rewrite (proj2 (N.ltb_ge x y)) by lia]
  | |- context [N.leb ?x ?y] =>
      first [rewrite (proj2 (N.leb_le x y)) by lia
            |rewrite (proj2 (N.leb_gt x y)) by lia]
  | |- context [N.eqb ?x ?y] =>
      first [rewrite (proj2 (N.eqb_eq x y)) by lia
            |rewrite (proj2 (N.eqb_neq x y)) by lia]
  | |- context [Nat.eqb ?x ?y] =>
      first [rewrite (proj2 (Nat.eqb_eq x y)) by lia
            |rewrite (proj2 (Nat.eqb_neq x y)) by lia]
  end.

(** * Properties *)

(** ** The store *)

Section Store.

Implicit Types (st : heap) (b : bytes) (s : slice) (arr : list byte).

Lemma valid_slice_lt st s : valid_slice st s -> s_ptr s < length st.
Proof.
  intros (arr & Harr & _). eapply lookup_lt_Some, Harr.
Qed.

Lemma length_load st b : valid st b -> length (load st b) = len b.
Proof.
  destruct b as [s|]; simpl; [|done].
  intros (arr & -> & Hle). unfold window.
  rewrite length_take, length_drop. lia.
Qed.

(** Allocation leaves every valid slice as it was. *)
Lemma load_alloc st b arr : valid st b -> load (st ++ [arr]) b = load st b.
Proof.
  destruct b as [s|]; simpl; [|done].
  intros Hv. rewrite lookup_app_l; [done|]. by apply valid_slice_lt.
Qed.

Lemma valid_alloc st b arr : valid st b -> valid (st ++ [arr]) b.
Proof.
  destruct b as [s|]; simpl; [|done].
  intros (a & Ha & Hle). exists a. split; [|done].
  rewrite lookup_app_l; [done|]. eapply lookup_lt_Some, Ha.
Qed.

(** The slice of all of a new array shows that array. *)
Lemma load_fresh st arr :
  load (st ++ [arr]) (Some (mkSlice (length st) 0 (length arr))) = arr.
Proof.
  simpl. rewrite list_lookup_middle; [|done].
  unfold window; simpl. by rewrite drop_0, firstn_all.
Qed.

Lemma valid_fresh st arr :
  valid (st ++ [arr]) (Some (mkSlice (length st) 0 (length arr))).
Proof.
  exists arr. simpl. split; [|lia]. by rewrite list_lookup_middle.
Qed.

Lemma blit_all src arr : length src = length arr -> blit 0 src arr = src.
Proof.
  intros Hl. unfold blit. rewrite take_0. simpl.
  rewrite drop_ge; [|lia]. by rewrite app_nil_r.
Qed.

(** [make] followed by [copy] of a valid slice: the new array holds the
    bytes of the source, and the store is otherwise as before. *)
Lemma make_copy st b :
  valid st b ->
  (d <- make (len b) ;; _ <- copy (Some d) b ;; mret (Some d)) st
  = Ret (Some (mkSlice (length st) 0 (len b)), st ++ [load st b]).
Proof.
  intros Hv. unfold bind, mbind, M_bind, mret, M_ret, make, copy. simpl.
  rewrite Nat.min_id, load_alloc by done.
  rewrite firstn_all2 by (rewrite length_load; done).
  do 3 f_equal.
  replace (length st) with (length st + 0) at 1 by lia.
  rewrite alter_app_r. simpl. do 2 f_equal.
  apply blit_all. rewrite length_load, length_replicate; done.
Qed.

(** Writing through a slice does not touch the other valid slices, as
    long as they sit in another array. *)
Lemma load_writes_through st st' b b' :
  writes_through b st st' ->
  (forall s s', b = Some s -> b' = Some s' -> s_ptr s' <> s_ptr s) ->
  load st' b' = load st b'.
Proof.
  destruct b as [s|]; simpl; [|by intros ->].
  intros [_ Hframe] Hne. destruct b' as [s'|]; simpl; [|done].
  rewrite Hframe; [done|]. by apply Hne.
Qed.

Lemma valid_writes_through st st' b b' :
  writes_through b st st' ->
  (forall s s', b = Some s -> b' = Some s' -> s_ptr s' <> s_ptr s) ->
  valid st b' -> valid st' b'.
Proof.
  destruct b as [s|]; simpl; [|by intros ->].
  intros [_ Hframe] Hne. destruct b' as [s'|]; simpl; [|done].
  intros (arr & Ha & Hle). exists arr. split; [|done].
  rewrite Hframe; [done|]. by apply Hne.
Qed.

(** An indexed assignment is a write through the slice. *)
Lemma set_index_writes_through s i x st st' :
  set_index s i x st = Ret (tt, st') -> writes_through (Some s) st st'.
Proof.
  unfold set_index. case_decide; [|done].
  intros [= <-]. split.
  - by rewrite length_alter.
  - intros a Ha. by rewrite list_lookup_alter_ne.
Qed.

End Store.

(** ** The accessors *)

Section Accessors.

Import toon.

Implicit Types (h : Handler) (r : Response).

(** The methods that take the read lock return on a receiver that is not
    nil. *)
Lemma RLock_Some h : RLock (Some h) = Ret tt.
Proof. reflexivity. Qed.

Lemma IsSuccess_Some h :
  IsSuccess (Some h) =
  Ret (match resp h with Some r => Response_Success r | None => false end).
Proof. unfold IsSuccess. simpl. by destruct (resp h). Qed.

Lemma GetMeta_Some h :
  GetMeta (Some h) =
  Ret (match resp h with Some r => Response_Meta r | None => None end).
Proof. unfold GetMeta. simpl. by destruct (resp h). Qed.

Lemma GetRateLimit_Some h :
  GetRateLimit (Some h) =
  Ret (match resp h with
       | Some r =>
           match Response_Meta r with
           | Some m => Meta_RateLimit m
           | None => None
           end
       | None => None
       end).
Proof.
  unfold GetRateLimit. rewrite GetMeta_Some. simpl.
  destruct (resp h) as [r|]; [|done]. by destruct (Response_Meta r).
Qed.

(** C1. [IsError] always returns; on a handler that wraps an envelope it
    returns true exactly when the success flag is false and an error
    detail is present; on a handler without envelope it returns true while
    [IsSuccess] returns false. *)
Theorem IsError_exactly h :
  exists b,
    IsError (Some h) = Ret b /\
    match resp h with
    | Some r =>
        b = true <-> Response_Success r = false /\ Response_Error r <> None
    | None => b = true /\ IsSuccess (Some h) = Ret false
    end.
Proof.
  unfold IsError. rewrite IsSuccess_Some. simpl.
  destruct (resp h) as [r|]; simpl; [|by exists true].
  eexists; split; [reflexivity|].
  rewrite andb_true_iff, negb_true_iff, bool_decide_eq_true. done.
Qed.

(** C7. [IsRateLimited] always returns, and it returns true if and only if
    the metadata carries a rate-limit block whose remaining value is at
    most zero; when [GetRateLimit] finds no block it returns false. *)
Theorem IsRateLimited_iff h :
  exists b rl,
    IsRateLimited (Some h) = Ret b /\
    GetRateLimit (Some h) = Ret rl /\
    (b = true <->
     exists r m l,
       resp h = Some r /\ Response_Meta r = Some m /\
       Meta_RateLimit m = Some l /\ (RateLimit_Remaining l <= 0)%Z) /\
    (b = true <-> exists l, rl = Some l /\ (RateLimit_Remaining l <= 0)%Z) /\
    (rl = None -> b = false).
Proof.
  unfold IsRateLimited. rewrite GetRateLimit_Some. simpl.
  destruct (resp h) as [r|] eqn:Hr; simpl.
  2: { exists false, None. repeat split; try done.
       - by intros (? & ? & ? & ? & _).
       - by intros (? & ? & _). }
  destruct (Response_Meta r) as [m|] eqn:Hm; simpl.
  2: { exists false, None. repeat split; try done.
       - intros (? & ? & ? & [= <-] & ? & _). congruence.
       - by intros (? & ? & _). }
  destruct (Meta_RateLimit m) as [l|] eqn:Hl; simpl.
  2: { exists false, None. repeat split; try done.
       - intros (? & ? & ? & [= <-] & ? & ? & _). congruence.
       - by intros (? & ? & _). }
  exists (RateLimit_Remaining l <=? 0)%Z, (Some l).
  repeat split; try done.
  - intros Hb%Z.leb_le. by exists r, m, l.
  - intros (? & ? & l' & [= <-] & ? & ? & Hle).
    apply Z.leb_le. congruence.
  - intros Hb%Z.leb_le. by exists l.
  - intros (l' & [= <-] & Hle). by apply Z.leb_le.
Qed.

(** C10. [GetTimestamp] returns nil when the metadata is missing and when
    its timestamp is the zero instant, and only then; so an envelope whose
    metadata carries the zero value of the timestamp and one that has no
    metadata give the same answer. *)
Theorem GetTimestamp_nil h :
  exists t,
    GetTimestamp (Some h) = Ret t /\
    (t = None <->
     GetMeta (Some h) = Ret None \/
     exists m,
       GetMeta (Some h) = Ret (Some m) /\
       time.IsZero (Meta_Timestamp m) = true) /\
    forall success data err requestID version rl,
      let absent := mkResponse success data err None in
      let zero :=
        mkResponse success data err
          (Some (mkMeta time.zero requestID version rl)) in
      GetTimestamp (Some (mkHandler (Some zero) (body h) (rawErr h)))
      = Ret None /\
      GetTimestamp (Some (mkHandler (Some absent) (body h) (rawErr h)))
      = Ret None.
Proof.
  assert (Hfix : forall success data err requestID version rl,
             let absent := mkResponse success data err None in
             let zero :=
               mkResponse success data err
                 (Some (mkMeta time.zero requestID version rl)) in
             GetTimestamp (Some (mkHandler (Some zero) (body h) (rawErr h)))
             = Ret None /\
             GetTimestamp (Some (mkHandler (Some absent) (body h) (rawErr h)))
             = Ret None)
    by (intros; split; reflexivity).
  revert Hfix. generalize (body h) (rawErr h). intros bd re Hfix.
  unfold GetTimestamp at 1. rewrite !GetMeta_Some. unfold bind; simpl.
  destruct (resp h) as [r|]; simpl.
  2: { exists None. split; [done|]. split; [|done]. split; auto. }
  destruct (Response_Meta r) as [m|]; simpl.
  2: { exists None. split; [done|]. split; [|done]. split; auto. }
  destruct (time.IsZero (Meta_Timestamp m)) eqn:Hz; simpl.
  - exists None. split; [done|]. split; [|done]. split; [|done].
    intros _. right. by exists m.
  - eexists. split; [reflexivity|]. split; [|done]. split; [done|].
    intros [[=]|(m' & [= <-] & Hz')]. congruence.
Qed.

(** C2. [Validate] on a handler that wraps an envelope: an envelope with
    success false and no error detail, one whose error detail has an empty
    code and one whose error detail has an empty message are refused with
    [INVALID_RESPONSE], the first failure being the one reported; success
    true without error detail, and success false with an error detail of
    non-empty code and message, pass. *)
Theorem Validate_cases h :
  let wrap r := Some (mkHandler (Some r) (body h) (rawErr h)) in
  (forall data meta,
      Validate (wrap (mkResponse false data None meta))
      = Some (mkValidationError ErrCodeInvalidResponse
                "success is false but error object is missing" None [])) /\
  (forall success data meta message details field,
      Validate (wrap (mkResponse success data
                        (Some (mkResponseError "" message details field))
                        meta))
      = Some (mkValidationError ErrCodeInvalidResponse
                "error code is empty" None [])) /\
  (forall success data meta code details field,
      exists e,
        Validate (wrap (mkResponse success data
                          (Some (mkResponseError code "" details field))
                          meta)) = Some e /\
        Code e = ErrCodeInvalidResponse /\
        Message e = if String.eqb code "" then "error code is empty"
                    else "error message is empty") /\
  (forall data meta,
      Validate (wrap (mkResponse true data None meta)) = None) /\
  (forall data meta c code m message details field,
      Validate (wrap (mkResponse false data
                        (Some (mkResponseError (String c code)
                                 (String m message) details field))
                        meta)) = None).
Proof.
  simpl. repeat split; try done.
  - intros success data meta message details field.
    by rewrite andb_false_r.
  - intros success data meta code details field.
    rewrite andb_false_r.
    destruct (String.eqb code ""); eexists; repeat split; reflexivity.
Qed.

End Accessors.

(** ** The constructors *)

Section Constructors.

Import toon.

Variable json_Unmarshal_Response :
  list byte -> Response_ (option (list byte)) * option error.

Local Abbreviation NewHandler := (toon.NewHandler json_Unmarshal_Response).
Local Abbreviation FromHTTPResponse :=
  (toon.FromHTTPResponse json_Unmarshal_Response).

Implicit Types (st : heap) (h : Handler) (e : Response_ (option (list byte))).

(** Laying the envelope out keeps its fields and the valid slices, and the
    payload it places is valid and has the decoded bytes. *)
Lemma place_fields e st :
  let r := fst (place e st) in
  Response_Success r = Response_Success e /\
  Response_Error r = Response_Error e /\
  Response_Meta r = Response_Meta e /\
  load (snd (place e st)) (Response_Data r) = default [] (Response_Data e) /\
  valid (snd (place e st)) (Response_Data r).
Proof.
  unfold place. destruct (Response_Data e) as [[|c raw]|]; simpl; try done.
  repeat split; try done.
  - rewrite list_lookup_middle; [|done].
    unfold window; simpl. by rewrite firstn_all.
  - eexists. rewrite list_lookup_middle; [|done]. split; [done|]. simpl. lia.
Qed.

Lemma place_frame e st b :
  valid st b ->
  valid (snd (place e st)) b /\ load (snd (place e st)) b = load st b.
Proof.
  intros Hv. unfold place.
  destruct (Response_Data e) as [[|c raw]|]; simpl; try done.
  split; [by apply valid_alloc | by apply load_alloc].
Qed.

(** [NewHandler] on a slice that is neither nil nor empty: it wraps what
    the decoder delivers, or reports the decoder's error. *)
Lemma NewHandler_decoded s st e err :
  s_len s <> 0 ->
  json_Unmarshal_Response (load st (Some s)) = (e, err) ->
  NewHandler (Some s) st =
  Ret (match err with
       | None =>
           (Some (mkHandler (Some (fst (place e st))) (Some s) None), None)
       | Some x =>
           (None,
            Some (mkValidationError ErrCodeJSONUnmarshal
                    "failed to unmarshal response body" (Some x)
                    [("body_size", VInt (Z.of_nat (s_len s)))]))
       end,
       snd (place e st)).
Proof.
  intros Hlen Hdec. unfold toon.NewHandler. simpl.
  destruct (Nat.eqb_spec (s_len s) 0) as [|_]; [done|].
  unfold bind, mbind, M_bind, read, Unmarshal_Response. simpl in *.
  rewrite Hdec. destruct (place e st) as [r st'] eqn:Hp. simpl.
  by destruct err.
Qed.

(** [NewHandler] always returns, with a handler or with an error. *)
Lemma NewHandler_returns b st :
  exists p err st',
    NewHandler b st = Ret ((p, err), st') /\
    (err = None <-> p <> None).
Proof.
  destruct b as [s|].
  2: { do 3 eexists. split; [reflexivity|]. split; [done|]. by intros []. }
  destruct (decide (s_len s = 0)) as [Hz|Hnz].
  - unfold toon.NewHandler. simpl. rewrite Hz. simpl.
    do 3 eexists. split; [reflexivity|]. split; [done|]. by intros [].
  - destruct (json_Unmarshal_Response (load st (Some s))) as [e err] eqn:Hd.
    rewrite (NewHandler_decoded _ _ _ _ Hnz Hd).
    destruct err; do 3 eexists; (split; [reflexivity|]);
      split; try done; by intros [].
Qed.

Lemma Handler_String_envelope h r :
  resp h = Some r ->
  exists s, Handler_String (Some h) = Ret s /\ s <> "Handler(nil)".
Proof.
  intros Hr. unfold Handler_String, GetRequestID, ErrorString, GetError.
  rewrite GetMeta_Some. simpl. rewrite Hr. unfold bind; simpl.
  destruct (Response_Success r).
  - destruct (Response_Meta r) as [m|]; simpl.
    + destruct (nonempty (Meta_RequestID m)); eexists; (split; [reflexivity|]);
        simpl; congruence.
    + eexists; split; [reflexivity|]. congruence.
  - destruct (Response_Error r) as [x|]; simpl.
    + match goal with
      | |- context [nonempty ?s] => destruct (nonempty s)
      end; eexists; (split; [reflexivity|]); simpl; congruence.
    + eexists; split; [reflexivity|]. congruence.
Qed.

Lemma wraps_envelope_intro h r :
  resp h = Some r -> wraps_envelope (Some h).
Proof.
  intros Hr. exists h, r. split; [done|]. split; [done|].
  rewrite IsSuccess_Some, Hr. split; [done|]. split.
  - unfold IsError. simpl. by rewrite Hr.
  - by eapply Handler_String_envelope.
Qed.

(** What [FromHTTPResponse] does once the body has been read without
    error: the verdict of [NewHandler] on the buffer, then the check of
    the status code against the success flag. *)
Lemma FromHTTPResponse_read r rc st :
  http.Body r = Some rc ->
  io.failure rc = None ->
  let buf := mkSlice (length st) 0 (length (io.pending rc)) in
  let after :=
    Some (http.mkResponse (http.StatusCode r)
            (Some (io.Close (io.mkReadCloser [] None (io.closed rc))))) in
  FromHTTPResponse (Some r) st =
  match NewHandler (Some buf) (st ++ [io.pending rc]) with
  | Ret ((handler, Some err), st') => Ret ((None, Some err, after), st')
  | Ret ((handler, None), st') =>
      if ((http.StatusCode r <? 200) || (http.StatusCode r >=? 300))%Z
      then
        match IsSuccess handler with
        | Ret true =>
            Ret ((None,
                  Some (mkValidationError ErrCodeInvalidStatusCode
                          "http status code indicates error but response success is true"
                          None
                          [("status_code", VInt (http.StatusCode r));
                           ("success", VBool true)]),
                  after), st')
        | Ret false => Ret ((handler, None, after), st')
        | Panic => Panic
        end
      else Ret ((handler, None, after), st')
  | Panic => Panic
  end.
Proof.
  intros Hb Hf. unfold toon.FromHTTPResponse.
  set (NH := toon.NewHandler json_Unmarshal_Response). clearbody NH.
  rewrite Hb. unfold bind, mbind, M_bind, io.ReadAll. simpl. rewrite Hf.
  destruct (NH _ _) as [[[handler [err|]] st']|]; try done.
  simpl. destruct (_ || _)%Z; [|done].
  unfold lift.
  destruct (IsSuccess handler) as [[|]|] eqn:Hs; simpl; try done.
Qed.

(** C8. A handler that [NewHandler] or [FromHTTPResponse] returns without
    error is not nil, wraps a decoded envelope and has the input bytes as
    its body: [NewHandler] the very slice it was given, with the bytes it
    had, [FromHTTPResponse] the bytes read from the response. So
    [IsSuccess], [IsError] and [String] do not take their branch for the
    absent envelope on it. *)
Theorem constructors_wrap_envelope :
  (forall b st p st',
      valid st b ->
      NewHandler b st = Ret ((p, None), st') ->
      wraps_envelope p /\
      exists h, p = Some h /\ body h = b /\ b <> None /\
                load st' (body h) = load st b) /\
  (forall r st p after st',
      FromHTTPResponse r st = Ret ((p, None, after), st') ->
      wraps_envelope p /\
      exists h x rc,
        p = Some h /\ r = Some x /\ http.Body x = Some rc /\
        load st' (body h) = io.pending rc).
Proof.
  split.
  - intros [s|] st p st' Hv; [|done].
    destruct (decide (s_len s = 0)) as [Hz|Hnz].
    { unfold toon.NewHandler. simpl. by rewrite Hz. }
    destruct (json_Unmarshal_Response (load st (Some s))) as [e err] eqn:Hd.
    rewrite (NewHandler_decoded _ _ _ _ Hnz Hd).
    destruct err; intros [= <- <-].
    split; [by eapply wraps_envelope_intro|].
    eexists. repeat split; try done. simpl.
    by apply (place_frame e st (Some s)).
  - intros [x|] st p after st'; [|done].
    destruct (http.Body x) as [rc|] eqn:Hb.
    2: { unfold toon.FromHTTPResponse. by rewrite Hb. }
    destruct (io.failure rc) as [err|] eqn:Hf.
    { unfold toon.FromHTTPResponse. rewrite Hb.
      unfold bind, mbind, M_bind, io.ReadAll. simpl. by rewrite Hf. }
    rewrite (FromHTTPResponse_read _ _ _ Hb Hf).
    set (buf := mkSlice _ _ _). set (st1 := st ++ _).
    assert (Hload : load st1 (Some buf) = io.pending rc)
      by apply load_fresh.
    assert (Hvalid : valid st1 (Some buf)) by apply valid_fresh.
    destruct (decide (s_len buf = 0)) as [Hz|Hnz].
    { unfold toon.NewHandler. simpl in *. by rewrite Hz. }
    destruct (json_Unmarshal_Response (load st1 (Some buf)))
      as [e err] eqn:Hd.
    rewrite (NewHandler_decoded _ _ _ _ Hnz Hd).
    destruct err; [done|].
    set (h := mkHandler _ _ _).
    assert (Hw : wraps_envelope (Some h)) by by eapply wraps_envelope_intro.
    assert (Hbody : load (snd (place e st1)) (body h) = io.pending rc).
    { simpl. rewrite <- Hload. by apply (place_frame e st1 (Some buf)). }
    destruct (_ || _)%Z.
    + destruct (IsSuccess (Some h)) as [[|]|]; intros [=]; subst.
      split; [done|]. by exists h, x, rc.
    + intros [=]; subst. split; [done|]. by exists h, x, rc.
Qed.

(** C3. When the body is read and decodes, the status code lies outside
    [200, 299] and the decoded success flag is true, [FromHTTPResponse]
    returns an [INVALID_STATUS_CODE] error and no handler. *)
Theorem status_mismatch_rejected r rc e st :
  http.Body r = Some rc ->
  io.failure rc = None ->
  io.pending rc <> [] ->
  json_Unmarshal_Response (io.pending rc) = (e, None) ->
  Response_Success e = true ->
  (http.StatusCode r < 200 \/ 299 < http.StatusCode r)%Z ->
  exists err after st',
    FromHTTPResponse (Some r) st = Ret ((None, Some err, after), st') /\
    Code err = ErrCodeInvalidStatusCode.
Proof.
  intros Hb Hf Hne Hd Hs Hcode.
  rewrite (FromHTTPResponse_read _ _ _ Hb Hf).
  set (buf := mkSlice _ _ _). set (st1 := st ++ _).
  assert (Hnz : s_len buf <> 0).
  { simpl. by destruct (io.pending rc). }
  assert (Hd' : json_Unmarshal_Response (load st1 (Some buf)) = (e, None)).
  { unfold st1, buf. by rewrite load_fresh. }
  rewrite (NewHandler_decoded _ _ _ _ Hnz Hd').
  replace ((http.StatusCode r <? 200) || (http.StatusCode r >=? 300))%Z
    with true by (symmetry; apply orb_true_iff; lia).
  rewrite IsSuccess_Some. simpl.
  destruct (place_fields e st1) as (-> & _). rewrite Hs.
  by do 3 eexists.
Qed.

(** C9. When the body is read and decodes to an envelope whose success
    flag is false, [FromHTTPResponse] returns the handler and no error,
    also for a status code outside [200, 299]. *)
Theorem failing_status_alone_accepted r rc e st :
  http.Body r = Some rc ->
  io.failure rc = None ->
  io.pending rc <> [] ->
  json_Unmarshal_Response (io.pending rc) = (e, None) ->
  Response_Success e = false ->
  (http.StatusCode r < 200 \/ 299 < http.StatusCode r)%Z ->
  exists h after st',
    FromHTTPResponse (Some r) st = Ret ((Some h, None, after), st') /\
    IsSuccess (Some h) = Ret false /\
    fst (view st' h)
    = Some (mkResponse false (default [] (Response_Data e))
              (Response_Error e) (Response_Meta e)) /\
    snd (view st' h) = io.pending rc.
Proof.
  intros Hb Hf Hne Hd Hs Hcode.
  rewrite (FromHTTPResponse_read _ _ _ Hb Hf).
  set (buf := mkSlice _ _ _). set (st1 := st ++ _).
  assert (Hnz : s_len buf <> 0).
  { simpl. by destruct (io.pending rc). }
  assert (Hload : load st1 (Some buf) = io.pending rc) by apply load_fresh.
  assert (Hd' : json_Unmarshal_Response (load st1 (Some buf)) = (e, None))
    by by rewrite Hload.
  rewrite (NewHandler_decoded _ _ _ _ Hnz Hd').
  replace ((http.StatusCode r <? 200) || (http.StatusCode r >=? 300))%Z
    with true by (symmetry; apply orb_true_iff; lia).
  rewrite IsSuccess_Some. simpl.
  destruct (place_fields e st1) as (Hsucc & Herr & Hmeta & Hdata & _).
  rewrite Hsucc, Hs.
  do 3 eexists. split; [reflexivity|].
  rewrite IsSuccess_Some. simpl. rewrite Hsucc, Hs. split; [done|].
  unfold view; simpl. rewrite Herr, Hmeta, Hdata.
  split; [done|].
  change (load (snd (place e st1)) (Some buf) = io.pending rc).
  rewrite <- Hload. apply (place_frame e st1 (Some buf)), valid_fresh.
Qed.

End Constructors.

(** ** The copies handed out *)

Section Copies.

Import toon.

Implicit Types (st : heap) (h : Handler) (b : bytes).

Lemma load_empty st b : len b = 0 -> load st b = [].
Proof.
  destruct b as [s|]; simpl; [|done]. intros Hl.
  destruct (st !! s_ptr s); [|done]. unfold window. by rewrite Hl, take_0.
Qed.

(** A store that shows the valid slices of another one as they were
    shows the handler as it was. *)
Lemma view_frame st st' h :
  Handler_valid st h ->
  (forall b, valid st b -> valid st' b /\ load st' b = load st b) ->
  Handler_valid st' h /\ view st' h = view st h.
Proof.
  intros [Hb Hr] Hframe. unfold Handler_valid, view.
  destruct (Hframe _ Hb) as [Hb' ->].
  destruct (resp h) as [r|]; [|done].
  destruct (Hframe _ Hr) as [Hr' ->]. done.
Qed.

(** The pattern of [RawBody] and [GetData]: [f] answers nil for a source
    that shows no bytes, or else the [make] and [copy] of the source. Then
    what [f] returns has the bytes of the source; writing through it
    leaves the handler as it was, and the next call of [f] returns the
    same bytes again. *)
Lemma defensive_copy (f : M bytes) b h st :
  (len b = 0 /\ (forall st', f st' = Ret (None, st')) \/
   (forall st', valid st' b ->
      f st' = Ret (Some (mkSlice (length st') 0 (len b)),
                   st' ++ [load st' b]))) ->
  Handler_valid st h ->
  valid st b ->
  defensive_copy_of f b h st.
Proof.
  intros [[Hlen Hf]|Hf] Hh Hb; unfold defensive_copy_of.
  - exists None, st. rewrite Hf. split; [done|].
    split; [symmetry; by apply load_empty|]. split; [done|].
    intros st2 Hw. simpl in Hw. subst st2. split; [done|].
    exists None, st. by rewrite Hf.
  - rewrite (Hf _ Hb). do 2 eexists. split; [reflexivity|].
    set (out := mkSlice _ _ _). set (st1 := st ++ _).
    assert (Hout : load st1 (Some out) = load st b).
    { unfold out, st1. rewrite <- (length_load st b) by done.
      apply load_fresh. }
    assert (Hfr1 : forall b', valid st b' ->
                     valid st1 b' /\ load st1 b' = load st b').
    { intros b' Hb'. split; [by apply valid_alloc | by apply load_alloc]. }
    destruct (view_frame _ _ _ Hh Hfr1) as [Hh1 Hv1].
    split; [done|]. split; [done|].
    intros st2 Hw.
    assert (Hfr2 : forall b', valid st b' ->
                     valid st2 b' /\ load st2 b' = load st b').
    { intros b' Hb'. destruct (Hfr1 _ Hb') as [Hb1 <-].
      assert (Hne : forall s s', Some out = Some s -> b' = Some s' ->
                                 s_ptr s' <> s_ptr s).
      { intros s s' [= <-] ->. simpl.
        pose proof (valid_slice_lt _ _ Hb'). lia. }
      split.
      - by eapply valid_writes_through.
      - by eapply load_writes_through. }
    destruct (view_frame _ _ _ Hh Hfr2) as [Hh2 Hv2].
    split; [done|].
    destruct (Hfr2 _ Hb) as [Hb2 Hl2].
    rewrite (Hf _ Hb2). do 2 eexists. split; [reflexivity|].
    split.
    { rewrite Hout, <- Hl2, <- (length_load st2 b) by done.
      apply load_fresh. }
    split; [|done].
    rewrite <- Hv2. apply (view_frame st2); [done|].
    intros b' Hb'. split; [by apply valid_alloc | by apply load_alloc].
Qed.

Lemma RawBody_pattern h :
  len (body h) = 0 /\ body h = None /\
  (forall st, RawBody (Some h) st = Ret (None, st)) \/
  (forall st, valid st (body h) ->
     RawBody (Some h) st =
     Ret (Some (mkSlice (length st) 0 (len (body h))),
          st ++ [load st (body h)])).
Proof.
  unfold RawBody. destruct (body h) as [s|] eqn:Hb.
  - right. intros st Hv. rewrite <- (make_copy st (Some s) Hv). done.
  - by left.
Qed.

Lemma GetData_pattern h :
  len (payload h) = 0 /\ (forall st, GetData (Some h) st = Ret (None, st)) \/
  len (payload h) <> 0 /\
  (forall st, valid st (payload h) ->
     GetData (Some h) st =
     Ret (Some (mkSlice (length st) 0 (len (payload h))),
          st ++ [load st (payload h)])).
Proof.
  unfold GetData, payload. destruct (resp h) as [r|]; [|by left].
  destruct (Nat.eqb_spec (len (Response_Data r)) 0) as [Hz|Hnz].
  - left. split; [done|]. intros st. by unfold bind, mbind, M_bind.
  - right. split; [done|]. intros st Hv.
    by rewrite <- (make_copy st (Response_Data r) Hv).
Qed.

Lemma valid_payload st h : Handler_valid st h -> valid st (payload h).
Proof. intros [_ Hr]. unfold payload. by destruct (resp h). Qed.

(** C6. [RawBody] and [GetData] return copies. On a handler whose slices
    are valid, each returns the bytes of the body, respectively of the
    payload; whatever is then written through the returned slice, the
    handler shows what it showed before, and the next call of the same
    method returns the same bytes again. *)
Theorem copies_are_defensive h st :
  Handler_valid st h ->
  defensive_copy_of (RawBody (Some h)) (body h) h st /\
  defensive_copy_of (GetData (Some h)) (payload h) h st.
Proof.
  intros Hh. split.
  - apply defensive_copy; [|done|apply Hh].
    destruct (RawBody_pattern h) as [(? & ? & ?)|?]; auto.
  - apply defensive_copy; [|done|by apply valid_payload].
    destruct (GetData_pattern h) as [?|[_ ?]]; auto.
Qed.

End Copies.

(** ** Decoding the payload *)

Section Payload.

Import toon.

Variable T : Type.
Variable json_Unmarshal : list byte -> any -> T -> T * option error.

Local Abbreviation UnmarshalData := (toon.UnmarshalData T json_Unmarshal).

Implicit Types (st : heap) (h : Handler) (x : T).

(** C4. [UnmarshalData] with a nil target returns [INVALID_RESPONSE],
    whatever the handler and its payload. With a target and a payload that
    is absent or of length zero it returns [EMPTY_DATA] and leaves the
    target alone. Otherwise the payload goes to the decoder: when that
    fails, the error is [JSON_UNMARSHAL] and wraps the decoder's error;
    when it succeeds there is no error; either way the target is what the
    decoder made of it. The handler shows afterwards what it showed
    before. *)
Theorem UnmarshalData_cases h x st :
  Handler_valid st h ->
  (forall p,
      UnmarshalData p None x st
      = Ret ((Some (mkValidationError ErrCodeInvalidResponse
                      "target interface is nil" None []), x), st)) /\
  (forall v,
      exists res st',
        UnmarshalData (Some h) (Some v) x st = Ret (res, st') /\
        view st' h = view st h /\
        match load st (payload h) with
        | [] =>
            len (payload h) = 0 /\
            res = (Some (mkValidationError ErrCodeEmptyData
                           "response data is empty" None []), x)
        | data =>
            snd res = fst (json_Unmarshal data v x) /\
            match snd (json_Unmarshal data v x) with
            | Some cause =>
                exists ve,
                  fst res = Some ve /\
                  Code ve = ErrCodeJSONUnmarshal /\
                  Err ve = Some cause
            | None => fst res = None
            end
        end).
Proof.
  intros Hh. split; [done|]. intros v.
  pose proof (valid_payload _ _ Hh) as Hp.
  unfold toon.UnmarshalData.
  destruct (GetData_pattern h) as [[Hz Hg]|[Hnz Hg]].
  - unfold bind, mbind, M_bind. rewrite Hg. simpl.
    do 2 eexists. split; [reflexivity|]. split; [done|].
    by rewrite load_empty.
  - unfold bind, mbind, M_bind. rewrite (Hg _ Hp). simpl.
    destruct (Nat.eqb_spec (len (payload h)) 0) as [|_]; [done|].
    unfold read. simpl.
    rewrite list_lookup_middle by done.
    assert (Hw : window (mkSlice (length st) 0 (len (payload h)))
                   (load st (payload h)) = load st (payload h)).
    { unfold window; simpl. rewrite <- (length_load st) by done.
      by rewrite firstn_all. }
    rewrite Hw.
    assert (Hview : view (st ++ [load st (payload h)]) h = view st h).
    { apply view_frame; [done|]. intros b Hb.
      split; [by apply valid_alloc | by apply load_alloc]. }
    assert (Hne : load st (payload h) <> []).
    { intros Hl. apply Hnz. rewrite <- (length_load st) by done.
      by rewrite Hl. }
    destruct (load st (payload h)) as [|c data] eqn:Hl; [done|].
    destruct (json_Unmarshal (c :: data) v x) as [x' [cause|]]; simpl;
      do 2 eexists; (split; [reflexivity|]); (split; [done|]);
      (split; [done|]); [by eexists|done].
Qed.

End Payload.

(** ** The scenarios of the specification, on the reference decoder *)

Section Scenarios.

Import toon fixtures.

Local Abbreviation NewHandler := (toon.NewHandler json.Unmarshal_Response).
Local Abbreviation FromHTTPResponse :=
  (toon.FromHTTPResponse json.Unmarshal_Response).
Local Abbreviation UnmarshalData :=
  (toon.UnmarshalData json.TestData json.Unmarshal_TestData).

(** Status code 500 with body [{"success": true}]. *)
Lemma status_mismatch_rejected_witness :
  exists err after st',
    FromHTTPResponse (transport 500 success_body) [] =
    Ret ((None, Some err, after), st') /\
    Code err = ErrCodeInvalidStatusCode.
Proof.
  eapply (status_mismatch_rejected json.Unmarshal_Response).
  - reflexivity.
  - reflexivity.
  - vm_compute. discriminate.
  - vm_compute. reflexivity.
  - reflexivity.
  - simpl. lia.
Defined.

(** Status code 404 with the error response. *)
Lemma failing_status_alone_accepted_witness :
  exists h after st',
    FromHTTPResponse (transport 404 error_body) [] =
    Ret ((Some h, None, after), st') /\
    IsSuccess (Some h) = Ret false /\
    fst (view st' h)
    = Some (mkResponse false []
              (Some (mkResponseError "ERR" "msg" "" "")) None) /\
    snd (view st' h) = error_body.
Proof.
  apply (failing_status_alone_accepted json.Unmarshal_Response
           (http.mkResponse 404 (Some (io.mkReadCloser error_body None 0)))
           (io.mkReadCloser error_body None 0)
           (fst (json.Unmarshal_Response error_body)) []).
  - reflexivity.
  - reflexivity.
  - vm_compute. discriminate.
  - vm_compute. reflexivity.
  - reflexivity.
  - simpl. lia.
Defined.

Lemma caller_valid b : valid (caller b) (whole b).
Proof. exists b. split; [reflexivity|]. simpl. lia. Qed.

(** [NewHandler] on [{"success": true}], and the same body with status
    code 200. *)
Lemma constructors_wrap_envelope_witness :
  (valid (caller success_body) (whole success_body) /\
   exists p st',
     NewHandler (whole success_body) (caller success_body)
     = Ret ((p, None), st') /\
     wraps_envelope p /\
     exists h,
       p = Some h /\ body h = whole success_body /\
       whole success_body <> None /\
       load st' (body h) = load (caller success_body) (whole success_body)) /\
  (exists p after st',
     FromHTTPResponse (transport 200 success_body) []
     = Ret ((p, None, after), st') /\
     wraps_envelope p /\
     exists h x rc,
       p = Some h /\ transport 200 success_body = Some x /\
       http.Body x = Some rc /\ load st' (body h) = io.pending rc).
Proof.
  destruct (constructors_wrap_envelope json.Unmarshal_Response) as [HN HF].
  split.
  - split; [apply caller_valid|].
    eexists _, _. split; [vm_compute; reflexivity|].
    apply (HN (whole success_body) (caller success_body));
      [apply caller_valid | vm_compute; reflexivity].
  - eexists _, _, _. split; [vm_compute; reflexivity|].
    eapply (HF (transport 200 success_body) []).
    vm_compute; reflexivity.
Defined.

Lemma constructed_valid :
  Handler_valid (snd (constructed payload_body))
    (fst (constructed payload_body)).
Proof.
  unfold Handler_valid. vm_compute.
  split; eexists; (split; [reflexivity|vm_compute; lia]).
Qed.

(** The handler of [TestUnmarshalData]: its body and its payload are
    handed out as defensive copies. *)
Lemma copies_are_defensive_witness :
  let h := fst (constructed payload_body) in
  let st := snd (constructed payload_body) in
  Handler_valid st h /\
  defensive_copy_of (RawBody (Some h)) (body h) h st /\
  defensive_copy_of (GetData (Some h)) (payload h) h st.
Proof.
  split; [apply constructed_valid|].
  apply copies_are_defensive, constructed_valid.
Defined.

(** The handler of [TestUnmarshalData] decoded into a [TestData]. *)
Lemma UnmarshalData_cases_witness :
  let h := fst (constructed payload_body) in
  let st := snd (constructed payload_body) in
  let x := json.mkTestData 0 "" in
  Handler_valid st h /\
  (forall p,
      UnmarshalData p None x st
      = Ret ((Some (mkValidationError ErrCodeInvalidResponse
                      "target interface is nil" None []), x), st)) /\
  (forall v,
      exists res st',
        UnmarshalData (Some h) (Some v) x st = Ret (res, st') /\
        view st' h = view st h /\
        match load st (payload h) with
        | [] =>
            len (payload h) = 0 /\
            res = (Some (mkValidationError ErrCodeEmptyData
                           "response data is empty" None []), x)
        | data =>
            snd res = fst (json.Unmarshal_TestData data v x) /\
            match snd (json.Unmarshal_TestData data v x) with
            | Some cause =>
                exists ve,
                  fst res = Some ve /\
                  Code ve = ErrCodeJSONUnmarshal /\
                  Err ve = Some cause
            | None => fst res = None
            end
        end).
Proof.
  split; [apply constructed_valid|].
  apply (UnmarshalData_cases json.TestData json.Unmarshal_TestData),
    constructed_valid.
Defined.

(** *** The tests of the package, replayed *)

(** [TestNewHandlerWithValidResponse]. *)
Example test_valid_response :
  let h := Some (fst (constructed (json.text "{
		'success': true,
		'data': {'id': 1, 'name': 'test'},
		'meta': {'request_id': 'req-123'}
	}"))) in
  IsSuccess h = Ret true /\ IsError h = Ret false /\
  GetRequestID h = Ret "req-123".
Proof. vm_compute. done. Qed.

(** [TestNewHandlerWithError]. *)
Example test_error_response :
  let h := Some (fst (constructed (json.text "{
		'success': false,
		'error': {
			'code': 'INVALID_INPUT',
			'message': 'Invalid input provided'
		}
	}"))) in
  IsSuccess h = Ret false /\ IsError h = Ret true /\
  GetError h
  = Ret (Some (mkResponseError "INVALID_INPUT" "Invalid input provided"
                 "" "")).
Proof. vm_compute. done. Qed.

(** [TestNewHandlerWithNilBody], [TestNewHandlerWithEmptyBody] and
    [TestNewHandlerWithInvalidJSON]. *)
Example test_refused_bodies :
  NewHandler None []
  = Ret ((None, Some (mkValidationError ErrCodeEmptyResponse "body is nil"
                        None [])), []) /\
  observed [] = (None, Some ErrCodeEmptyResponse) /\
  observed (json.text "{invalid json}") = (None, Some ErrCodeJSONUnmarshal).
Proof. vm_compute. done. Qed.

(** [TestUnmarshalData], [TestUnmarshalDataWithNilTarget],
    [TestUnmarshalDataWithEmptyData] and [TestUnmarshalDataTypeError]. *)
Example test_UnmarshalData :
  let run b v :=
    match UnmarshalData (Some (fst (constructed b))) v
            (json.mkTestData 0 "") (snd (constructed b)) with
    | Ret ((err, x), _) => Some (option_map Code err, x)
    | Panic => None
    end in
  run payload_body (Some json.pointer_to_TestData)
  = Some (None, json.mkTestData 42 "test") /\
  run (json.text "{'success': true, 'data': {'id': 1}}") None
  = Some (Some ErrCodeInvalidResponse, json.mkTestData 0 "") /\
  run success_body (Some json.pointer_to_TestData)
  = Some (Some ErrCodeEmptyData, json.mkTestData 0 "") /\
  run (json.text "{'success': true, 'data': {'id': 1}}")
    (Some (mkAny "*[]string"))
  = Some (Some ErrCodeJSONUnmarshal, json.mkTestData 0 "").
Proof. vm_compute. done. Qed.

(** [TestRateLimit], second half. *)
Example test_rate_limited :
  let h := Some (fst (constructed limited_body)) in
  IsRateLimited h = Ret true /\
  option_map (fun l => (RateLimit_Limit l, RateLimit_Remaining l))
    (match GetRateLimit h with Ret l => l | Panic => None end)
  = Some (1000, 0)%Z.
Proof. vm_compute. done. Qed.

(** [TestErrorStringFormatting] and [TestString]. *)
Example test_strings :
  ErrorString
    (Some (fst (constructed
                  (json.text
                     "{'success': false, 'error': {'code': 'ERR', 'message': 'msg', 'details': 'details', 'field': 'email'}}"))))
  = Ret "ERR | msg | details | field: email" /\
  ErrorString (Some (fst (constructed error_body))) = Ret "ERR | msg" /\
  Handler_String (Some (fst (constructed error_body)))
  = Ret "Handler(Error=ERR | msg)" /\
  Handler_String
    (Some (fst (constructed
                  (json.text
                     "{'success': true, 'meta': {'request_id': 'req-123'}}"))))
  = Ret "Handler(Success, RequestID=req-123)".
Proof. vm_compute. done. Qed.

(** [TestValidate]. *)
Example test_Validate :
  let code b := option_map Code (Validate (Some (fst (constructed b)))) in
  code success_body = None /\
  code error_body = None /\
  code (json.text "{'success': false, 'error': {'message': 'msg'}}")
  = Some ErrCodeInvalidResponse /\
  code (json.text "{'success': false, 'error': {'code': 'ERR'}}")
  = Some ErrCodeInvalidResponse /\
  code (json.text "{'success': false}") = Some ErrCodeInvalidResponse.
Proof. vm_compute. done. Qed.

(** [TestRawBodyIsolation] and [TestGetData]: the first byte of the copy is
    overwritten with ['X'], and the next call still returns the original
    bytes. *)
Example test_isolation :
  let h := Some (fst (constructed payload_body)) in
  let st := snd (constructed payload_body) in
  let twice (f : M bytes) :=
    match (out <- f ;;
           _ <- match out with
                | Some s => set_index s 0 x58
                | None => mret tt
                end ;;
           first <- read out ;;
           out' <- f ;;
           second <- read out' ;;
           mret (first, second)) st with
    | Ret (r, _) => Some r
    | Panic => None
    end in
  twice (RawBody h) = Some (x58 :: List.tl payload_body, payload_body) /\
  twice (GetData h)
  = Some (json.text "X'id': 42, 'name': 'test'}",
          json.text "{'id': 42, 'name': 'test'}").
Proof. vm_compute. done. Qed.

End Scenarios.

(** * The reference codec *)

(** ** The scanner *)

Section Scanner.

Import json.

(** The scanner looks at a value only *)

Lemma spaces_split s :
  s = fst (spaces s) ++ snd (spaces s) /\
  Forall (fun c => is_space c = true) (fst (spaces s)) /\
  no_space (snd (spaces s)).
Proof.
  induction s as [|c r IH]; simpl; [done|].
  destruct (is_space c) eqn:Hc; simpl; [|done].
  destruct (spaces r) as [w t]; simpl in *.
  destruct IH as (-> & Hw & Hn). repeat split; auto.
Qed.

Lemma spaces_app w u :
  Forall (fun c => is_space c = true) w -> no_space u ->
  spaces (w ++ u) = (w, u).
Proof.
  induction 1 as [|c w Hc _ IH]; simpl; intros Hu.
  - destruct u as [|c r]; simpl in *; [done|]. by rewrite Hu.
  - by rewrite Hc, IH.
Qed.

Lemma spaces_eq s w r :
  spaces s = (w, r) ->
  s = w ++ r /\ forall u, no_space u -> spaces (w ++ u) = (w, u).
Proof.
  intros H. pose proof (spaces_split s) as (Hs & Hw & _).
  rewrite H in *. simpl in *. split; [done|]. intros u. by apply spaces_app.
Qed.

Lemma spaces_head s w c r : spaces s = (w, c :: r) -> is_space c = false.
Proof.
  intros H. pose proof (spaces_split s) as (_ & _ & Hn). by rewrite H in Hn.
Qed.

Lemma more_Some {A} p (x : option (list byte * A)) l t :
  more p x = Some (l, t) -> exists l', x = Some (l', t) /\ l = p ++ l'.
Proof. destruct x as [[l' t']|]; simpl; [|done]. intros [= <- <-]. eauto. Qed.

Lemma scan_string_frame s b r :
  scan_string s = Some (b, r) ->
  s = b ++ x22 :: r /\ forall u, scan_string (b ++ x22 :: u) = Some (b, u).
Proof.
  revert b r. induction s as [s IH] using (induction_ltof1 _ (@length _)).
  unfold ltof in IH. intros b r. destruct s as [|c s1]; simpl; [done|].
  case_bool_decide as Hq.
  { intros [= <- <-]. subst c. split; [done|]. intros u. done. }
  case_bool_decide as Hb.
  - destruct s1 as [|e s2]; [done|].
    case_bool_decide as Hu.
    + destruct s2 as [|h1 [|h2 [|h3 [|h4 s3]]]]; try done.
      destruct (is_hex h1 && is_hex h2 && is_hex h3 && is_hex h4) eqn:Hh;
        [|done].
      intros (b' & Hs & ->)%more_Some.
      apply IH in Hs as [-> Hs]; [|simpl; lia].
      split; [done|]. intros u. simpl.
      rewrite bool_decide_false, bool_decide_true, bool_decide_true by done.
      by rewrite Hh, Hs.
    + destruct (is_escape e) eqn:He; [|done].
      intros (b' & Hs & ->)%more_Some.
      apply IH in Hs as [-> Hs]; [|simpl; lia].
      split; [done|]. intros u. simpl.
      rewrite bool_decide_false, bool_decide_true, bool_decide_false by done.
      by rewrite He, Hs.
  - destruct (Byte.to_N c <? 32)%N eqn:Hc; [done|].
    intros (b' & Hs & ->)%more_Some.
    apply IH in Hs as [-> Hs]; [|simpl; lia].
    split; [done|]. intros u. simpl.
    rewrite !bool_decide_false by done. by rewrite Hc, Hs.
Qed.

Lemma ends_no_digit u : ends u -> no_digit u.
Proof. destruct u; simpl; tauto. Qed.

Lemma digits_split s :
  s = fst (digits s) ++ snd (digits s) /\
  Forall (fun c => is_digit c = true) (fst (digits s)) /\
  no_digit (snd (digits s)).
Proof.
  induction s as [|c r IH]; simpl; [done|].
  destruct (is_digit c) eqn:Hc; simpl; [|done].
  destruct (digits r) as [w t]; simpl in *.
  destruct IH as (-> & Hw & Hn). repeat split; auto.
Qed.

Lemma digits_app d u :
  Forall (fun c => is_digit c = true) d -> no_digit u ->
  digits (d ++ u) = (d, u).
Proof.
  induction 1 as [|c d Hc _ IH]; simpl; intros Hu.
  - destruct u as [|c r]; simpl in *; [done|]. by rewrite Hu.
  - by rewrite Hc, IH.
Qed.

Lemma digits_eq s d r :
  digits s = (d, r) ->
  s = d ++ r /\ Forall (fun c => is_digit c = true) d /\
  forall u, no_digit u -> digits (d ++ u) = (d, u).
Proof.
  intros H. pose proof (digits_split s) as (Hs & Hw & _).
  rewrite H in *. simpl in *. repeat split; try done.
  intros u. by apply digits_app.
Qed.

Lemma scan_digits_frame s d r :
  scan_digits s = Some (d, r) ->
  s = d ++ r /\ d <> [] /\
  forall u, no_digit u -> scan_digits (d ++ u) = Some (d, u).
Proof.
  unfold scan_digits. destruct (digits s) as [[|c d'] t] eqn:Hd; [done|].
  intros [= <- <-]. apply digits_eq in Hd as (-> & Hf & Hd).
  repeat split; try done. intros u Hu. by rewrite Hd.
Qed.

Lemma scan_exponent_frame : number_piece scan_exponent.
Proof.
  intros s l r. unfold scan_exponent.
  destruct s as [|c s1].
  { intros [= <- <-]. split; [done|]. intros [|c u] Hu; simpl; [done|].
    destruct Hu as (_ & _ & ? & ?). by rewrite !bool_decide_false. }
  destruct (bool_decide (c = x65) || bool_decide (c = x45)) eqn:He.
  - destruct s1 as [|g s2]; [done|].
    destruct (bool_decide (g = x2b) || bool_decide (g = x2d)) eqn:Hg.
    + intros (d & Hd & ->)%more_Some.
      apply scan_digits_frame in Hd as (-> & Hne & Hd).
      split; [done|]. intros u Hu%ends_no_digit. simpl.
      by rewrite He, Hg, Hd.
    + intros (d & Hd & ->)%more_Some.
      apply scan_digits_frame in Hd as (Hs & Hne & Hd).
      destruct d as [|g' d]; [done|]. simplify_eq/=.
      split; [done|]. intros u Hu%ends_no_digit.
      rewrite He, Hg. by rewrite (Hd u Hu).
  - intros [= <- <-]. split; [done|]. intros [|c' u] Hu; simpl; [done|].
    destruct Hu as (_ & _ & ? & ?). by rewrite !bool_decide_false.
Qed.

Lemma scan_fraction_frame : number_piece scan_fraction.
Proof.
  intros s l r. unfold scan_fraction.
  destruct s as [|c s1].
  { intros [= <- <-]. split; [done|]. intros [|c u] Hu; simpl; [done|].
    destruct Hu as (_ & Hp & He1 & He2). by rewrite !bool_decide_false. }
  case_bool_decide as Hp.
  - destruct (scan_digits s1) as [[d t]|] eqn:Hd; [|done].
    intros (x & Hx & ->)%more_Some.
    apply scan_digits_frame in Hd as (-> & Hne & Hd).
    apply scan_exponent_frame in Hx as (-> & Hx).
    split; [by rewrite <- !app_assoc|]. intros u Hu. simpl.
    rewrite bool_decide_true by done. rewrite <- app_assoc.
    rewrite Hd.
    + simpl. by rewrite (Hx u Hu).
    + destruct x as [|c' x]; simpl; [by apply ends_no_digit|].
      (* the exponent starts with e or E *)
      specialize (Hx [] I). simpl in Hx. unfold scan_exponent in Hx.
      rewrite app_nil_r in Hx. simpl in Hx.
      destruct (bool_decide (c' = x65) || bool_decide (c' = x45)) eqn:He.
      * apply orb_true_iff in He as [He|He]; apply bool_decide_eq_true in He;
          by subst.
      * by simplify_eq.
  - intros Hx. apply scan_exponent_frame in Hx as (Hs & Hx).
    split; [done|]. intros u Hu.
    destruct l as [|c' l]; simpl in *.
    + destruct u as [|c'' u]; [done|]. simpl.
      destruct Hu as (? & ? & ?). rewrite bool_decide_false by done.
      by apply (Hx (c'' :: u)).
    + simplify_eq. rewrite bool_decide_false by done. by apply Hx.
Qed.

Lemma scan_integer_frame s l r :
  scan_integer s = Some (l, r) ->
  s = l ++ r /\
  (exists c l', l = c :: l' /\ is_digit c = true) /\
  forall u, ends u -> scan_integer (l ++ u) = Some (l, u).
Proof.
  unfold scan_integer. destruct s as [|c s1]; [done|].
  case_bool_decide as Hz.
  - intros (x & Hx & ->)%more_Some.
    apply scan_fraction_frame in Hx as (-> & Hx).
    split; [done|]. split; [subst c; by eexists _, _|].
    intros u Hu. simpl. rewrite bool_decide_true by done. by rewrite Hx.
  - destruct (is_digit c) eqn:Hc; [|done].
    destruct (digits s1) as [d t] eqn:Hd.
    intros (x & Hx & ->)%more_Some.
    apply digits_eq in Hd as (-> & Hf & Hd).
    apply scan_fraction_frame in Hx as (-> & Hx).
    split; [by rewrite <- !app_assoc|]. split; [by eexists _, _|].
    intros u Hu. simpl. rewrite bool_decide_false by done. rewrite Hc.
    rewrite <- app_assoc. rewrite Hd.
    + by rewrite (Hx u Hu).
    + destruct x as [|c' x]; simpl; [by apply ends_no_digit|].
      specialize (Hx [] I). rewrite app_nil_r in Hx.
      unfold scan_fraction in Hx.
      destruct (bool_decide (c' = x2e)) eqn:Hp.
      * apply bool_decide_eq_true in Hp. by subst.
      * unfold scan_exponent in Hx.
        destruct (bool_decide (c' = x65) || bool_decide (c' = x45)) eqn:He.
        -- apply orb_true_iff in He as [He|He];
             apply bool_decide_eq_true in He; by subst.
        -- by simplify_eq.
Qed.

Lemma scan_number_frame s l r :
  scan_number s = Some (l, r) ->
  s = l ++ r /\ number_head l /\
  forall u, ends u -> scan_number (l ++ u) = Some (l, u).
Proof.
  unfold scan_number. destruct s as [|c s1]; [done|].
  case_bool_decide as Hm.
  - intros (x & Hx & ->)%more_Some.
    apply scan_integer_frame in Hx as (-> & _ & Hx).
    split; [done|]. split; [by right|].
    intros u Hu. simpl. rewrite bool_decide_true by done. by rewrite Hx.
  - intros Hx. apply scan_integer_frame in Hx as (Hs & (c' & l' & -> & Hc) & Hx).
    split; [done|]. split; [by left|].
    intros u Hu. simpl in *. simplify_eq.
    rewrite bool_decide_false by done. by apply Hx.
Qed.

Lemma strip_Some p s r : strip p s = Some r -> s = p ++ r.
Proof.
  unfold strip. case_bool_decide as H; [|done]. intros [= <-].
  by rewrite <- H at 1; rewrite take_drop.
Qed.

Lemma strip_app p u : strip p (p ++ u) = Some u.
Proof.
  unfold strip. rewrite take_app_length, drop_app_length.
  by rewrite bool_decide_true.
Qed.

Lemma scan_literal_frame s l r :
  scan_literal s = Some (l, r) ->
  s = l ++ r /\ (l = true_ \/ l = false_ \/ l = null) /\
  forall u, scan_literal (l ++ u) = Some (l, u).
Proof.
  unfold scan_literal.
  destruct (strip true_ s) as [x|] eqn:H1.
  { intros [= <- <-]. apply strip_Some in H1. split; [done|]. split; [auto|].
    intros u. by rewrite strip_app. }
  destruct (strip false_ s) as [x|] eqn:H2.
  { intros [= <- <-]. apply strip_Some in H2. split; [done|]. split; [auto|].
    intros u. by rewrite strip_app. }
  destruct (strip null s) as [x|] eqn:H3; [|done].
  intros [= <- <-]. apply strip_Some in H3. split; [done|]. split; [auto|].
  intros u. by rewrite strip_app.
Qed.

(** A number is no literal. *)
Lemma scan_literal_number l u : number_head l -> scan_literal (l ++ u) = None.
Proof.
  destruct l as [|c l]; [done|]. intros [Hc| ->]; [|done].
  unfold scan_literal, strip. simpl.
  destruct c; try discriminate Hc; done.
Qed.

Lemma ends_space c u : is_space c = true -> ends (c :: u).
Proof. destruct c; try discriminate; done. Qed.

Lemma ends_spaces w c u :
  Forall (fun c => is_space c = true) w ->
  c = x2c \/ c = x7d \/ c = x5d -> ends (w ++ c :: u).
Proof.
  destruct 1 as [|c' w Hc _]; simpl.
  - intros [->|[->| ->]]; done.
  - intros _. by apply (ends_space c').
Qed.

Lemma spaces_Forall s w r :
  spaces s = (w, r) -> Forall (fun c => is_space c = true) w.
Proof.
  intros H. pose proof (spaces_split s) as (_ & Hw & _). by rewrite H in Hw.
Qed.

Lemma no_space_cons s w c r :
  spaces s = (w, c :: r) -> forall u, no_space (c :: u).
Proof. intros H u. simpl. by eapply spaces_head. Qed.

#[local] Arguments scan_number : simpl never.
#[local] Arguments scan_literal : simpl never.
#[local] Arguments scan_string : simpl never.
#[local] Arguments spaces : simpl never.

Lemma value_frame_step n :
  members_frame n -> elements_frame n -> value_frame (S n).
Proof.
  intros IHm IHe s t k r H. simpl in H.
  destruct s as [|c s1]; [done|].
  case_bool_decide as Hobj.
  { destruct (spaces s1) as [w r1] eqn:Hw.
    destruct r1 as [|c1 r2]; [done|].
    pose proof (no_space_cons _ _ _ _ Hw) as Hns.
    pose proof (spaces_Forall _ _ _ Hw) as Hf.
    apply spaces_eq in Hw as [-> Hw].
    case_bool_decide as Hclose.
    - simplify_eq. split; [by simpl; rewrite <- ?app_assoc|]. split; [done|].
      intros m u Hm _. destruct m as [|m]; [simpl in Hm; lia|].
      simpl. rewrite <- app_assoc. simpl. rewrite (Hw _ (Hns u)).
      by rewrite bool_decide_true.
    - destruct (scan_members n (c1 :: r2)) as [[[t' k'] rest]|] eqn:Hs; [|done].
      simplify_eq. apply IHm in Hs as [Hs Hrun].
      split; [by rewrite Hs; simpl; rewrite <- ?app_assoc|]. split; [done|].
      intros m u Hm _. destruct m as [|m]; [simpl in Hm; lia|].
      simpl. rewrite <- app_assoc.
      destruct t' as [|c' t']; [by specialize (Hrun 1 [] ltac:(simpl; lia))|].
      simpl in Hs. simplify_eq. simpl.
      rewrite (Hw _ (Hns (t' ++ u))). rewrite bool_decide_false by done.
      change (c' :: t' ++ u) with ((c' :: t') ++ u).
      rewrite Hrun; [done|]. simpl in *. rewrite length_app in Hm. simpl in Hm.
      lia. }
  case_bool_decide as Harr.
  { destruct (spaces s1) as [w r1] eqn:Hw.
    destruct r1 as [|c1 r2]; [done|].
    pose proof (no_space_cons _ _ _ _ Hw) as Hns.
    pose proof (spaces_Forall _ _ _ Hw) as Hf.
    apply spaces_eq in Hw as [-> Hw].
    case_bool_decide as Hclose.
    - simplify_eq. split; [by simpl; rewrite <- ?app_assoc|]. split; [done|].
      intros m u Hm _. destruct m as [|m]; [simpl in Hm; lia|].
      simpl. rewrite <- app_assoc. simpl. rewrite (Hw _ (Hns u)).
      by rewrite bool_decide_true.
    - destruct (scan_elements n (c1 :: r2)) as [[[t' k'] rest]|] eqn:Hs; [|done].
      simplify_eq. apply IHe in Hs as [Hs Hrun].
      split; [by rewrite Hs; simpl; rewrite <- ?app_assoc|]. split; [done|].
      intros m u Hm _. destruct m as [|m]; [simpl in Hm; lia|].
      simpl. rewrite <- app_assoc.
      destruct t' as [|c' t']; [by specialize (Hrun 1 [] ltac:(simpl; lia))|].
      simpl in Hs. simplify_eq. simpl.
      rewrite (Hw _ (Hns (t' ++ u))). rewrite bool_decide_false by done.
      change (c' :: t' ++ u) with ((c' :: t') ++ u).
      rewrite Hrun; [done|]. simpl in *. rewrite length_app in Hm. simpl in Hm.
      lia. }
  case_bool_decide as Hstr.
  { destruct (scan_string s1) as [[inside rest]|] eqn:Hs; [|done].
    simplify_eq. apply scan_string_frame in Hs as [-> Hs].
    split; [by simpl; rewrite <- ?app_assoc|]. split; [done|].
    intros m u Hm _. destruct m as [|m]; [simpl in Hm; lia|].
    simpl. rewrite <- app_assoc. simpl. by rewrite Hs. }
  destruct (scan_literal (c :: s1)) as [[l rest]|] eqn:Hl.
  { assert (t = l /\ k = l /\ r = rest) as (-> & -> & ->) by by simplify_eq.
    clear H. apply scan_literal_frame in Hl as (Hs & Hcase & Hl).
    split; [done|]. split; [by destruct Hcase as [->|[->| ->]]|].
    intros m u Hm _. destruct m as [|m]; [|].
    { destruct Hcase as [->|[->| ->]]; simpl in Hm; lia. }
    destruct l as [|c' l]; [by destruct Hcase as [?|[?|?]]|].
    simpl in Hs. injection Hs as <- ->. simpl.
    rewrite !bool_decide_false by done.
    change (c :: l ++ u) with ((c :: l) ++ u). by rewrite Hl. }
  destruct (scan_number (c :: s1)) as [[l rest]|] eqn:Hn; [|done].
  assert (t = l /\ k = l /\ r = rest) as (-> & -> & ->) by by simplify_eq.
  clear H. apply scan_number_frame in Hn as (Hs & Hhead & Hn).
  split; [done|]. split; [by destruct l|].
  intros m u Hm Hu. destruct l as [|c' l]; [done|].
  destruct m as [|m]; [simpl in Hm; lia|].
  simpl in Hs. injection Hs as <- ->. simpl.
  rewrite !bool_decide_false by done.
  change (c :: l ++ u) with ((c :: l) ++ u).
  by rewrite (scan_literal_number _ _ Hhead), Hn.
Qed.

Lemma no_space_app t u : t <> [] -> no_space t -> no_space (t ++ u).
Proof. by destruct t. Qed.

Lemma spaces_no_space s w r : spaces s = (w, r) -> no_space r.
Proof.
  intros H. pose proof (spaces_split s) as (_ & _ & Hn). by rewrite H in Hn.
Qed.

Lemma members_frame_step n :
  value_frame n -> members_frame n -> members_frame (S n).
Proof.
  intros IHv IHm s t k r H. simpl in H.
  destruct s as [|c s1]; [done|].
  case_bool_decide as Hq; [|done].
  destruct (scan_string s1) as [[key r1]|] eqn:Hkey; [|done].
  destruct (spaces r1) as [w1 r2] eqn:Hw1.
  destruct r2 as [|c2 r3]; [done|].
  case_bool_decide as Hcolon; [|done].
  destruct (spaces r3) as [w2 r4] eqn:Hw2.
  destruct (scan_value n r4) as [[[tv kv] r5]|] eqn:Hv; [|done].
  destruct (spaces r5) as [w3 r6] eqn:Hw3.
  destruct r6 as [|c6 r7]; [done|].
  apply scan_string_frame in Hkey as [-> Hkey].
  pose proof (no_space_cons _ _ _ _ Hw1) as Hn1.
  apply spaces_eq in Hw1 as [-> Hw1].
  pose proof (spaces_no_space _ _ _ Hw2) as Hn2.
  apply spaces_eq in Hw2 as [-> Hw2].
  apply IHv in Hv as (-> & Hne & Hv).
  pose proof (no_space_cons _ _ _ _ Hw3) as Hn3.
  pose proof (spaces_Forall _ _ _ Hw3) as Hf3.
  apply spaces_eq in Hw3 as [-> Hw3].
  assert (Hn2' : forall u, no_space (tv ++ u)).
  { intros u. destruct tv; [done|]. exact Hn2. }
  case_bool_decide as Hcomma.
  - destruct (spaces r7) as [w4 r8] eqn:Hw4.
    destruct (scan_members n r8) as [[[t' k'] rest]|] eqn:Hm; [|done].
    assert (t = c :: key ++ [x22] ++ w1 ++ [c2] ++ w2 ++ tv ++ w3 ++ [c6]
                  ++ w4 ++ t' /\
            k = c :: escapeHTML key ++ [x22; c2] ++ kv ++ [c6] ++ k' /\
            r = rest) as (-> & -> & ->).
    { injection H as <- <- <-. repeat split; norm; done. }
    clear H.
    pose proof (spaces_no_space _ _ _ Hw4) as Hn4.
    apply spaces_eq in Hw4 as [-> Hw4].
    apply IHm in Hm as [-> Hm].
    split; [by norm|].
    intros m u Hlen. destruct m as [|m]; [simpl in Hlen; lia|].
    assert (Hn4' : forall u, no_space (t' ++ u)).
    { intros u'. destruct t'; [|exact Hn4].
      by specialize (Hm 1 [] ltac:(simpl; lia)). }
    norm. rewrite bool_decide_true by done. rewrite Hkey.
    rewrite (Hw1 _ (Hn1 _)). rewrite bool_decide_true by done.
    rewrite (Hw2 _ (Hn2' _)).
    rewrite Hv.
    2: { lens Hlen. }
    2: { apply ends_spaces; auto. }
    rewrite (Hw3 _ (Hn3 _)). rewrite bool_decide_true by done.
    rewrite (Hw4 _ (Hn4' _)). rewrite Hm; [by norm|lens Hlen].
  - case_bool_decide as Hclose; [|done].
    assert (t = c :: key ++ [x22] ++ w1 ++ [c2] ++ w2 ++ tv ++ w3 ++ [c6] /\
            k = c :: escapeHTML key ++ [x22; c2] ++ kv ++ [c6] /\
            r = r7) as (-> & -> & ->).
    { injection H as <- <- <-. repeat split; norm; done. }
    clear H. split; [by norm|].
    intros m u Hlen. destruct m as [|m]; [simpl in Hlen; lia|].
    norm. rewrite bool_decide_true by done. rewrite Hkey.
    rewrite (Hw1 _ (Hn1 _)). rewrite bool_decide_true by done.
    rewrite (Hw2 _ (Hn2' _)).
    rewrite Hv.
    2: { lens Hlen. }
    2: { apply ends_spaces; auto. }
    rewrite (Hw3 _ (Hn3 _)). rewrite bool_decide_false by done.
    rewrite bool_decide_true by done. by norm.
Qed.

Lemma elements_frame_step n :
  value_frame n -> elements_frame n -> elements_frame (S n).
Proof.
  intros IHv IHe s t k r H. simpl in H.
  destruct (scan_value n s) as [[[tv kv] r1]|] eqn:Hv; [|done].
  destruct (spaces r1) as [w1 r2] eqn:Hw1.
  destruct r2 as [|c2 r3]; [done|].
  apply IHv in Hv as (-> & Hne & Hv).
  pose proof (no_space_cons _ _ _ _ Hw1) as Hn1.
  pose proof (spaces_Forall _ _ _ Hw1) as Hf1.
  apply spaces_eq in Hw1 as [-> Hw1].
  case_bool_decide as Hcomma.
  - destruct (spaces r3) as [w2 r4] eqn:Hw2.
    destruct (scan_elements n r4) as [[[t' k'] rest]|] eqn:He; [|done].
    assert (t = tv ++ w1 ++ [c2] ++ w2 ++ t' /\
            k = kv ++ [c2] ++ k' /\ r = rest) as (-> & -> & ->)
      by by simplify_eq.
    clear H.
    pose proof (spaces_no_space _ _ _ Hw2) as Hn2.
    apply spaces_eq in Hw2 as [-> Hw2].
    apply IHe in He as [-> He].
    split; [by norm|].
    intros m u Hlen. destruct m as [|m].
    { destruct tv; [done|]. simpl in Hlen. lia. }
    assert (Hn2' : forall u, no_space (t' ++ u)).
    { intros u'. destruct t'; [|exact Hn2].
      by specialize (He 1 [] ltac:(simpl; lia)). }
    simpl. rewrite <- !app_assoc. rewrite Hv.
    2: { lens Hlen. }
    2: { apply ends_spaces; auto. }
    norm. rewrite (Hw1 _ (Hn1 _)). rewrite bool_decide_true by done.
    norm. rewrite (Hw2 _ (Hn2' _)). rewrite He; [by norm|].
    destruct tv; [done|]. lens Hlen.
  - case_bool_decide as Hclose; [|done].
    assert (t = tv ++ w1 ++ [c2] /\ k = kv ++ [c2] /\ r = r3)
      as (-> & -> & ->) by by simplify_eq.
    clear H. split; [by norm|].
    intros m u Hlen. destruct m as [|m].
    { destruct tv; [done|]. simpl in Hlen. lia. }
    simpl. rewrite <- !app_assoc. rewrite Hv.
    2: { lens Hlen. }
    2: { apply ends_spaces; auto. }
    norm. rewrite (Hw1 _ (Hn1 _)). rewrite bool_decide_false by done.
    rewrite bool_decide_true by done. by norm.
Qed.

Lemma scan_frames n : value_frame n /\ members_frame n /\ elements_frame n.
Proof.
  induction n as [|n (IHv & IHm & IHe)].
  - split; [|split]; by intros s t k r.
  - split; [by apply value_frame_step|].
    split; [by apply members_frame_step | by apply elements_frame_step].
Qed.

(** The scanner finds a value in front of what follows it, and finds it
    again, with fuel for its length, in front of anything a number may
    end at. *)
Lemma scan_value_frame n s t k r :
  scan_value n s = Some (t, k, r) ->
  s = t ++ r /\ t <> [] /\
  forall m u, length t <= m -> ends u ->
              scan_value m (t ++ u) = Some (t, k, u).
Proof. apply scan_frames. Qed.

Lemma scan_value_text n s t k r :
  scan_value n s = Some (t, k, r) -> s = t ++ r /\ value_text t k.
Proof. intros (? & ? & ?)%scan_value_frame. by repeat split. Qed.

Lemma scan_value_head n c s x :
  scan_value n (c :: s) = Some x -> is_space c = false.
Proof.
  destruct (is_space c) eqn:Hc; [|done]. intros H. exfalso.
  destruct n as [|n]; [done|].
  assert (c = x20 \/ c = x09 \/ c = x0a \/ c = x0d) as Hcs
    by (destruct c; try discriminate Hc; auto).
  simpl in H. unfold scan_literal, scan_number, strip in H.
  destruct Hcs as [->|[->|[->| ->]]]; simpl in H;
    repeat (case_bool_decide; [done|]); done.
Qed.

Lemma value_text_no_space v k u : value_text v k -> no_space (v ++ u).
Proof.
  intros [Hne Hv]. destruct v as [|c v]; [done|]. simpl.
  specialize (Hv _ [] (Nat.le_refl _) I). by apply scan_value_head in Hv.
Qed.

Lemma spaces_no_space_id s : no_space s -> spaces s = ([], s).
Proof. intros H. by apply (spaces_app [] s). Qed.

Lemma value_text_document v k :
  value_text v k -> scan_document v = Some (v, k).
Proof.
  intros Hv. unfold scan_document, skip_space.
  pose proof (value_text_no_space v k [] Hv) as Hn. rewrite app_nil_r in Hn.
  rewrite spaces_no_space_id by done. simpl snd.
  destruct Hv as [_ Hv]. specialize (Hv (S (length v)) [] ltac:(lia) I).
  rewrite app_nil_r in Hv. by rewrite Hv.
Qed.

Lemma value_text_compact v k : value_text v k -> compact v = Some k.
Proof. intros H. unfold compact. by rewrite (value_text_document v k). Qed.

Lemma value_text_checkValid v k : value_text v k -> checkValid v = true.
Proof. intros H. unfold checkValid. by rewrite (value_text_document v k). Qed.

Lemma value_text_is_document v k : value_text v k -> document v = v.
Proof. intros H. unfold document. by rewrite (value_text_document v k). Qed.

End Scanner.

(** ** The calendar *)

Section Calendar.

Import time.
Local Open Scope Z_scope.

Lemma isLeap_cycles (y' q c f e : Z) :
  y' = 400 * q + 100 * c + 4 * f + e ->
  0 <= c <= 3 -> 0 <= f <= 24 -> 0 <= e <= 3 ->
  isLeap (y' + 1) = true ->
  e = 3 /\ (f = 24 -> c = 3).
Proof.
  unfold isLeap. intros -> Hc Hf He H.
  apply andb_prop in H as [H4 H]. apply Z.eqb_eq in H4.
  apply orb_prop in H as [H|H].
  - apply negb_true_iff, Z.eqb_neq in H.
    split; [dlia|]. intros ->. exfalso. apply H. dlia.
  - apply Z.eqb_eq in H. split; dlia.
Qed.

Lemma isLeap_not_cycles (y' q c f e : Z) :
  y' = 400 * q + 100 * c + 4 * f + e ->
  0 <= c <= 3 -> 0 <= f <= 24 -> 0 <= e <= 3 ->
  isLeap (y' + 1) = false ->
  e <> 3 \/ (f = 24 /\ c <> 3).
Proof.
  unfold isLeap. intros -> Hc Hf He H.
  apply andb_false_iff in H as [H|H].
  - apply Z.eqb_neq in H. left. dlia.
  - apply orb_false_iff in H as [H1 H2].
    apply negb_false_iff, Z.eqb_eq in H1. apply Z.eqb_neq in H2.
    destruct (decide (e = 3)) as [->|]; [right|by left].
    dlia.
Qed.

Lemma cycles (y' : Z) :
  exists q c f e,
    y' = 400 * q + 100 * c + 4 * f + e /\
    0 <= c <= 3 /\ 0 <= f <= 24 /\ 0 <= e <= 3 /\
    365 * y' + y' / 4 - y' / 100 + y' / 400
    = 146097 * q + 36524 * c + 1461 * f + 365 * e.
Proof.
  exists (y' / 400), (y' mod 400 / 100), (y' mod 100 / 4), (y' mod 4).
  dlia.
Qed.

Lemma absYear_cycles (q c f e k : Z) :
  0 <= c <= 3 -> 0 <= f <= 24 -> 0 <= e <= 3 -> 0 <= k <= 365 ->
  (k = 365 -> e = 3 /\ (f = 24 -> c = 3)) ->
  absYear (146097 * q + 36524 * c + 1461 * f + 365 * e + k)
  = (400 * q + 100 * c + 4 * f + e + 1, k).
Proof.
  intros Hc Hf He Hk Hleap. unfold absYear.
  set (d := 146097 * q + 36524 * c + 1461 * f + 365 * e + k).
  assert (H400 : d / 146097 = q) by (subst d; dlia).
  rewrite H400.
  set (d1 := d - 146097 * q).
  assert (H100 : d1 / 36524 - d1 / 36524 / 4 = c) by (subst d1 d; dlia).
  rewrite H100.
  set (d2 := d1 - 36524 * c).
  assert (H4 : d2 / 1461 = f) by (subst d2 d1 d; dlia).
  rewrite H4.
  set (d3 := d2 - 1461 * f).
  assert (H1 : d3 / 365 - d3 / 365 / 4 = e) by (subst d3 d2 d1 d; dlia).
  rewrite H1. f_equal. subst d3 d2 d1 d. lia.
Qed.

Lemma absYear_daysSinceEpoch (year k : Z) :
  0 <= k < yearLength year ->
  absYear (daysSinceEpoch year 1 1 + k) = (year, k).
Proof.
  intros Hk. unfold daysSinceEpoch.
  destruct (cycles (year - 1)) as (q & c & f & e & Hy & Hc & Hf & He & ->).
  replace (isLeap year && (3 <=? 1)) with false by by rewrite andb_false_r.
  change (daysBefore 1) with 0.
  replace (146097 * q + 36524 * c + 1461 * f + 365 * e + 0 + 0 + (1 - 1) + k)
    with (146097 * q + 36524 * c + 1461 * f + 365 * e + k) by lia.
  unfold yearLength in Hk. destruct (isLeap year) eqn:Hl.
  - replace year with (year - 1 + 1) in Hl by lia.
    apply (isLeap_cycles _ q c f e) in Hl; [|done..].
    rewrite absYear_cycles; [f_equal; lia|lia..|done].
  - rewrite absYear_cycles; [f_equal; lia|lia..].
Qed.

Lemma In_Zrange lo n x : lo <= x < lo + Z.of_nat n -> In x (Zrange lo n).
Proof.
  intros H. apply in_map_iff. exists (Z.to_nat (x - lo)).
  split; [lia|]. apply in_seq. lia.
Qed.

Lemma dates_checked :
  forallb (fun leap =>
    forallb (fun month =>
      forallb (date_checked leap month) (Zrange 1 31)) (Zrange 1 12))
    [true; false] = true.
Proof. vm_compute. reflexivity. Qed.

Lemma yearDate_yearDay leap month day :
  1 <= month <= 12 -> 1 <= day <= monthLength leap month ->
  0 <= yearDay leap month day < (if leap then 366 else 365) /\
  yearDate leap (yearDay leap month day) = (month, day).
Proof.
  intros Hm Hd.
  assert (Hday : day <= 31).
  { unfold monthLength in Hd.
    repeat match type of Hd with context [if ?b then _ else _] =>
      destruct b end; lia. }
  pose proof dates_checked as H.
  rewrite forallb_forall in H.
  specialize (H leap ltac:(destruct leap; simpl; auto)).
  rewrite forallb_forall in H.
  specialize (H month (In_Zrange 1 12 month ltac:(lia))).
  rewrite forallb_forall in H.
  specialize (H day (In_Zrange 1 31 day ltac:(lia))).
  unfold date_checked in H.
  apply orb_prop in H as [H|H]; [apply Z.ltb_lt in H; lia|].
  apply andb_prop in H as [H H3]. apply andb_prop in H as [H1 H2].
  apply Z.leb_le in H1. apply Z.ltb_lt in H2.
  apply bool_decide_eq_true in H3. done.
Qed.

(** The calendar computation finds the date a day was counted from. *)
Lemma absDate_daysSinceEpoch year month day :
  1 <= month <= 12 -> 1 <= day <= daysIn month year ->
  absDate (daysSinceEpoch year month day) = (year, month, day).
Proof.
  intros Hm Hd.
  change (daysIn month year) with (monthLength (isLeap year) month) in Hd.
  destruct (yearDate_yearDay _ _ _ Hm Hd) as [Hk Hdate].
  assert (Hsplit : daysSinceEpoch year month day
                   = daysSinceEpoch year 1 1
                     + yearDay (isLeap year) month day).
  { unfold daysSinceEpoch, yearDay. change (daysBefore 1) with 0.
    rewrite andb_false_r. lia. }
  unfold absDate. rewrite Hsplit, absYear_daysSinceEpoch by done.
  by rewrite Hdate.
Qed.

End Calendar.

(** ** Timestamps as text *)

Section Timestamps.

Import strconv time.
Local Open Scope Z_scope.

Lemma digit_digit_byte d : 0 <= d <= 9 -> digit (digit_byte d) = Some d.
Proof.
  intros H.
  assert (d = 0 \/ d = 1 \/ d = 2 \/ d = 3 \/ d = 4 \/ d = 5 \/ d = 6
          \/ d = 7 \/ d = 8 \/ d = 9) as Hd by lia.
  by repeat destruct Hd as [->|Hd]; [..|subst d].
Qed.

Lemma isDigit_digit_byte d : isDigit (digit_byte d) = true.
Proof.
  unfold digit_byte.
  destruct (Z.to_nat d) as [|[|[|[|[|[|[|[|[|[|[|n]]]]]]]]]]]; try done.
Qed.

Lemma decimal_S n x :
  decimal (S n) x
  = digit_byte (x mod 10) :: (if x <? 10 then [] else decimal n (x / 10)).
Proof. done. Qed.

#[local] Opaque decimal.

Lemma appendInt_2 x :
  0 <= x <= 99 -> appendInt x 2 = [digit_byte (x / 10); digit_byte (x mod 10)].
Proof.
  intros H. unfold appendInt, FormatUint.
  rewrite Z.abs_eq by lia. replace (x <? 0) with false by lia.
  rewrite decimal_S. destruct (x <? 10) eqn:H1.
  - by replace (x / 10) with 0 by dlia.
  - rewrite decimal_S. replace (x / 10 <? 10) with true by dlia.
    by replace (x / 10 mod 10) with (x / 10) by dlia.
Qed.

Lemma appendInt_4 x :
  0 <= x <= 9999 ->
  appendInt x 4
  = [digit_byte (x / 1000); digit_byte (x / 100 mod 10);
     digit_byte (x / 10 mod 10); digit_byte (x mod 10)].
Proof.
  intros H. unfold appendInt, FormatUint.
  rewrite Z.abs_eq by lia. replace (x <? 0) with false by lia.
  rewrite decimal_S. destruct (x <? 10) eqn:H1.
  { replace (x / 1000) with 0 by dlia. replace (x / 100) with 0 by dlia.
    by replace (x / 10) with 0 by dlia. }
  rewrite decimal_S. destruct (x / 10 <? 10) eqn:H2.
  { replace (x / 1000) with 0 by dlia. by replace (x / 100) with 0 by dlia. }
  replace (x / 10 / 10) with (x / 100) by dlia.
  rewrite decimal_S. destruct (x / 100 <? 10) eqn:H3.
  { replace (x / 1000) with 0 by dlia.
    by replace (x / 100 mod 10) with (x / 100) by dlia. }
  replace (x / 100 / 10) with (x / 1000) by dlia.
  rewrite decimal_S. replace (x / 1000 <? 10) with true by dlia.
  by replace (x / 1000 mod 10) with (x / 1000) by dlia.
Qed.

Lemma parseUint_2 a b lo hi :
  0 <= a <= 9 -> 0 <= b <= 9 -> lo <= a * 10 + b <= hi ->
  parseUint [digit_byte a; digit_byte b] lo hi = Some (a * 10 + b).
Proof.
  intros Ha Hb H. unfold parseUint. simpl.
  rewrite !digit_digit_byte by done. simpl.
  replace ((0 * 10 + a) * 10 + b) with (a * 10 + b) by lia.
  by replace ((lo <=? a * 10 + b) && (a * 10 + b <=? hi)) with true by lia.
Qed.

Lemma parseUint_two x lo hi :
  0 <= x <= 99 -> lo <= x <= hi ->
  parseUint [digit_byte (x / 10); digit_byte (x mod 10)] lo hi = Some x.
Proof.
  intros Hx H.
  rewrite parseUint_2 by dlia. f_equal. dlia.
Qed.

Lemma parseUint_four x :
  0 <= x <= 9999 ->
  parseUint [digit_byte (x / 1000); digit_byte (x / 100 mod 10);
             digit_byte (x / 10 mod 10); digit_byte (x mod 10)] 0 9999
  = Some x.
Proof.
  intros Hx. unfold parseUint. simpl.
  rewrite !digit_digit_byte by dlia. simpl.
  replace ((((0 * 10 + x / 1000) * 10 + x / 100 mod 10) * 10 + x / 10 mod 10) * 10
           + x mod 10) with x by dlia.
  by replace ((0 <=? x) && (x <=? 9999)) with true by lia.
Qed.

Lemma parseUint_range s lo hi x : parseUint s lo hi = Some x -> lo <= x <= hi.
Proof.
  unfold parseUint. destruct (number s 0); [|done].
  destruct (_ && _) eqn:H; [|done]. intros [= <-]. lia.
Qed.

Lemma time_ok_zero : time_ok zero.
Proof.
  exists 1, 1, 1, 0, 0, 0, 0, 0, false. unfold zero; simpl.
  repeat split; try lia; try done.
Qed.

Lemma number_nonneg s x y : number s x = Some y -> 0 <= x -> 0 <= y.
Proof.
  revert x. induction s as [|c s IH]; intros x; simpl.
  - intros [= <-]. done.
  - destruct (digit c) as [d|] eqn:Hd; [|done].
    intros H Hx. apply IH in H; [done|].
    assert (0 <= d) by (destruct c; simpl in Hd; simplify_eq; lia). lia.
Qed.

Lemma parseNanoseconds_nonneg ds : 0 <= parseNanoseconds ds.
Proof.
  unfold parseNanoseconds. destruct (number _ 0) as [x|] eqn:H; [|done].
  apply number_nonneg in H; [|done]. apply Z.mul_nonneg_nonneg; [done|].
  apply Z.pow_nonneg. lia.
Qed.

Lemma fraction_nonneg s : 0 <= fst (fraction s).
Proof.
  unfold fraction. destruct s as [|p [|c r]]; try done.
  destruct (_ && _); [|done].
  destruct (leading_digits (c :: r)). apply parseNanoseconds_nonneg.
Qed.

Lemma parseZone_Some s off :
  parseZone s = Some off ->
  exists hr mm (neg : bool),
    0 <= hr <= 23 /\ 0 <= mm <= 59 /\
    off = if neg then - ((hr * 60 + mm) * 60) else (hr * 60 + mm) * 60.
Proof.
  unfold parseZone.
  destruct s as [|c0 [|h1 [|h2 [|c3 [|m1 [|m2 [|]]]]]]]; try done.
  - case_bool_decide; [|done]. intros [= <-].
    by exists 0, 0, false.
  - destruct (parseUint [h1; h2] 0 23) as [hr|] eqn:Hhr; [|done].
    destruct (parseUint [m1; m2] 0 59) as [mm|] eqn:Hmm; [|done].
    apply parseUint_range in Hhr, Hmm.
    case_bool_decide; [|done].
    case_bool_decide; [intros [= <-]; by exists hr, mm, false|].
    case_bool_decide; [intros [= <-]; by exists hr, mm, true|done].
Qed.

(** What [parseRFC3339] accepts is a time of the calendar. *)
Lemma parseRFC3339_ok s t : parseRFC3339 s = Some t -> time_ok t.
Proof.
  unfold parseRFC3339.
  destruct s as [|y1 [|y2 [|y3 [|y4 [|c1 [|mo1 [|mo2 [|c2 [|d1 [|d2 [|c3
    [|h1 [|h2 [|c4 [|mi1 [|mi2 [|c5 [|s1 [|s2 s]]]]]]]]]]]]]]]]]]];
    try done.
  destruct (parseUint [y1; y2; y3; y4] 0 9999) as [year|] eqn:Hy; [|done].
  destruct (parseUint [mo1; mo2] 1 12) as [month|] eqn:Hmo; [|done].
  destruct (parseUint [d1; d2] 1 _) as [day|] eqn:Hd; [|done].
  destruct (parseUint [h1; h2] 0 23) as [hour|] eqn:Hh; [|done].
  destruct (parseUint [mi1; mi2] 0 59) as [minute|] eqn:Hmi; [|done].
  destruct (parseUint [s1; s2] 0 59) as [second|] eqn:Hs; [|done].
  destruct (_ && _); [|done].
  pose proof (fraction_nonneg s) as Hns.
  destruct (fraction s) as [ns zone].
  destruct (parseZone zone) as [off|] eqn:Hz; [|done].
  intros [= <-].
  apply parseZone_Some in Hz as (hr & mm & neg & Hhr & Hmm & ->).
  apply parseUint_range in Hy, Hmo, Hd, Hh, Hmi, Hs.
  exists year, month, day, hour, minute, second, hr, mm, neg.
  simpl in *. repeat split; try lia.
Qed.

Lemma Forall_isDigit_decimal n x : Forall (fun c => isDigit c = true) (decimal n x).
Proof.
  revert x. induction n as [|n IH]; intros x; [by constructor|].
  rewrite decimal_S. constructor; [apply isDigit_digit_byte|].
  destruct (x <? 10); [constructor|apply IH].
Qed.

Lemma Forall_trim_zeros (P : byte -> Prop) s :
  Forall P s -> Forall P (trim_zeros s).
Proof.
  induction 1 as [|c s Hc Hs IH]; simpl; [constructor|].
  destruct (trim_zeros s) as [|c' t].
  - case_bool_decide; constructor; [done|constructor].
  - by constructor.
Qed.

Lemma appendNano_digits ns :
  0 <= ns ->
  appendNano ns = [] \/
  exists c ds, appendNano ns = x2e :: c :: ds /\
               Forall (fun c => isDigit c = true) (c :: ds).
Proof.
  intros H. unfold appendNano.
  assert (Hall : Forall (fun c => isDigit c = true)
                   (trim_zeros (appendInt ns 9))).
  { apply Forall_trim_zeros. unfold appendInt, FormatUint.
    replace (ns <? 0) with false by lia. simpl.
    apply Forall_app. split.
    { apply List.Forall_forall. by intros c ->%repeat_spec. }
    apply Forall_rev, Forall_isDigit_decimal. }
  destruct (trim_zeros _) as [|c ds]; [by left|right]. by exists c, ds.
Qed.

Lemma leading_digits_app ds z :
  Forall (fun c => isDigit c = true) ds ->
  match z with c :: _ => isDigit c = false | [] => True end ->
  leading_digits (ds ++ z) = (ds, z).
Proof.
  intros Hds Hz. induction Hds as [|c ds Hc _ IH]; simpl.
  - destruct z as [|c z]; [done|]. simpl. by rewrite Hz.
  - by rewrite Hc, IH.
Qed.

Lemma appendZone_text off hr mm (neg : bool) :
  0 <= hr <= 23 -> 0 <= mm <= 59 ->
  off = (if neg then - ((hr * 60 + mm) * 60) else (hr * 60 + mm) * 60) ->
  zone_text (appendZone off).
Proof.
  intros Hhr Hmm Hoff. unfold appendZone.
  destruct (off =? 0) eqn:H0; [by left|right].
  apply Z.eqb_neq in H0.
  assert (Hq : Z.abs (Z.quot off 60) = hr * 60 + mm).
  { destruct neg; subst off.
    - rewrite <- Z.mul_opp_l, Z.quot_mul by done. lia.
    - rewrite Z.quot_mul by done. lia. }
  rewrite Hq.
  replace ((hr * 60 + mm) / 60) with hr by dlia.
  replace ((hr * 60 + mm) mod 60) with mm by dlia.
  rewrite !appendInt_2 by lia.
  exists (if Z.quot off 60 <? 0 then x2d else x2b), hr, mm.
  split; [destruct (_ <? 0); auto|]. do 2 (split; [done|]).
  by destruct (_ <? 0).
Qed.

Lemma parseZone_text z : zone_text z -> exists off, parseZone z = Some off.
Proof.
  intros [->|(sign & hr & mm & Hsign & Hhr & Hmm & ->)]; [by exists 0|].
  unfold parseZone.
  rewrite !parseUint_two by lia.
  rewrite bool_decide_true by done.
  destruct Hsign as [-> | ->]; eauto.
Qed.

Lemma fraction_appendNano ns z :
  0 <= ns -> zone_text z ->
  exists x, fraction (appendNano ns ++ z) = (x, z).
Proof.
  intros Hns Hz.
  assert (Hhead : match z with
                  | c :: _ => isDigit c = false /\ c <> x2e
                  | [] => False
                  end).
  { destruct Hz as [->|(sign & hr & mm & [-> | ->] & _ & _ & ->)]; done. }
  destruct (appendNano_digits ns Hns) as [->|(c & ds & -> & Hds)].
  - simpl. unfold fraction. destruct z as [|p [|c r]]; [done|by eexists|].
    rewrite bool_decide_false by apply Hhead. by eexists.
  - unfold fraction. simpl app.
    assert (Hc : isDigit c = true) by by inversion Hds.
    cbv iota. rewrite bool_decide_true, Hc by done. simpl andb. cbv iota.
    change (c :: ds ++ z) with ((c :: ds) ++ z).
    rewrite leading_digits_app; [by eexists|done|].
    destruct z; [done|apply Hhead].
Qed.

Lemma clock_fields D h mi s :
  0 <= h <= 23 -> 0 <= mi <= 59 -> 0 <= s <= 59 ->
  (D * 86400 + h * 3600 + mi * 60 + s) / 86400 = D /\
  (D * 86400 + h * 3600 + mi * 60 + s) mod 86400 / 3600 = h /\
  (D * 86400 + h * 3600 + mi * 60 + s) mod 86400 mod 3600 / 60 = mi /\
  (D * 86400 + h * 3600 + mi * 60 + s) mod 86400 mod 60 = s.
Proof. intros. repeat split; dlia. Qed.

Lemma daysIn_le month year : daysIn month year <= 31.
Proof.
  unfold daysIn.
  repeat match goal with |- context [if ?b then _ else _] => destruct b end;
    lia.
Qed.

#[local] Opaque digit_byte.

Lemma appendFormatRFC3339_stamp t :
  time_ok t ->
  exists year month day hour minute second z,
    0 <= year <= 9999 /\ 1 <= month <= 12 /\ 1 <= day <= daysIn month year /\
    0 <= hour <= 23 /\ 0 <= minute <= 59 /\ 0 <= second <= 59 /\
    zone_text z /\
    appendFormatRFC3339 t true
    = stamp year month day hour minute second ++ appendNano (nsec t) ++ z.
Proof.
  intros (year & month & day & hour & minute & second & hr & mm & neg
          & Hy & Hmo & Hd & Hh & Hmi & Hs & Hhr & Hmm & Hns & Hoff & Hsec).
  exists year, month, day, hour, minute, second, (appendZone (offset t)).
  do 6 (split; [done|]).
  split; [by apply (appendZone_text _ hr mm neg)|].
  unfold appendFormatRFC3339. rewrite Hsec.
  destruct (clock_fields (daysSinceEpoch year month day) hour minute second)
    as (-> & -> & -> & ->); [done..|].
  rewrite absDate_daysSinceEpoch by done.
  pose proof (daysIn_le month year).
  rewrite appendInt_4 by done. rewrite !appendInt_2 by lia.
  done.
Qed.

Lemma parseRFC3339_stamp year month day hour minute second tail x z :
  0 <= year <= 9999 -> 1 <= month <= 12 -> 1 <= day <= daysIn month year ->
  0 <= hour <= 23 -> 0 <= minute <= 59 -> 0 <= second <= 59 ->
  fraction tail = (x, z) -> zone_text z ->
  exists t,
    parseRFC3339 (stamp year month day hour minute second ++ tail) = Some t.
Proof.
  intros Hy Hmo Hd Hh Hmi Hs Hf Hz.
  destruct (parseZone_text z Hz) as [off Hoff].
  pose proof (daysIn_le month year).
  unfold stamp, parseRFC3339. simpl app. cbv iota.
  rewrite parseUint_four by done. rewrite !parseUint_two by lia.
  rewrite !bool_decide_true by done. simpl andb. cbv iota.
  rewrite Hf, Hoff. by eexists.
Qed.

Lemma digit_byte_neq d c : isDigit c = false -> digit_byte d <> c.
Proof. intros H <-. by rewrite isDigit_digit_byte in H. Qed.

Lemma appendStrictRFC3339_ok t :
  time_ok t -> appendStrictRFC3339 t = Some (appendFormatRFC3339 t true).
Proof.
  intros Ht. unfold appendStrictRFC3339.
  destruct (appendFormatRFC3339_stamp t Ht)
    as (year & month & day & hour & minute & second & z & _ & _ & _ & _ & _
        & _ & Hz & ->).
  set (b := stamp _ _ _ _ _ _ ++ _ ++ z).
  assert (Hdash : drop 4 b = x2d :: drop 5 b) by done.
  rewrite Hdash, bool_decide_true by done.
  assert (Hb : b = (stamp year month day hour minute second
                    ++ appendNano (nsec t)) ++ z)
    by (subst b; by rewrite <- app_assoc).
  destruct Hz as [->|(sign & hr & mm & Hsign & Hhr & Hmm & ->)].
  - rewrite Hb at 1. rewrite rev_app_distr. by simpl.
  - rewrite Hb at 1. rewrite rev_app_distr. cbn [rev app].
    rewrite bool_decide_false by by apply digit_byte_neq.
    rewrite Hb at 1 2. rewrite length_app. cbn [length].
    rewrite Nat.add_sub, drop_app_length.
    replace (isDigit sign) with false by by destruct Hsign as [-> | ->].
    simpl. rewrite !digit_digit_byte by dlia. simpl.
    replace (24 <=? (0 * 10 + hr / 10) * 10 + hr mod 10) with false by dlia.
    done.
Qed.

Lemma time_char_digit c : isDigit c = true -> time_char c = true.
Proof. unfold time_char. by intros ->. Qed.

Ltac time_chars :=
  repeat (apply List.Forall_cons;
          [first [by apply time_char_digit, isDigit_digit_byte | done]|]);
  try apply List.Forall_nil.

(** A time the decoder has left in a field is written without error, and
    what is written is read again. *)
Lemma MarshalJSON_ok t :
  time_ok t ->
  exists txt t',
    MarshalJSON t = Some ([x22] ++ txt ++ [x22]) /\
    parseRFC3339 txt = Some t' /\
    Forall (fun c => time_char c = true) txt.
Proof.
  intros Ht. unfold MarshalJSON. rewrite appendStrictRFC3339_ok by done.
  exists (appendFormatRFC3339 t true).
  destruct (appendFormatRFC3339_stamp t Ht)
    as (year & month & day & hour & minute & second & z & Hy & Hmo & Hd & Hh
        & Hmi & Hs & Hz & ->).
  assert (Hns : 0 <= nsec t) by (destruct Ht as (?&?&?&?&?&?&?&?&?&H); apply H).
  destruct (fraction_appendNano (nsec t) z Hns Hz) as [x Hf].
  destruct (parseRFC3339_stamp year month day hour minute second _ x z
              Hy Hmo Hd Hh Hmi Hs Hf Hz) as [t' Ht'].
  exists t'. split; [done|]. split; [done|].
  apply Forall_app. split; [unfold stamp; time_chars|].
  apply Forall_app. split.
  - destruct (appendNano_digits (nsec t) Hns) as [->|(c & ds & -> & Hds)];
      [constructor|].
    constructor; [done|]. eapply Forall_impl; [done|].
    apply time_char_digit.
  - destruct Hz as [->|(sign & hr & mm & Hsign & _ & _ & ->)];
      [time_chars|].
    apply List.Forall_cons; [by destruct Hsign as [-> | ->]|]. time_chars.
Qed.

#[local] Transparent decimal digit_byte.

End Timestamps.

(** ** Numbers as text *)

Section Numbers.

Import strconv json.
Local Open Scope Z_scope.

Lemma is_digit_isDigit c : is_digit c = time.isDigit c.
Proof. by destruct c. Qed.

Lemma number_app a b x :
  number (a ++ b) x
  = match number a x with Some y => number b y | None => None end.
Proof.
  revert x. induction a as [|c a IH]; intros x; simpl; [done|].
  destruct (digit c); [apply IH|done].
Qed.

Lemma number_decimal n x :
  0 <= x < 10 ^ Z.of_nat n -> number (rev (decimal n x)) 0 = Some x.
Proof.
  revert x. induction n as [|n IH]; intros x Hx.
  { simpl in Hx. by replace x with 0 by lia. }
  rewrite decimal_S. simpl rev. rewrite number_app.
  assert (Hd : digit (digit_byte (x mod 10)) = Some (x mod 10))
    by (apply digit_digit_byte; dlia).
  destruct (x <? 10) eqn:H10.
  - simpl. rewrite Hd. f_equal. dlia.
  - rewrite IH.
    + simpl. rewrite Hd. f_equal. dlia.
    + rewrite Nat2Z.inj_succ, Z.pow_succ_r in Hx by lia. dlia.
Qed.

(** The digits written for a number start with no zero, unless it is
    zero. *)
Lemma decimal_head n x :
  0 < x < 10 ^ Z.of_nat n ->
  exists c ds,
    rev (decimal n x) = c :: ds /\
    is_digit c = true /\ c <> x30 /\ Forall (fun c => is_digit c = true) ds.
Proof.
  revert x. induction n as [|n IH]; intros x Hx; [simpl in Hx; lia|].
  rewrite decimal_S. simpl rev.
  assert (Hd : is_digit (digit_byte (x mod 10)) = true)
    by (rewrite is_digit_isDigit; apply isDigit_digit_byte).
  destruct (x <? 10) eqn:H10.
  - exists (digit_byte (x mod 10)), []. repeat split; [done| |constructor].
    intros Heq.
    assert (H : digit (digit_byte (x mod 10)) = Some (x mod 10))
      by (apply digit_digit_byte; dlia).
    rewrite Heq in H. simpl in H. injection H as H. dlia.
  - rewrite Nat2Z.inj_succ, Z.pow_succ_r in Hx by lia.
    destruct (IH (x / 10)) as (c & ds & -> & Hc & Hz & Hds); [dlia|].
    exists c, (ds ++ [digit_byte (x mod 10)]). repeat split; try done.
    apply Forall_app. split; [done|]. by constructor.
Qed.

Lemma FormatUint_shape x :
  0 <= x < 10 ^ 20 ->
  (x = 0 /\ FormatUint x = [x30]) \/
  exists c ds,
    FormatUint x = c :: ds /\
    is_digit c = true /\ c <> x30 /\ Forall (fun c => is_digit c = true) ds.
Proof.
  intros Hx. destruct (decide (x = 0)) as [->|Hne]; [by left|right].
  apply decimal_head. change (Z.of_nat 20) with 20. lia.
Qed.

Lemma scan_fraction_ends u : ends u -> scan_fraction u = Some ([], u).
Proof.
  destruct u as [|c u]; [done|]. intros (_ & Hp & He & HE). simpl.
  rewrite !bool_decide_false by done. done.
Qed.

Lemma scan_integer_FormatUint x u :
  0 <= x < 10 ^ 20 -> ends u ->
  scan_integer (FormatUint x ++ u) = Some (FormatUint x, u).
Proof.
  intros Hx Hu.
  destruct (FormatUint_shape x Hx) as [[_ ->]|(c & ds & -> & Hc & Hz & Hds)].
  - simpl. by rewrite scan_fraction_ends.
  - simpl. rewrite bool_decide_false, Hc by done.
    rewrite digits_app by (done || by apply ends_no_digit).
    rewrite scan_fraction_ends by done. simpl. by rewrite app_nil_r.
Qed.

Lemma FormatUint_head x :
  0 <= x < 10 ^ 20 ->
  exists c ds, FormatUint x = c :: ds /\ is_digit c = true.
Proof.
  intros Hx.
  destruct (FormatUint_shape x Hx) as [[_ ->]|(c & ds & -> & Hc & _)];
    by eexists _, _.
Qed.

Lemma scan_number_FormatInt x u :
  int_ok x -> ends u ->
  scan_number (FormatInt x ++ u) = Some (FormatInt x, u).
Proof.
  unfold int_ok. intros Hx Hu. unfold FormatInt.
  destruct (x <? 0) eqn:Hneg.
  - simpl. rewrite scan_integer_FormatUint by (done || lia). done.
  - destruct (FormatUint_head x) as (c & ds & Heq & Hc); [lia|].
    pose proof (scan_integer_FormatUint x u ltac:(lia) Hu) as H.
    rewrite Heq in *. unfold scan_number. simpl app. cbv iota.
    rewrite bool_decide_false; [done|]. by intros ->.
Qed.

Lemma number_head_FormatInt x : int_ok x -> number_head (FormatInt x).
Proof.
  unfold int_ok. intros Hx. unfold FormatInt. destruct (x <? 0) eqn:Hneg.
  - by right.
  - destruct (FormatUint_head x) as (c & ds & -> & Hc); [lia|]. by left.
Qed.

#[local] Arguments scan_number : simpl never.
#[local] Arguments scan_literal : simpl never.

(** A number of type [int] as written is the text of a value. *)
Lemma value_text_FormatInt x :
  int_ok x -> value_text (FormatInt x) (FormatInt x).
Proof.
  intros Hx. pose proof (number_head_FormatInt x Hx) as Hh.
  split; [by destruct (FormatInt x)|].
  intros m u Hm Hu.
  pose proof (scan_literal_number _ u Hh) as Hl.
  pose proof (scan_number_FormatInt x u Hx Hu) as Hn.
  destruct (FormatInt x) as [|c l]; [done|].
  destruct m as [|m]; [simpl in Hm; lia|].
  simpl in *. rewrite Hl, Hn.
  by destruct Hh as [Hc| ->]; [destruct c; try discriminate Hc|].
Qed.

Lemma ParseInt_FormatInt x : int_ok x -> ParseInt (FormatInt x) = Some x.
Proof.
  unfold int_ok. intros Hx. unfold FormatInt, ParseInt.
  destruct (x <? 0) eqn:Hneg.
  - rewrite bool_decide_true by done.
    destruct (FormatUint_head (- x)) as (c & ds & Heq & Hc); [lia|].
    pose proof (number_decimal 20 (- x)) as Hn.
    fold (FormatUint (- x)) in Hn. rewrite Heq in *.
    rewrite Hn by (change (Z.of_nat 20) with 20; lia).
    rewrite Z.opp_involutive.
    by replace ((- 2 ^ 63 <=? x) && (x <=? 2 ^ 63 - 1)) with true by lia.
  - destruct (FormatUint_head x) as (c & ds & Heq & Hc); [lia|].
    pose proof (number_decimal 20 x) as Hn.
    fold (FormatUint x) in Hn. rewrite Heq in *.
    rewrite bool_decide_false by (by intros ->).
    rewrite Hn by (change (Z.of_nat 20) with 20; lia).
    by replace ((- 2 ^ 63 <=? x) && (x <=? 2 ^ 63 - 1)) with true by lia.
Qed.

Lemma decode_int_number c r cur :
  is_digit c = true \/ c = x2d ->
  decode_int (c :: r) cur
  = match ParseInt (c :: r) with
    | Some n => (n, None)
    | None => (cur, type_error "int")
    end.
Proof.
  intros H. unfold decode_int, is_null.
  rewrite bool_decide_false by (by destruct H as [H| ->]; intros [= ->]).
  by destruct H as [H| ->]; [destruct c; try discriminate H|].
Qed.

(** A number of type [int] as written is decoded to itself. *)
Lemma decode_int_FormatInt x cur :
  int_ok x -> decode_int (FormatInt x) cur = (x, None).
Proof.
  intros Hx. pose proof (number_head_FormatInt x Hx) as Hh.
  pose proof (ParseInt_FormatInt x Hx) as Hp.
  destruct (FormatInt x) as [|c l]; [done|].
  by rewrite decode_int_number, Hp.
Qed.

Lemma ParseInt_ok s n : ParseInt s = Some n -> int_ok n.
Proof.
  unfold ParseInt, int_ok.
  destruct (match s with [] => _ | _ => _ end) as [neg ds].
  destruct ds; [done|]. destruct (number _ 0); [|done].
  destruct (_ && _) eqn:H; [|done]. intros [= <-]. lia.
Qed.

(** The decoder leaves a value of the type in a field of type [int]. *)
Lemma decode_int_ok v cur x e :
  decode_int v cur = (x, e) -> int_ok cur -> int_ok x.
Proof.
  unfold decode_int. destruct (is_null v); [by intros [= <- <-]|].
  destruct (ParseInt v) as [n|] eqn:Hn.
  - apply ParseInt_ok in Hn. intros H Hcur.
    destruct v as [|c v]; [by simplify_eq|].
    destruct c; by simplify_eq.
  - intros H Hcur. destruct v as [|c v]; [by simplify_eq|].
    destruct c; by simplify_eq.
Qed.

End Numbers.

(** ** Strings as text *)

Section Runes.

Import json.
Local Open Scope N_scope.

(** *** Bits as arithmetic *)

Lemma land_shiftl a b k : b < 2 ^ k -> N.land (N.shiftl a k) b = 0.
Proof.
  intros Hb. apply N.bits_inj. intros n. rewrite N.land_spec, N.bits_0.
  destruct (N.ltb_spec n k) as [Hn|Hn].
  - by rewrite N.shiftl_spec_low.
  - destruct (N.eq_dec b 0) as [->|Hb0].
    + by rewrite N.bits_0, andb_false_r.
    + rewrite (N.bits_above_log2 b n), andb_false_r; [done|].
      apply N.log2_lt_pow2; [lia|].
      eapply N.lt_le_trans; [done|]. by apply N.pow_le_mono_r.
Qed.

Lemma lor_shiftl a b k : b < 2 ^ k -> N.lor (N.shiftl a k) b = a * 2 ^ k + b.
Proof.
  intros Hb. rewrite <- N.shiftl_mul_pow2.
  pose proof (land_shiftl a b k Hb) as H0.
  by rewrite <- N.lxor_lor, <- N.add_nocarry_lxor.
Qed.

Lemma lor_high h a b k :
  h = a * 2 ^ k -> b < 2 ^ k -> N.lor h b = h + b.
Proof. intros -> Hb. by rewrite <- lor_shiftl, N.shiftl_mul_pow2. Qed.

Lemma land_low a k m : m = 2 ^ k - 1 -> N.land a m = a mod 2 ^ k.
Proof.
  intros ->. rewrite <- N.land_ones. f_equal. rewrite N.ones_equiv. lia.
Qed.

Lemma to_N_byte_of x : x < 256 -> Byte.to_N (byte_of x) = x.
Proof.
  intros H. unfold byte_of. destruct (Byte.of_N x) as [b|] eqn:Hb.
  - by apply Byte.to_of_N.
  - apply Byte.of_N_None_iff in Hb. lia.
Qed.

Lemma byte_of_to_N c : byte_of (Byte.to_N c) = c.
Proof. unfold byte_of. by rewrite Byte.of_to_N. Qed.

(** *** UTF-8 *)

Lemma land_mask a k m x :
  m = 2 ^ k - 1 -> a mod 2 ^ k = x -> N.land a m = x.
Proof. intros Hm <-. by apply land_low. Qed.

Lemma DecodeRune_2 c0 c1 t a b :
  Byte.to_N c0 = 192 + a -> Byte.to_N c1 = 128 + b ->
  2 <= a < 32 -> b < 64 ->
  DecodeRune (c0 :: c1 :: t) = (a * 64 + b, 2%nat).
Proof.
  intros H0 H1 Ha Hb. unfold DecodeRune, between, low6. rewrite H0, H1.
  nbool. cbn [andb].
  rewrite (land_mask (192 + a) 5 31 a) by (done || change (2 ^ 5) with 32; nlia).
  rewrite (land_mask (128 + b) 6 63 b) by (done || change (2 ^ 6) with 64; nlia).
  by rewrite lor_shiftl by done.
Qed.

Lemma DecodeRune_3 c0 c1 c2 t a b c :
  Byte.to_N c0 = 224 + a -> Byte.to_N c1 = 128 + b ->
  Byte.to_N c2 = 128 + c ->
  a < 16 -> b < 64 -> c < 64 ->
  (a = 0 -> 32 <= b) -> (a = 13 -> b < 32) ->
  DecodeRune (c0 :: c1 :: c2 :: t) = (a * 4096 + b * 64 + c, 3%nat).
Proof.
  intros H0 H1 H2 Ha Hb Hc Hlo Hhi. unfold DecodeRune, between, low6.
  rewrite H0, H1, H2.
  destruct (N.eqb_spec (224 + a) 224) as [E0|E0];
    destruct (N.eqb_spec (224 + a) 237) as [E1|E1]; try lia.
  all: nbool; cbn [andb].
  all: rewrite (land_mask (224 + a) 4 15 a)
         by (done || change (2 ^ 4) with 16; nlia).
  all: rewrite (land_mask (128 + b) 6 63 b)
         by (done || change (2 ^ 6) with 64; nlia).
  all: rewrite (land_mask (128 + c) 6 63 c)
         by (done || change (2 ^ 6) with 64; nlia).
  all: rewrite (lor_shiftl b c 6) by done.
  all: rewrite lor_shiftl
         by (change (2 ^ 12) with 4096; change (2 ^ 6) with 64; lia).
  all: f_equal; change (2 ^ 12) with 4096; change (2 ^ 6) with 64; lia.
Qed.

Lemma DecodeRune_4 c0 c1 c2 c3 t a b c d :
  Byte.to_N c0 = 240 + a -> Byte.to_N c1 = 128 + b ->
  Byte.to_N c2 = 128 + c -> Byte.to_N c3 = 128 + d ->
  a <= 4 -> b < 64 -> c < 64 -> d < 64 ->
  (a = 0 -> 16 <= b) -> (a = 4 -> b < 16) ->
  DecodeRune (c0 :: c1 :: c2 :: c3 :: t)
  = (a * 262144 + b * 4096 + c * 64 + d, 4%nat).
Proof.
  intros H0 H1 H2 H3 Ha Hb Hc Hd Hlo Hhi. unfold DecodeRune, between, low6.
  rewrite H0, H1, H2, H3.
  destruct (N.eqb_spec (240 + a) 240) as [E0|E0];
    destruct (N.eqb_spec (240 + a) 244) as [E1|E1]; try lia.
  all: nbool; cbn [andb].
  all: rewrite (land_mask (240 + a) 3 7 a)
         by (done || change (2 ^ 3) with 8; nlia).
  all: rewrite (land_mask (128 + b) 6 63 b)
         by (done || change (2 ^ 6) with 64; nlia).
  all: rewrite (land_mask (128 + c) 6 63 c)
         by (done || change (2 ^ 6) with 64; nlia).
  all: rewrite (land_mask (128 + d) 6 63 d)
         by (done || change (2 ^ 6) with 64; nlia).
  all: rewrite (lor_shiftl c d 6) by done.
  all: rewrite (lor_shiftl b _ 12)
         by (change (2 ^ 12) with 4096; change (2 ^ 6) with 64; lia).
  all: rewrite lor_shiftl
         by (change (2 ^ 18) with 262144; change (2 ^ 12) with 4096;
             change (2 ^ 6) with 64; lia).
  all: f_equal; change (2 ^ 18) with 262144; change (2 ^ 12) with 4096;
    change (2 ^ 6) with 64; lia.
Qed.

Lemma valid_rune_cases r :
  valid_rune r = true -> r < 55296 \/ 57344 <= r <= 1114111.
Proof.
  unfold valid_rune. intros [H|[H1 H2]%andb_prop]%orb_prop.
  - left. by apply N.ltb_lt.
  - right. split; by apply N.leb_le.
Qed.

Lemma to_N_lead h a x k :
  h = a * 2 ^ k -> x < 2 ^ k -> h + x < 256 ->
  Byte.to_N (byte_of (N.lor h x)) = h + x.
Proof. intros Hh Hx Hb. by rewrite (lor_high h a x k), to_N_byte_of. Qed.

Lemma to_N_cont x :
  Byte.to_N (byte_of (N.lor 128 (N.land x 63))) = 128 + x mod 64.
Proof.
  rewrite (land_mask x 6 63 (x mod 64)) by done.
  apply (to_N_lead 128 2 _ 6); [done|change (2 ^ 6) with 64; nlia..].
Qed.

Lemma DecodeRune_EncodeRune r t :
  valid_rune r = true -> 128 <= r ->
  DecodeRune (EncodeRune r ++ t) = (r, length (EncodeRune r)).
Proof.
  intros Hv%valid_rune_cases Hr. unfold EncodeRune.
  destruct (N.ltb_spec r 2048) as [H2|H2];
    [|destruct (N.ltb_spec r 65536) as [H3|H3]].
  - nbool. cbn [app length].
    rewrite (DecodeRune_2 _ _ _ (r / 64) (r mod 64)); [f_equal; nlia|..].
    + rewrite N.shiftr_div_pow2.
      apply (to_N_lead 192 3 _ 6); [done|change (2 ^ 6) with 64; nlia..].
    + apply to_N_cont.
    + nlia.
    + nlia.
  - assert ((55296 <=? r) && (r <=? 57343) = false) as ->.
    { apply andb_false_iff.
      destruct Hv; [left|right]; apply N.leb_gt; lia. }
    nbool. cbn [orb andb app length].
    rewrite (DecodeRune_3 _ _ _ _ (r / 4096) (r / 64 mod 64) (r mod 64));
      [f_equal; nlia|..].
    + rewrite N.shiftr_div_pow2.
      apply (to_N_lead 224 14 _ 4);
        [done|change (2 ^ 4) with 16; change (2 ^ 12) with 4096; nlia..].
    + rewrite N.shiftr_div_pow2. apply to_N_cont.
    + apply to_N_cont.
    + nlia.
    + nlia.
    + nlia.
    + nlia.
    + nlia.
  - nbool. cbn [orb andb app length].
    rewrite (DecodeRune_4 _ _ _ _ _ (r / 262144) (r / 4096 mod 64)
               (r / 64 mod 64) (r mod 64)); [f_equal; nlia|..].
    + rewrite N.shiftr_div_pow2.
      apply (to_N_lead 240 30 _ 3);
        [done|change (2 ^ 3) with 8; change (2 ^ 18) with 262144; nlia..].
    + rewrite N.shiftr_div_pow2. apply to_N_cont.
    + rewrite N.shiftr_div_pow2. apply to_N_cont.
    + apply to_N_cont.
    + nlia.
    + nlia.
    + nlia.
    + nlia.
    + nlia.
    + nlia.
Qed.

Lemma EncodeRune_ascii r : r < 128 -> EncodeRune r = [byte_of r].
Proof. intros H. unfold EncodeRune. by nbool. Qed.

Lemma EncodeRune_invalid r :
  valid_rune r = false -> EncodeRune r = EncodeRune RuneError.
Proof.
  unfold valid_rune. intros [H1 H2]%orb_false_iff.
  apply N.ltb_ge in H1. unfold EncodeRune. nbool. cbn [andb orb].
  apply andb_false_iff in H2 as [H2|H2].
  - apply N.leb_gt in H2. by nbool.
  - apply N.leb_gt in H2. nbool. by rewrite orb_true_r.
Qed.

(** Every encoding is that of a rune that has one of its own. *)
Lemma EncodeRune_valid r :
  exists r', valid_rune r' = true /\ EncodeRune r = EncodeRune r'.
Proof.
  destruct (valid_rune r) eqn:H; [by exists r|].
  exists RuneError. split; [done|]. by apply EncodeRune_invalid.
Qed.

Lemma high_byte_of x : 128 <= x < 256 -> high (byte_of x).
Proof. intros H. unfold high. rewrite to_N_byte_of; lia. Qed.

Lemma EncodeRune_high r :
  valid_rune r = true -> 128 <= r ->
  exists c l,
    EncodeRune r = c :: l /\ Forall high (c :: l) /\
    (length (c :: l) = 2 \/ length (c :: l) = 3 \/ length (c :: l) = 4)%nat.
Proof.
  intros Hv%valid_rune_cases Hr. unfold EncodeRune.
  assert (Hc : forall x, high (byte_of (N.lor 128 (N.land x 63)))).
  { intros x. unfold high. rewrite to_N_cont. nlia. }
  destruct (N.ltb_spec r 2048) as [H2|H2];
    [|destruct (N.ltb_spec r 65536) as [H3|H3]].
  - nbool. eexists _, _. split; [done|]. split; [|auto].
    repeat (apply List.Forall_cons; [|]); try apply Hc; [|constructor].
    unfold high. rewrite N.shiftr_div_pow2.
    rewrite (to_N_lead 192 3 _ 6); [|done|change (2 ^ 6) with 64; nlia..].
    apply N.le_trans with 192; [done|apply N.le_add_r].
  - assert ((55296 <=? r) && (r <=? 57343) = false) as ->.
    { apply andb_false_iff.
      destruct Hv; [left|right]; apply N.leb_gt; lia. }
    nbool. cbn [orb]. eexists _, _. split; [done|]. split; [|auto].
    repeat (apply List.Forall_cons; [|]); try apply Hc; [|constructor].
    unfold high. rewrite N.shiftr_div_pow2.
    rewrite (to_N_lead 224 14 _ 4);
      [|done|change (2 ^ 4) with 16; change (2 ^ 12) with 4096; nlia..].
    apply N.le_trans with 224; [done|apply N.le_add_r].
  - nbool. cbn [orb andb]. eexists _, _. split; [done|]. split; [|auto].
    repeat (apply List.Forall_cons; [|]); try apply Hc; [|constructor].
    unfold high. rewrite N.shiftr_div_pow2.
    rewrite (to_N_lead 240 30 _ 3);
      [|done|change (2 ^ 3) with 8; change (2 ^ 18) with 262144; nlia..].
    apply N.le_trans with 240; [done|apply N.le_add_r].
Qed.

(** *** Strings *)

Lemma utf8_nil : utf8 [].
Proof. by exists []. Qed.

Lemma utf8_rune r s : utf8 s -> utf8 (EncodeRune r ++ s).
Proof.
  intros (rs & Hrs & ->). destruct (EncodeRune_valid r) as (r' & Hr' & ->).
  exists (r' :: rs). split; [by constructor|done].
Qed.

Lemma utf8_ascii c s : Byte.to_N c < 128 -> utf8 s -> utf8 (c :: s).
Proof.
  intros Hc Hs. apply (utf8_rune (Byte.to_N c)) in Hs.
  by rewrite EncodeRune_ascii, byte_of_to_N in Hs.
Qed.

Lemma utf8_unescape e s : utf8 s -> utf8 (unescape e ++ s).
Proof.
  intros Hs. destruct e; try done; simpl; by apply utf8_ascii.
Qed.

#[local] Opaque EncodeRune DecodeRune unescape.

(** What [unquote] makes is a sequence of encoded runes. *)
Lemma utf8_unquote_steps n s : utf8 (unquote_steps n s).
Proof.
  revert s. induction n as [|n IH]; intros s; [apply utf8_nil|].
  simpl. destruct s as [|c r]; [apply utf8_nil|].
  case_bool_decide.
  { destruct r as [|e r1]; [apply utf8_nil|].
    case_bool_decide; [|apply utf8_unescape, IH].
    destruct r1 as [|h1 [|h2 [|h3 [|h4 r2]]]]; try apply utf8_nil.
    destruct (IsSurrogate _); [|apply utf8_rune, IH].
    destruct r2 as [|b [|u [|g1 [|g2 [|g3 [|g4 r3]]]]]];
      try apply utf8_rune, IH.
    destruct (_ && _); [|apply utf8_rune, IH].
    destruct (utf16_DecodeRune _ _); apply utf8_rune, IH. }
  destruct (N.ltb_spec (Byte.to_N c) 128); [by apply utf8_ascii|].
  destruct (DecodeRune (c :: r)) as [rr size]. apply utf8_rune, IH.
Qed.

#[local] Transparent EncodeRune DecodeRune unescape.

Lemma utf8_unquote s : utf8 (unquote s).
Proof. apply utf8_unquote_steps. Qed.

Lemma more_more {A} p q (x : option (list byte * A)) :
  more p (more q x) = more (p ++ q) x.
Proof. destruct x as [[l t]|]; simpl; [|done]. by rewrite app_assoc. Qed.

Lemma high_quote c : high c -> c <> x22 /\ c <> x5c.
Proof. unfold high. intros H. split; intros ->; simpl in H; lia. Qed.

Lemma scan_string_high l w :
  Forall high l -> scan_string (l ++ w) = more l (scan_string w).
Proof.
  induction 1 as [|c l Hc _ IH]; simpl; [by destruct (scan_string w) as [[]|]|].
  destruct (high_quote c Hc) as [H1 H2].
  rewrite !bool_decide_false by done.
  unfold high in Hc. nbool. by rewrite IH, more_more.
Qed.

Lemma ascii_token c :
  Byte.to_N c < 128 ->
  let q := if htmlSafe c then [c] else escape c in
  (forall n w, unquote_steps (S n) (q ++ w) = c :: unquote_steps n w) /\
  (forall w, scan_string (q ++ w) = more q (scan_string w)).
Proof.
  intros H.
  destruct c; try (exfalso; vm_compute in H; discriminate H);
    (split; [intros n w|intros w]; reflexivity).
Qed.

Lemma after_rune_app e w :
  (length e = 2 \/ length e = 3 \/ length e = 4)%nat ->
  after_rune (length e) (e ++ w) = w /\ take (length e) (e ++ w) = e.
Proof.
  intros H. split; [|by rewrite take_app_length].
  pose proof (drop_app_length e w) as Hd.
  by destruct H as [H|[H|H]]; rewrite H in *.
Qed.

Lemma quote_steps_high n c r :
  high c ->
  quote_steps (S n) (c :: r)
  = let (rr, size) := DecodeRune (c :: r) in
    if (rr =? RuneError) && (size =? 1)%nat
    then [x5c; x75; x66; x66; x66; x64] ++ quote_steps n r
    else if (rr =? 8232) || (rr =? 8233)
    then [x5c; x75; x32; x30; x32; hex_digit (N.land rr 15)]
         ++ quote_steps n (after_rune size (c :: r))
    else take size (c :: r) ++ quote_steps n (after_rune size (c :: r)).
Proof.
  unfold high. intros Hc.
  change (quote_steps (S n) (c :: r))
    with (if Byte.to_N c <? 128
          then (if htmlSafe c then [c] else escape c) ++ quote_steps n r
          else
            let (rr, size) := DecodeRune (c :: r) in
            if (rr =? RuneError) && (size =? 1)%nat
            then [x5c; x75; x66; x66; x66; x64] ++ quote_steps n r
            else if (rr =? 8232) || (rr =? 8233)
            then [x5c; x75; x32; x30; x32; hex_digit (N.land rr 15)]
                 ++ quote_steps n (after_rune size (c :: r))
            else take size (c :: r)
                 ++ quote_steps n (after_rune size (c :: r))).
  by nbool.
Qed.

Lemma quote_steps_ascii n c r :
  Byte.to_N c < 128 ->
  quote_steps (S n) (c :: r)
  = (if htmlSafe c then [c] else escape c) ++ quote_steps n r.
Proof.
  intros Hc.
  change (quote_steps (S n) (c :: r))
    with (if Byte.to_N c <? 128
          then (if htmlSafe c then [c] else escape c) ++ quote_steps n r
          else
            let (rr, size) := DecodeRune (c :: r) in
            if (rr =? RuneError) && (size =? 1)%nat
            then [x5c; x75; x66; x66; x66; x64] ++ quote_steps n r
            else if (rr =? 8232) || (rr =? 8233)
            then [x5c; x75; x32; x30; x32; hex_digit (N.land rr 15)]
                 ++ quote_steps n (after_rune size (c :: r))
            else take size (c :: r)
                 ++ quote_steps n (after_rune size (c :: r))).
  by nbool.
Qed.

Lemma unquote_steps_high n c r :
  high c ->
  unquote_steps (S n) (c :: r)
  = let (rr, size) := DecodeRune (c :: r) in
    EncodeRune rr ++ unquote_steps n (after_rune size (c :: r)).
Proof.
  intros Hc. destruct (high_quote c Hc) as [_ Hb]. unfold high in Hc.
  change (unquote_steps (S n) (c :: r))
    with (if bool_decide (c = x5c)
          then unquote_steps (S n) (x5c :: r)
          else if Byte.to_N c <? 128 then c :: unquote_steps n r
          else
            let (rr, size) := DecodeRune (c :: r) in
            EncodeRune rr ++ unquote_steps n (after_rune size (c :: r))).
  rewrite bool_decide_false by done. by nbool.
Qed.

Lemma rune_token r :
  valid_rune r = true -> 128 <= r ->
  (forall n w, quote_steps (S n) (EncodeRune r ++ w)
               = quoted_rune r ++ quote_steps n w) /\
  (forall n w, unquote_steps (S n) (quoted_rune r ++ w)
               = EncodeRune r ++ unquote_steps n w) /\
  (forall w, scan_string (quoted_rune r ++ w)
             = more (quoted_rune r) (scan_string w)).
Proof.
  intros Hv Hr.
  destruct (EncodeRune_high r Hv Hr) as (c & l & He & Hh & Hlen).
  assert (Hc : high c) by by inversion Hh.
  assert (Hdec : forall w, DecodeRune (c :: l ++ w) = (r, length (c :: l))).
  { intros w. change (c :: l ++ w) with ((c :: l) ++ w). rewrite <- He.
    apply DecodeRune_EncodeRune; done. }
  assert (Hone : (r =? RuneError) && (length (c :: l) =? 1)%nat = false).
  { apply andb_false_iff. right. apply Nat.eqb_neq. lia. }
  unfold quoted_rune. nbool.
  destruct ((r =? 8232) || (r =? 8233)) eqn:Hsep.
  - split.
    { intros n w. rewrite He. cbn [app].
      rewrite quote_steps_high, Hdec, Hone, Hsep by done.
      destruct (after_rune_app (c :: l) w Hlen) as [Ha _].
      cbn [app] in Ha. by rewrite Ha. }
    assert (r = 8232 \/ r = 8233) as [-> | ->]
      by (apply orb_prop in Hsep as [?%N.eqb_eq|?%N.eqb_eq]; auto).
    + split; intros; reflexivity.
    + split; intros; reflexivity.
  - rewrite He. split; [|split].
    + intros n w. cbn [app].
      rewrite quote_steps_high, Hdec, Hone, Hsep by done.
      destruct (after_rune_app (c :: l) w Hlen) as [Ha Ht].
      cbn [app] in Ha, Ht. by rewrite Ha, Ht.
    + intros n w. cbn [app].
      rewrite unquote_steps_high, Hdec by done.
      destruct (after_rune_app (c :: l) w Hlen) as [Ha _].
      cbn [app] in Ha. by rewrite Ha, He.
    + intros w. by apply scan_string_high.
Qed.

Lemma token r :
  valid_rune r = true ->
  (forall n w, quote_steps (S n) (EncodeRune r ++ w)
               = quoted_rune r ++ quote_steps n w) /\
  (forall n w, unquote_steps (S n) (quoted_rune r ++ w)
               = EncodeRune r ++ unquote_steps n w) /\
  (forall w, scan_string (quoted_rune r ++ w)
             = more (quoted_rune r) (scan_string w)).
Proof.
  intros Hv. destruct (N.ltb_spec r 128) as [Hr|Hr]; [|by apply rune_token].
  assert (Hc : Byte.to_N (byte_of r) < 128) by (rewrite to_N_byte_of; lia).
  destruct (ascii_token _ Hc) as [Hu Hs].
  unfold quoted_rune. nbool. rewrite EncodeRune_ascii by done.
  split; [|by split]. intros n w. by rewrite <- quote_steps_ascii.
Qed.

Lemma EncodeRune_length r : (1 <= length (EncodeRune r))%nat.
Proof.
  unfold EncodeRune.
  repeat match goal with |- context [if ?b then _ else _] => destruct b end;
    simpl; lia.
Qed.

Lemma quoted_rune_length r : (1 <= length (quoted_rune r))%nat.
Proof.
  unfold quoted_rune, escape.
  pose proof (EncodeRune_length r).
  repeat match goal with |- context [if ?b then _ else _] => destruct b end;
    simpl; lia.
Qed.

Lemma length_runes (f : N -> list byte) rs :
  (forall r, (1 <= length (f r))%nat) ->
  (length rs <= length (flat_map f rs))%nat.
Proof.
  intros Hf. induction rs as [|r rs IH]; simpl; [done|].
  rewrite length_app. specialize (Hf r). lia.
Qed.

Lemma quote_steps_runes rs n :
  Forall (fun r => valid_rune r = true) rs ->
  (length rs <= n)%nat ->
  quote_steps n (flat_map EncodeRune rs) = flat_map quoted_rune rs.
Proof.
  intros Hrs. revert n. induction Hrs as [|r l Hr _ IH]; intros n Hn.
  - by destruct n.
  - destruct n as [|n]; [simpl in Hn; lia|]. simpl flat_map.
    destruct (token r Hr) as (-> & _). rewrite IH; [done|]. simpl in Hn. lia.
Qed.

Lemma unquote_steps_runes rs n :
  Forall (fun r => valid_rune r = true) rs ->
  (length rs <= n)%nat ->
  unquote_steps n (flat_map quoted_rune rs) = flat_map EncodeRune rs.
Proof.
  intros Hrs. revert n. induction Hrs as [|r l Hr _ IH]; intros n Hn.
  - by destruct n.
  - destruct n as [|n]; [simpl in Hn; lia|]. simpl flat_map.
    destruct (token r Hr) as (_ & -> & _). rewrite IH; [done|].
    simpl in Hn. lia.
Qed.

Lemma scan_string_runes rs u :
  Forall (fun r => valid_rune r = true) rs ->
  scan_string (flat_map quoted_rune rs ++ x22 :: u)
  = Some (flat_map quoted_rune rs, u).
Proof.
  induction 1 as [|r l Hr _ IH]; [done|].
  simpl flat_map. rewrite <- app_assoc.
  destruct (token r Hr) as (_ & _ & ->). by rewrite IH.
Qed.

(** A string of encoded runes as written between quotes: it is scanned
    as a string literal, and [unquote] finds the string again. *)
Lemma quote_utf8 s :
  utf8 s ->
  exists q,
    quote s = x22 :: q ++ [x22] /\
    (forall u, scan_string (q ++ x22 :: u) = Some (q, u)) /\
    unquote q = s.
Proof.
  intros (rs & Hrs & ->). exists (flat_map quoted_rune rs).
  split; [|split].
  - unfold quote. rewrite (quote_steps_runes rs _ Hrs); [done|].
    apply length_runes, EncodeRune_length.
  - intros u. by apply scan_string_runes.
  - unfold unquote. apply (unquote_steps_runes rs _ Hrs).
    apply length_runes, quoted_rune_length.
Qed.

#[local] Arguments scan_string : simpl never.
#[local] Arguments scan_literal : simpl never.
#[local] Arguments scan_number : simpl never.

Lemma value_text_string q :
  (forall u, scan_string (q ++ x22 :: u) = Some (q, u)) ->
  value_text (x22 :: q ++ [x22]) (x22 :: escapeHTML q ++ [x22]).
Proof.
  intros Hq. split; [done|]. intros m u Hm _.
  destruct m as [|m]; [simpl in Hm; lia|].
  simpl. rewrite <- app_assoc. simpl. by rewrite Hq.
Qed.

Lemma value_text_quote s : utf8 s -> exists k, value_text (quote s) k.
Proof.
  intros (q & -> & Hq & _)%quote_utf8. eexists. by apply value_text_string.
Qed.

Lemma decode_string_literal q cur :
  (forall u, scan_string (q ++ x22 :: u) = Some (q, u)) ->
  decode_string (x22 :: q ++ [x22]) cur
  = (string_of_list_byte (unquote q), None).
Proof.
  intros Hq. unfold decode_string, is_null.
  rewrite bool_decide_false by done. by rewrite Hq.
Qed.

(** A string the decoder has made is decoded to itself when written. *)
Lemma decode_string_quote s cur :
  utf8 (list_byte_of_string s) -> decode_string (encode_string s) cur = (s, None).
Proof.
  intros (q & Hs & Hq & Hu)%quote_utf8. unfold encode_string.
  rewrite Hs, decode_string_literal, Hu by done.
  by rewrite string_of_list_byte_of_string.
Qed.

(** The decoder leaves encoded runes in a field of type [string]. *)
Lemma decode_string_utf8 v cur x e :
  decode_string v cur = (x, e) ->
  utf8 (list_byte_of_string cur) -> utf8 (list_byte_of_string x).
Proof.
  unfold decode_string. destruct (is_null v); [by intros [= <- <-]|].
  destruct v as [|c r]; [by intros [= <- <-]|].
  destruct (scan_string r) as [[inside rest]|] eqn:Hs.
  - intros H Hcur.
    assert (x = cur \/ x = string_of_list_byte (unquote inside)) as [-> | ->]
      by (destruct c; simplify_eq; auto); [done|].
    rewrite list_byte_of_string_of_list_byte. apply utf8_unquote.
  - intros H Hcur.
    assert (x = cur) as -> by (destruct c; by simplify_eq). done.
Qed.

End Runes.

(** ** Compaction *)

Section Compaction.

Import json.

(** *** What [compact] keeps is a value again *)

Lemma inside_nil : inside [].
Proof. by intros u. Qed.

Lemma inside_more p b :
  (forall w, scan_string (p ++ w) = more p (scan_string w)) ->
  inside b -> inside (p ++ b).
Proof. intros Hp Hb u. by rewrite <- app_assoc, Hp, Hb. Qed.

Lemma more_inv {A} p (x : option (list byte * A)) b u :
  more p x = Some (p ++ b, u) -> x = Some (b, u).
Proof.
  destruct x as [[l t]|]; simpl; [|done]. intros [= H ->].
  by apply app_inv_head in H as ->.
Qed.

Lemma escapeHTML_inert c r :
  inert c = true -> escapeHTML (c :: r) = c :: escapeHTML r.
Proof.
  unfold inert. intros H. simpl.
  repeat (case_bool_decide; [by rewrite ?andb_false_r in H|]).
  by destruct r as [|? [|? ?]].
Qed.

Lemma is_hex_inert c : is_hex c = true -> inert c = true.
Proof. destruct c; try discriminate; done. Qed.

Lemma is_escape_inert c : is_escape c = true -> inert c = true.
Proof. destruct c; try discriminate; done. Qed.

#[local] Opaque escapeHTML.

(** What [compact] makes of the inside of a string literal is the inside
    of a string literal. *)
Lemma inside_escapeHTML b : inside b -> inside (escapeHTML b).
Proof.
  induction b as [b IH] using (induction_ltof1 _ (@length _)).
  unfold ltof in IH. intros Hb.
  destruct b as [|c r]; [done|].
  pose proof (Hb []) as H0. simpl in H0.
  case_bool_decide as Hq; [done|].
  case_bool_decide as Hs.
  - subst c. destruct r as [|e r1]; [done|]. simpl in H0.
    case_bool_decide as Hu.
    + subst e.
      destruct r1 as [|h1 [|h2 [|h3 [|h4 r2]]]]; simpl in H0;
        try (by rewrite ?andb_false_r in H0).
      destruct (is_hex h1 && is_hex h2 && is_hex h3 && is_hex h4) eqn:Hh;
        [|done].
      assert (Hr2 : inside r2).
      { intros u. specialize (Hb u). simpl in Hb. rewrite Hh in Hb.
        by apply (more_inv [x5c; x75; h1; h2; h3; h4]) in Hb. }
      apply andb_prop in Hh as [Hh H4]. apply andb_prop in Hh as [Hh H3].
      apply andb_prop in Hh as [H1 H2].
      rewrite !escapeHTML_inert by (done || by apply is_hex_inert).
      apply (inside_more [x5c; x75; h1; h2; h3; h4]).
      * intros w. simpl. by rewrite H1, H2, H3, H4.
      * apply IH; [simpl; lia|done].
    + destruct (is_escape e) eqn:He; [|done].
      assert (Hr1 : inside r1).
      { intros u. specialize (Hb u). simpl in Hb.
        rewrite bool_decide_false, He in Hb by done.
        by apply (more_inv [x5c; e]) in Hb. }
      rewrite !escapeHTML_inert by (done || by apply is_escape_inert).
      apply (inside_more [x5c; e]).
      * intros w. simpl. by rewrite bool_decide_false, He.
      * apply IH; [simpl; lia|done].
  - destruct (Byte.to_N c <? 32)%N eqn:Hc; [done|].
    assert (Hplain : forall w, scan_string (c :: w) = more [c] (scan_string w)).
    { intros w. simpl. rewrite !bool_decide_false by done. by rewrite Hc. }
    assert (Hr : inside r).
    { intros u. specialize (Hb u). simpl app in Hb. rewrite Hplain in Hb.
      by apply (more_inv [c]) in Hb. }
    destruct (inert c) eqn:Hi.
    { rewrite escapeHTML_inert by done. apply (inside_more [c]); [done|].
      apply IH; [simpl; lia|done]. }
    unfold inert in Hi. with_strategy transparent [escapeHTML] simpl.
    case_bool_decide as H1.
    { apply (inside_more [x5c; x75; x30; x30; x33; x63]); [done|].
      apply IH; [simpl; lia|done]. }
    case_bool_decide as H2.
    { apply (inside_more [x5c; x75; x30; x30; x33; x65]); [done|].
      apply IH; [simpl; lia|done]. }
    case_bool_decide as H3.
    { apply (inside_more [x5c; x75; x30; x30; x32; x36]); [done|].
      apply IH; [simpl; lia|done]. }
    case_bool_decide as H4; [|done]. clear Hi.
    assert (Hkeep : inside (c :: escapeHTML r)).
    { apply (inside_more [c]); [done|]. apply IH; [simpl; lia|done]. }
    destruct r as [|c1 [|c2 r2]]; [exact Hkeep..|]. simpl andb.
    assert (Hr2 : c1 = x80 -> c2 = xa8 \/ c2 = xa9 -> inside r2).
    { intros -> Hc2 u. specialize (Hr u).
      by destruct Hc2 as [-> | ->]; simpl in Hr;
        apply (more_inv [x80]), (more_inv [_]) in Hr. }
    case_bool_decide as Hc1; simpl andb; [|exact Hkeep].
    case_bool_decide as Hc2.
    { apply (inside_more [x5c; x75; x32; x30; x32; x38]); [done|].
      apply IH; [simpl; lia|auto]. }
    case_bool_decide as Hc3; [|exact Hkeep].
    apply (inside_more [x5c; x75; x32; x30; x32; x39]); [done|].
    apply IH; [simpl; lia|auto].
Qed.

#[local] Arguments scan_number : simpl never.
#[local] Arguments scan_literal : simpl never.
#[local] Arguments scan_string : simpl never.
#[local] Arguments spaces : simpl never.

Lemma scan_value_close n s : scan_value n (x5d :: s) = None.
Proof.
  destruct n as [|n]; [done|]. simpl.
  unfold scan_literal, scan_number, strip. simpl.
  by repeat (case_bool_decide; [done|]).
Qed.

Lemma value_text_head v k u : value_text v k -> element_head (v ++ u).
Proof.
  intros Hv. pose proof (value_text_no_space v k u Hv) as Hn.
  destruct Hv as [Hne Hv]. destruct v as [|c v]; [done|].
  split; [done|]. intros ->.
  specialize (Hv _ [] (Nat.le_refl _) I).
  change ((x5d :: v) ++ []) with (x5d :: (v ++ [])) in Hv.
  by rewrite scan_value_close in Hv.
Qed.

Lemma value_kept_step n :
  members_kept n -> elements_kept n -> value_kept (S n).
Proof.
  intros IHm IHe s t k r H.
  pose proof (scan_value_text _ _ _ _ _ H) as [_ Ht].
  simpl in H. destruct s as [|c s1]; [done|].
  case_bool_decide as Hobj.
  { subst c. destruct (spaces s1) as [w r1] eqn:Hw.
    destruct r1 as [|c1 r2]; [done|].
    case_bool_decide as Hclose.
    - assert (k = [x7b; x7d]) as -> by by simplify_eq.
      exists [x7b; x7d]. split; [done|].
      intros [|m] u Hm _; [simpl in Hm; lia|]. simpl.
      by rewrite ?spaces_no_space_id.
    - destruct (scan_members n (c1 :: r2)) as [[[t' k1] rest]|] eqn:Hs;
        [|done].
      apply IHm in Hs as (k' & k0 & -> & Hrun).
      assert (k = x7b :: x22 :: k0) as -> by by simplify_eq.
      exists (x7b :: k'). split; [done|].
      intros [|m] u Hm _; [simpl in Hm; lia|]. simpl.
      rewrite ?spaces_no_space_id by done.
      change (x22 :: k0 ++ u) with ((x22 :: k0) ++ u).
      rewrite Hrun; [done|]. simpl in Hm. simpl. lia. }
  case_bool_decide as Harr.
  { subst c. destruct (spaces s1) as [w r1] eqn:Hw.
    destruct r1 as [|c1 r2]; [done|].
    case_bool_decide as Hclose.
    - assert (k = [x5b; x5d]) as -> by by simplify_eq.
      exists [x5b; x5d]. split; [done|].
      intros [|m] u Hm _; [simpl in Hm; lia|]. simpl.
      by rewrite ?spaces_no_space_id.
    - destruct (scan_elements n (c1 :: r2)) as [[[t' k1] rest]|] eqn:Hs;
        [|done].
      apply IHe in Hs as (k' & Hhead & Hrun).
      assert (k = x5b :: k1) as -> by by simplify_eq.
      exists (x5b :: k'). split; [done|].
      intros [|m] u Hm _; [simpl in Hm; lia|]. simpl.
      specialize (Hhead u). destruct (k1 ++ u) as [|c' ku] eqn:Hku; [done|].
      destruct Hhead as [Hsp Hnc].
      rewrite spaces_no_space_id by done.
      rewrite bool_decide_false by done.
      rewrite <- Hku, Hrun; [done|]. simpl in Hm. lia. }
  case_bool_decide as Hstr.
  { subst c. destruct (scan_string s1) as [[lit rest]|] eqn:Hs; [|done].
    apply scan_string_frame in Hs as [_ Hs].
    assert (k = x22 :: escapeHTML lit ++ [x22]) as -> by by simplify_eq.
    eexists. apply value_text_string. by apply inside_escapeHTML. }
  assert (t = k) as ->; [|by exists k].
  destruct (scan_literal (c :: s1)) as [[l rest]|]; [by simplify_eq|].
  destruct (scan_number (c :: s1)) as [[l rest]|]; by simplify_eq.
Qed.

Lemma ends_comma u : ends (x2c :: u).
Proof. done. Qed.

Lemma ends_brace u : ends (x7d :: u).
Proof. done. Qed.

Lemma ends_bracket u : ends (x5d :: u).
Proof. done. Qed.

Lemma members_kept_step n :
  value_kept n -> members_kept n -> members_kept (S n).
Proof.
  intros IHv IHm s t k r H. simpl in H.
  destruct s as [|c s1]; [done|].
  case_bool_decide as Hq; [subst c|done].
  destruct (scan_string s1) as [[key r1]|] eqn:Hkey; [|done].
  destruct (spaces r1) as [w1 r2] eqn:Hw1.
  destruct r2 as [|c2 r3]; [done|].
  case_bool_decide as Hcolon; [subst c2|done].
  destruct (spaces r3) as [w2 r4] eqn:Hw2.
  destruct (scan_value n r4) as [[[tv kv] r5]|] eqn:Hv; [|done].
  destruct (spaces r5) as [w3 r6] eqn:Hw3.
  destruct r6 as [|c6 r7]; [done|].
  apply scan_string_frame in Hkey as [_ Hkey].
  apply inside_escapeHTML in Hkey.
  apply IHv in Hv as [kv' Hkv].
  pose proof (fun u => value_text_no_space kv kv' u Hkv) as Hnv.
  destruct Hkv as [_ Hkv].
  case_bool_decide as Hcomma; [subst c6|].
  - destruct (spaces r7) as [w4 r8] eqn:Hw4.
    destruct (scan_members n r8) as [[[t' k1] rest]|] eqn:Hm; [|done].
    apply IHm in Hm as (k' & k0 & -> & Hrun).
    assert (k = x22 :: escapeHTML key ++ [x22; x3a] ++ kv ++ [x2c]
                ++ x22 :: k0) as ->.
    { injection H as <- <- <-. by norm. }
    clear H.
    exists ((x22 :: escapeHTML (escapeHTML key) ++ [x22; x3a] ++ kv')
            ++ [x2c] ++ k'), (escapeHTML key ++ [x22; x3a] ++ kv ++ [x2c]
                              ++ x22 :: k0).
    split; [done|].
    intros [|m] u Hlen; [simpl in Hlen; lia|].
    norm. rewrite ?bool_decide_true by done. rewrite Hkey.
    rewrite spaces_no_space_id by done. rewrite ?bool_decide_true by done.
    rewrite spaces_no_space_id by apply Hnv.
    rewrite Hkv; [|lens Hlen|apply ends_comma].
    rewrite spaces_no_space_id by done. rewrite ?bool_decide_true by done.
    rewrite spaces_no_space_id by done.
    change (x22 :: k0 ++ u) with ((x22 :: k0) ++ u).
    rewrite Hrun; [|lens Hlen]. by norm.
  - case_bool_decide as Hclose; [subst c6|done].
    assert (k = x22 :: escapeHTML key ++ [x22; x3a] ++ kv ++ [x7d]) as ->.
    { injection H as <- <- <-. by norm. }
    clear H.
    exists ((x22 :: escapeHTML (escapeHTML key) ++ [x22; x3a] ++ kv')
            ++ [x7d]), (escapeHTML key ++ [x22; x3a] ++ kv ++ [x7d]).
    split; [done|].
    intros [|m] u Hlen; [simpl in Hlen; lia|].
    norm. rewrite ?bool_decide_true by done. rewrite Hkey.
    rewrite spaces_no_space_id by done. rewrite ?bool_decide_true by done.
    rewrite spaces_no_space_id by apply Hnv.
    rewrite Hkv; [|lens Hlen|apply ends_brace].
    rewrite spaces_no_space_id by done. rewrite ?bool_decide_false by done.
    rewrite ?bool_decide_true by done. by norm.
Qed.

Lemma elements_kept_step n :
  value_kept n -> elements_kept n -> elements_kept (S n).
Proof.
  intros IHv IHe s t k r H. simpl in H.
  destruct (scan_value n s) as [[[tv kv] r1]|] eqn:Hv; [|done].
  destruct (spaces r1) as [w1 r2] eqn:Hw1.
  destruct r2 as [|c2 r3]; [done|].
  apply IHv in Hv as [kv' Hkv].
  pose proof (fun u => value_text_no_space kv kv' u Hkv) as Hnv.
  pose proof (fun u => value_text_head kv kv' u Hkv) as Hhv.
  destruct Hkv as [Hne Hkv].
  case_bool_decide as Hcomma; [subst c2|].
  - destruct (spaces r3) as [w2 r4] eqn:Hw2.
    destruct (scan_elements n r4) as [[[t' k1] rest]|] eqn:He; [|done].
    apply IHe in He as (k' & Hhead & Hrun).
    assert (k = kv ++ [x2c] ++ k1) as -> by by simplify_eq.
    clear H. exists (kv' ++ [x2c] ++ k'). split.
    { intros u. rewrite <- app_assoc. apply Hhv. }
    intros [|m] u Hlen.
    { destruct kv; [done|]. simpl in Hlen. lia. }
    norm. rewrite Hkv; [|lens Hlen|apply ends_comma].
    rewrite spaces_no_space_id by done. rewrite ?bool_decide_true by done.
    rewrite spaces_no_space_id.
    2: { specialize (Hhead u). destruct (k1 ++ u); [done|]. apply Hhead. }
    rewrite Hrun; [by norm|]. destruct kv; [done|]. lens Hlen.
  - case_bool_decide as Hclose; [subst c2|done].
    assert (k = kv ++ [x5d]) as -> by by simplify_eq.
    clear H. exists (kv' ++ [x5d]). split.
    { intros u. rewrite <- app_assoc. apply Hhv. }
    intros [|m] u Hlen.
    { destruct kv; [done|]. simpl in Hlen. lia. }
    norm. rewrite Hkv; [|lens Hlen|apply ends_bracket].
    rewrite spaces_no_space_id by done. rewrite ?bool_decide_false by done.
    rewrite ?bool_decide_true by done. by norm.
Qed.

Lemma scan_kept n : value_kept n /\ members_kept n /\ elements_kept n.
Proof.
  induction n as [|n (IHv & IHm & IHe)].
  - split; [|split]; by intros s t k r.
  - split; [by apply value_kept_step|].
    split; [by apply members_kept_step | by apply elements_kept_step].
Qed.

(** What [compact] keeps of a value is the text of a value. *)
Lemma scan_value_kept n s t k r :
  scan_value n s = Some (t, k, r) -> exists k', value_text k k'.
Proof. apply scan_kept. Qed.

#[local] Transparent escapeHTML.

End Compaction.

(** ** The envelope as text *)

Section Envelopes.

Import toon json.

#[local] Arguments scan_number : simpl never.
#[local] Arguments scan_literal : simpl never.
#[local] Arguments scan_string : simpl never.
#[local] Arguments spaces : simpl never.

(** *** Objects as written *)

Lemma emit_members_more m m' r :
  emit_members (m :: m' :: r)
  = emit_member m ++ [x2c] ++ emit_members (m' :: r).
Proof. done. Qed.

Lemma emit_members_one m : emit_members [m] = emit_member m.
Proof. done. Qed.

Lemma emit_members_head m r :
  exists t, emit_members (m :: r) = x22 :: t.
Proof. destruct r; by eexists. Qed.

#[local] Opaque emit_members.

Lemma scan_members_emit ms :
  ms <> [] -> Forall member_ok ms ->
  exists k,
    forall n u,
      length (emit_members ms) < n ->
      scan_members n (emit_members ms ++ x7d :: u)
      = Some (emit_members ms ++ [x7d], k, u).
Proof.
  intros Hne Hms. induction Hms as [|[key v] r [Hkey [kv Hv]] Hr IH]; [done|].
  clear Hne. simpl in Hkey, Hv.
  pose proof (fun u => value_text_no_space v kv u Hv) as Hnv.
  destruct Hv as [_ Hv].
  destruct r as [|m' r].
  - eexists (x22 :: escapeHTML key ++ [x22; x3a] ++ kv ++ [x7d]).
    intros [|n] u Hlen; [lia|].
    rewrite emit_members_one in *. unfold emit_member in *.
    cbn [fst snd] in *.
    norm. rewrite ?bool_decide_true by done. rewrite Hkey.
    rewrite spaces_no_space_id by done. rewrite ?bool_decide_true by done.
    rewrite spaces_no_space_id by apply Hnv.
    rewrite Hv; [|lens Hlen|apply ends_brace].
    rewrite spaces_no_space_id by done. by norm.
  - destruct IH as [k' IH]; [done|].
    exists (x22 :: escapeHTML key ++ [x22; x3a] ++ kv ++ [x2c] ++ k').
    intros [|n] u Hlen; [lia|].
    rewrite emit_members_more in *. unfold emit_member in *.
    cbn [fst snd] in *.
    destruct (emit_members_head m' r) as [t Ht]. 
    norm. rewrite ?bool_decide_true by done. rewrite Hkey.
    rewrite spaces_no_space_id by done. rewrite ?bool_decide_true by done.
    rewrite spaces_no_space_id by apply Hnv.
    rewrite Hv; [|lens Hlen|apply ends_comma].
    rewrite spaces_no_space_id by done. rewrite ?bool_decide_true by done.
    rewrite spaces_no_space_id by (by rewrite Ht).
    rewrite IH; [by norm|lens Hlen].
Qed.

Lemma skip_space_id s : no_space s -> skip_space s = s.
Proof. intros H. unfold skip_space. by rewrite spaces_no_space_id. Qed.

Lemma object_members_emit ms :
  ms <> [] -> Forall member_ok ms ->
  forall n u,
    length (emit_members ms) < n ->
    object_members n (emit_members ms ++ x7d :: u) = ms.
Proof.
  intros Hne Hms. induction Hms as [|[key v] r [Hkey [kv Hv]] Hr IH]; [done|].
  clear Hne. simpl in Hkey, Hv.
  pose proof (fun u => value_text_no_space v kv u Hv) as Hnv.
  destruct Hv as [_ Hv].
  destruct r as [|m' r].
  - intros [|n] u Hlen; [lia|].
    rewrite emit_members_one in *. unfold emit_member in *.
    cbn [fst snd] in *.
    norm. rewrite ?bool_decide_true by done. rewrite Hkey.
    rewrite skip_space_id by done.
    rewrite skip_space_id by apply Hnv.
    rewrite Hv; [|lens Hlen|apply ends_brace].
    rewrite skip_space_id by done. by norm.
  - intros [|n] u Hlen; [lia|].
    rewrite emit_members_more in *. unfold emit_member in *.
    cbn [fst snd] in *.
    destruct (emit_members_head m' r) as [t Ht].
    norm. rewrite ?bool_decide_true by done. rewrite Hkey.
    rewrite skip_space_id by done.
    rewrite skip_space_id by apply Hnv.
    rewrite Hv; [|lens Hlen|apply ends_comma].
    rewrite skip_space_id by done. rewrite ?bool_decide_true by done.
    rewrite skip_space_id by (by rewrite Ht).
    rewrite IH; [done|done|lens Hlen].
Qed.

(** An object as written is the text of a value, and its members are
    those written. *)
Lemma value_text_emit_object ms :
  Forall member_ok ms -> exists k, value_text (emit_object ms) k.
Proof.
  intros Hms. destruct ms as [|m r].
  { exists [x7b; x7d]. split; [done|].
    intros [|n] u Hn _; [simpl in Hn; lia|]. simpl.
    by rewrite ?spaces_no_space_id. }
  destruct (scan_members_emit (m :: r)) as [k Hk]; [done..|].
  destruct (emit_members_head m r) as [t Ht].
  exists (x7b :: k). split; [done|].
  intros [|n] u Hn _; [simpl in Hn; lia|].
  unfold emit_object in *. norm.
  rewrite spaces_no_space_id by (by rewrite Ht).
  rewrite Ht at 1. cbn [app]. rewrite bool_decide_false by done.
  rewrite Hk; [done|lens Hn].
Qed.

Lemma members_emit_object ms :
  Forall member_ok ms -> members (emit_object ms) = Some ms.
Proof.
  intros Hms. destruct ms as [|m r]; [done|].
  destruct (emit_members_head m r) as [t Ht].
  unfold members, emit_object. cbn [app]. rewrite bool_decide_true by done.
  rewrite skip_space_id by (by rewrite Ht).
  rewrite object_members_emit; [done..|].
  cbn [length]. rewrite length_app. simpl. lia.
Qed.

Lemma emit_object_not_null ms : is_null (emit_object ms) = false.
Proof. done. Qed.

(** Decoding an object as written is decoding its members. *)
Lemma decode_struct_emit_object {S : Type} what names
    (set : string -> list byte -> S -> S * saved) ms cur :
  Forall member_ok ms ->
  decode_struct what names set (emit_object ms) cur
  = decode_fields names set ms cur.
Proof.
  intros Hms. unfold decode_struct.
  by rewrite emit_object_not_null, members_emit_object.
Qed.

(** *** What the decoder leaves in an envelope *)

Lemma scanned_payload_ok v : scanned v -> payload_ok v.
Proof.
  intros (n & s & k & r & H).
  destruct (scan_value_text _ _ _ _ _ H) as [_ Hv].
  destruct (scan_value_kept _ _ _ _ _ H) as [k' Hk]. by exists k, k'.
Qed.

Lemma object_members_scanned n s :
  Forall (fun m => scanned (snd m)) (object_members n s).
Proof.
  revert s. induction n as [|n IH]; intros s; [constructor|].
  simpl. destruct s as [|c r]; [constructor|].
  destruct (if bool_decide (c = x22) then scan_string r else None)
    as [[key r1]|]; [|constructor].
  destruct (skip_space r1) as [|c2 r3]; [constructor|].
  destruct (scan_value n (skip_space r3)) as [[[t k] r5]|] eqn:Hv;
    [|constructor].
  constructor; [by exists n, (skip_space r3), k, r5|].
  destruct (skip_space r5) as [|c6 r7]; [constructor|].
  case_bool_decide; [apply IH|constructor].
Qed.

Lemma members_scanned v ms :
  members v = Some ms -> Forall (fun m => scanned (snd m)) ms.
Proof.
  unfold members. destruct v as [|c r]; [done|].
  case_bool_decide; [|done]. intros [= <-].
  apply (object_members_scanned (S (length r)) (skip_space r)).
Qed.

Section Invariant.

Context {S : Type} (P : S -> Prop).
Context (names : list string) (set : string -> list byte -> S -> S * saved).
Hypothesis set_ok : forall f v x, scanned v -> P x -> P (fst (set f v x)).

Lemma decode_fields_ok ms init :
  Forall (fun m => scanned (snd m)) ms -> P init ->
  P (fst (decode_fields names set ms init)).
Proof.
  unfold decode_fields. intros Hms Hinit.
  assert (Hacc : P (fst (init, @None error))) by done.
  revert Hacc. generalize (init, @None error).
  induction Hms as [|m ms Hm _ IH]; intros acc Hacc; [done|].
  simpl. apply IH.
  destruct (field_of names (unquote (fst m))) as [f|]; [|done].
  match goal with
  | |- context [set ?a ?b ?c] =>
      pose proof (set_ok a b c Hm Hacc) as Hs; by destruct (set a b c)
  end.
Qed.

Lemma decode_struct_ok what v cur :
  P cur -> P (fst (decode_struct what names set v cur)).
Proof.
  intros Hcur. unfold decode_struct. destruct (is_null v); [done|].
  destruct (members v) as [ms|] eqn:Hms; [|done].
  apply decode_fields_ok; [|done]. by eapply members_scanned.
Qed.

End Invariant.

Lemma decode_ptr_ok {S : Type} (P : S -> Prop) zero dec v cur :
  P zero -> (forall x, P x -> P (fst (dec v x))) ->
  from_option P True cur ->
  from_option P True (fst (decode_ptr zero dec v cur)).
Proof.
  intros Hz Hdec Hcur. unfold decode_ptr. destruct (is_null v); [done|].
  specialize (Hdec (default zero cur)).
  destruct (dec v (default zero cur)) as [x e]. simpl in *.
  apply Hdec. by destruct cur.
Qed.

Lemma Time_UnmarshalJSON_ok v cur :
  time_ok cur -> time_ok (fst (Time_UnmarshalJSON v cur)).
Proof.
  intros Hcur. unfold Time_UnmarshalJSON. destruct (is_null v); [done|].
  destruct v as [|c r]; [done|]. destruct c; try done.
  destruct (List.rev r) as [|c' t]; [done|]. destruct c'; try done.
  destruct (time.parseRFC3339 (List.rev t)) as [x|] eqn:Hx; [|done].
  by apply parseRFC3339_ok in Hx.
Qed.

Lemma decode_int_fst_ok v cur : int_ok cur -> int_ok (fst (decode_int v cur)).
Proof.
  intros H. destruct (decode_int v cur) as [x e] eqn:Hd.
  by eapply decode_int_ok.
Qed.

Lemma decode_string_ok v cur :
  string_ok cur -> string_ok (fst (decode_string v cur)).
Proof.
  intros H. destruct (decode_string v cur) as [x e] eqn:Hd.
  by eapply decode_string_utf8.
Qed.

Lemma int_ok_0 : int_ok 0.
Proof. unfold int_ok. lia. Qed.

Lemma string_ok_empty : string_ok "".
Proof. apply utf8_nil. Qed.

Lemma set_RateLimit_ok f v l :
  RateLimit_ok l -> RateLimit_ok (fst (set_RateLimit f v l)).
Proof.
  intros (H1 & H2 & H3). unfold set_RateLimit.
  destruct (String.eqb f "limit").
  { pose proof (decode_int_fst_ok v _ H1).
    by destruct (decode_int v (RateLimit_Limit l)). }
  destruct (String.eqb f "remaining").
  { pose proof (decode_int_fst_ok v _ H2).
    by destruct (decode_int v (RateLimit_Remaining l)). }
  pose proof (Time_UnmarshalJSON_ok v _ H3).
  by destruct (Time_UnmarshalJSON v (RateLimit_Reset l)).
Qed.

Lemma decode_RateLimit_ok v l :
  RateLimit_ok l -> RateLimit_ok (fst (decode_RateLimit v l)).
Proof.
  apply decode_struct_ok. intros f w x _. apply set_RateLimit_ok.
Qed.

Lemma RateLimit_ok_zero : RateLimit_ok (mkRateLimit 0 0 time.zero).
Proof. repeat split; try apply int_ok_0. apply time_ok_zero. Qed.

Lemma set_Meta_ok f v m : Meta_ok m -> Meta_ok (fst (set_Meta f v m)).
Proof.
  intros (H1 & H2 & H3 & H4). unfold set_Meta.
  destruct (String.eqb f "timestamp").
  { pose proof (Time_UnmarshalJSON_ok v _ H1).
    by destruct (Time_UnmarshalJSON v (Meta_Timestamp m)). }
  destruct (String.eqb f "request_id").
  { pose proof (decode_string_ok v _ H2).
    by destruct (decode_string v (Meta_RequestID m)). }
  destruct (String.eqb f "api_version").
  { pose proof (decode_string_ok v _ H3).
    by destruct (decode_string v (Meta_APIVersion m)). }
  pose proof (decode_ptr_ok RateLimit_ok _ decode_RateLimit v _
                RateLimit_ok_zero (decode_RateLimit_ok v) H4).
  by destruct (decode_ptr _ _ v (Meta_RateLimit m)).
Qed.

Lemma decode_Meta_ok v m : Meta_ok m -> Meta_ok (fst (decode_Meta v m)).
Proof. apply decode_struct_ok. intros f w x _. apply set_Meta_ok. Qed.

Lemma Meta_ok_zero : Meta_ok (mkMeta time.zero "" "" None).
Proof.
  repeat split; try apply string_ok_empty. apply time_ok_zero.
Qed.

Lemma set_ResponseError_ok f v x :
  ResponseError_ok x -> ResponseError_ok (fst (set_ResponseError f v x)).
Proof.
  intros (H1 & H2 & H3 & H4). unfold set_ResponseError.
  destruct (String.eqb f "code").
  { pose proof (decode_string_ok v _ H1).
    by destruct (decode_string v (ResponseError_Code x)). }
  destruct (String.eqb f "message").
  { pose proof (decode_string_ok v _ H2).
    by destruct (decode_string v (ResponseError_Message x)). }
  destruct (String.eqb f "details").
  { pose proof (decode_string_ok v _ H3).
    by destruct (decode_string v (ResponseError_Details x)). }
  pose proof (decode_string_ok v _ H4).
  by destruct (decode_string v (ResponseError_Field x)).
Qed.

Lemma decode_ResponseError_ok v x :
  ResponseError_ok x -> ResponseError_ok (fst (decode_ResponseError v x)).
Proof. apply decode_struct_ok. intros f w y _. apply set_ResponseError_ok. Qed.

Lemma ResponseError_ok_zero : ResponseError_ok (mkResponseError "" "" "" "").
Proof. repeat split; apply string_ok_empty. Qed.

Lemma set_Response_ok f v e :
  scanned v -> Envelope_ok e -> Envelope_ok (fst (set_Response f v e)).
Proof.
  intros Hv (H1 & H2 & H3). unfold set_Response.
  destruct (String.eqb f "success").
  { by destruct (decode_bool v (Response_Success e)). }
  destruct (String.eqb f "data").
  { simpl. split; [|done]. by apply scanned_payload_ok. }
  destruct (String.eqb f "error").
  { pose proof (decode_ptr_ok ResponseError_ok _ decode_ResponseError v _
                  ResponseError_ok_zero (decode_ResponseError_ok v) H2).
    by destruct (decode_ptr _ _ v (Response_Error e)). }
  pose proof (decode_ptr_ok Meta_ok _ decode_Meta v _
                Meta_ok_zero (decode_Meta_ok v) H3).
  by destruct (decode_ptr _ _ v (Response_Meta e)).
Qed.

(** Whatever the decoder returns, the envelope it leaves can be
    written. *)
Lemma Unmarshal_Response_ok data :
  Envelope_ok (fst (Unmarshal_Response data)).
Proof.
  unfold Unmarshal_Response, decode_Response.
  destruct (checkValid data); [|done].
  apply decode_struct_ok; [apply set_Response_ok|done].
Qed.

(** *** Writing and reading again *)

Lemma time_char_plain c :
  time_char c = true ->
  inert c = true /\
  forall w, scan_string (c :: w) = more [c] (scan_string w).
Proof. destruct c; try discriminate; done. Qed.

Lemma inside_time txt :
  Forall (fun c => time_char c = true) txt ->
  inside txt /\ escapeHTML txt = txt.
Proof.
  induction 1 as [|c txt [Hi Hc]%time_char_plain _ [IH1 IH2]]; [done|].
  split; [by apply (inside_more [c])|].
  by rewrite escapeHTML_inert, IH2.
Qed.

(** A time the decoder has left is written as a string literal that is
    read without error. *)
Lemma time_written t :
  time_ok t ->
  exists v k,
    marshaler (time.MarshalJSON t) = Some v /\ value_text v k /\
    forall cur, exists t', Time_UnmarshalJSON v cur = (t', None).
Proof.
  intros (txt & t' & Hm & Hp & Hc)%MarshalJSON_ok.
  destruct (inside_time txt Hc) as [Hin Hesc].
  pose proof (value_text_string txt Hin) as Hv. rewrite Hesc in Hv.
  exists (x22 :: txt ++ [x22]), (x22 :: txt ++ [x22]).
  split; [|split; [done|]].
  - rewrite Hm. simpl. by apply value_text_compact.
  - intros cur. exists t'. unfold Time_UnmarshalJSON, is_null.
    rewrite bool_decide_false by done.
    rewrite rev_app_distr. simpl. by rewrite rev_involutive, Hp.
Qed.

Lemma int_written x :
  int_ok x ->
  value_text (strconv.FormatInt x) (strconv.FormatInt x) /\
  forall cur, decode_int (strconv.FormatInt x) cur = (x, None).
Proof.
  intros Hx. split; [by apply value_text_FormatInt|].
  intros cur. by apply decode_int_FormatInt.
Qed.

Lemma string_written s :
  string_ok s ->
  (exists k, value_text (encode_string s) k) /\
  forall cur, decode_string (encode_string s) cur = (s, None).
Proof.
  intros Hs. split; [by apply value_text_quote|].
  intros cur. by apply decode_string_quote.
Qed.

Lemma bool_written b :
  value_text (encode_bool b) (encode_bool b) /\
  forall cur, decode_bool (encode_bool b) cur = (b, None).
Proof.
  split; [|by destruct b].
  destruct b.
  - by apply (scan_value_text 1 true_ _ _ []).
  - by apply (scan_value_text 1 false_ _ _ []).
Qed.

Lemma decode_fields_fold {S : Type} names
    (set : string -> list byte -> S -> S * saved) ms init :
  decode_fields names set ms init
  = fold_left (decode_step names set) ms (init, None).
Proof. done. Qed.

Lemma decode_step_set {S : Type} names
    (set : string -> list byte -> S -> S * saved) name v ms x f x' :
  field_of names (unquote (list_byte_of_string name)) = Some f ->
  set f v x = (x', None) ->
  fold_left (decode_step names set) ((list_byte_of_string name, v) :: ms)
    (x, None)
  = fold_left (decode_step names set) ms (x', None).
Proof. intros Hf Hs. simpl. unfold decode_step at 2. simpl. by rewrite Hf, Hs. Qed.

Lemma member_ok_field name v k :
  inside (list_byte_of_string name) -> value_text v k ->
  member_ok (list_byte_of_string name, v).
Proof. intros Hn Hv. split; [done|by exists k]. Qed.

Lemma decode_ptr_written {S : Type} (zero : S) dec v cur x :
  is_null v = false -> dec v (default zero cur) = (x, None) ->
  decode_ptr zero dec v cur = (Some x, None).
Proof. intros Hn Hd. unfold decode_ptr. by rewrite Hn, Hd. Qed.

Ltac key_ok := by intros u.

(** One member read: the key selects its field, and the setter takes the
    value without error. *)
Ltac read_member :=
  erewrite decode_step_set; [|reflexivity|].

Lemma RateLimit_written l :
  RateLimit_ok l ->
  exists out k,
    Marshal_RateLimit l = Some out /\ value_text out k /\
    is_null out = false /\
    forall cur, exists l',
      decode_RateLimit out cur = (l', None) /\
      RateLimit_Limit l' = RateLimit_Limit l /\
      RateLimit_Remaining l' = RateLimit_Remaining l.
Proof.
  intros (Hl & Hr & Ht).
  destruct (int_written _ Hl) as [Hlv Hld].
  destruct (int_written _ Hr) as [Hrv Hrd].
  destruct (time_written _ Ht) as (tv & tk & Htm & Htv & Htd).
  unfold Marshal_RateLimit, object. rewrite Htm. cbn [fields field option_map app].
  match goal with |- context [emit_object ?ms] =>
    assert (Hms : Forall member_ok ms) end.
  { repeat apply List.Forall_cons; try apply List.Forall_nil;
      eapply member_ok_field; try done; key_ok. }
  destruct (value_text_emit_object _ Hms) as [k Hk].
  eexists _, k. split; [done|]. split; [done|]. split; [done|].
  intros cur. destruct (Htd (RateLimit_Reset cur)) as [t' Ht'].
  unfold decode_RateLimit.
  rewrite decode_struct_emit_object, decode_fields_fold by done.
  read_member.
  2: { unfold set_RateLimit. cbn [String.eqb Ascii.eqb Bool.eqb].
       by rewrite Hld. }
  read_member.
  2: { unfold set_RateLimit. cbn [String.eqb Ascii.eqb Bool.eqb].
       by rewrite Hrd. }
  read_member.
  2: { unfold set_RateLimit. cbn [String.eqb Ascii.eqb Bool.eqb].
       cbn [RateLimit_Reset]. by rewrite Ht'. }
  by eexists.
Qed.

Ltac members_ok :=
  repeat apply List.Forall_cons; try apply List.Forall_nil;
  eapply member_ok_field; try done; key_ok.

Lemma Meta_written m :
  Meta_ok m ->
  exists out k m',
    Marshal_Meta m = Some out /\ value_text out k /\ is_null out = false /\
    decode_Meta out (mkMeta time.zero "" "" None) = (m', None) /\
    Meta_RequestID m' = Meta_RequestID m /\
    option_map quota (Meta_RateLimit m') = option_map quota (Meta_RateLimit m).
Proof.
  intros (Ht & Hid & Hav & Hrl).
  destruct (time_written _ Ht) as (tv & tk & Htm & Htv & Htd).
  destruct (Htd time.zero) as [t' Ht'].
  destruct (string_written _ Hid) as [[idk Hidv] Hidd].
  destruct (string_written _ Hav) as [[avk Havv] Havd].
  unfold Marshal_Meta, object, decode_Meta. rewrite Htm.
  destruct (Meta_RateLimit m) as [l|] eqn:Hl; simpl in Hrl.
  - destruct (RateLimit_written l Hrl) as (rv & rk & -> & Hrv & Hrn & Hrd).
    destruct (Hrd (mkRateLimit 0 0 time.zero)) as (l' & Hl' & HL & HR).
    destruct (String.eqb_spec (Meta_RequestID m) "") as [Eid|Eid];
      destruct (String.eqb_spec (Meta_APIVersion m) "") as [Eav|Eav];
      cbn [fields field option_map app omitted].
    all: match goal with |- context [emit_object ?ms] =>
           assert (Hms : Forall member_ok ms) by members_ok end.
    all: destruct (value_text_emit_object _ Hms) as [k Hk].
    all: eexists _, k, _; split; [done|]; split; [done|]; split; [done|].
    all: rewrite decode_struct_emit_object, decode_fields_fold by done.
    all: repeat
           (read_member;
            [|unfold set_Meta; cbn [String.eqb Ascii.eqb Bool.eqb];
              cbn [Meta_Timestamp Meta_RequestID Meta_APIVersion
                   Meta_RateLimit];
              first [by rewrite Ht' | by rewrite Hidd | by rewrite Havd
                    |by erewrite decode_ptr_written]]).
    all: cbn [fold_left]; split; [done|]; cbn [Meta_RequestID Meta_RateLimit].
    all: split; [done|]; unfold quota; simpl; by rewrite HL, HR.
  - destruct (String.eqb_spec (Meta_RequestID m) "") as [Eid|Eid];
      destruct (String.eqb_spec (Meta_APIVersion m) "") as [Eav|Eav];
      cbn [fields field option_map app omitted].
    all: match goal with |- context [emit_object ?ms] =>
           assert (Hms : Forall member_ok ms) by members_ok end.
    all: destruct (value_text_emit_object _ Hms) as [k Hk].
    all: eexists _, k, _; split; [done|]; split; [done|]; split; [done|].
    all: rewrite decode_struct_emit_object, decode_fields_fold by done.
    all: repeat
           (read_member;
            [|unfold set_Meta; cbn [String.eqb Ascii.eqb Bool.eqb];
              cbn [Meta_Timestamp Meta_RequestID Meta_APIVersion
                   Meta_RateLimit];
              first [by rewrite Ht' | by rewrite Hidd | by rewrite Havd]]).
    all: cbn [fold_left]; split; [done|]; cbn [Meta_RequestID Meta_RateLimit].
    all: split; done.
Qed.

Lemma ResponseError_written x :
  ResponseError_ok x ->
  exists out k x',
    Marshal_ResponseError x = Some out /\ value_text out k /\
    is_null out = false /\
    decode_ResponseError out (mkResponseError "" "" "" "") = (x', None).
Proof.
  intros (Hc & Hm & Hd & Hf).
  destruct (string_written _ Hc) as [[ck Hcv] Hcd].
  destruct (string_written _ Hm) as [[mk Hmv] Hmd].
  destruct (string_written _ Hd) as [[dk Hdv] Hdd].
  destruct (string_written _ Hf) as [[fk Hfv] Hfd].
  unfold Marshal_ResponseError, object, decode_ResponseError.
  destruct (String.eqb_spec (ResponseError_Details x) "") as [Ed|Ed];
    destruct (String.eqb_spec (ResponseError_Field x) "") as [Ef|Ef];
    cbn [fields field option_map app omitted].
  all: match goal with |- context [emit_object ?ms] =>
         assert (Hms : Forall member_ok ms) by members_ok end.
  all: destruct (value_text_emit_object _ Hms) as [k Hk].
  all: eexists _, k, _; split; [done|]; split; [done|]; split; [done|].
  all: rewrite decode_struct_emit_object, decode_fields_fold by done.
  all: repeat
         (read_member;
          [|unfold set_ResponseError; cbn [String.eqb Ascii.eqb Bool.eqb];
            cbn [ResponseError_Code ResponseError_Message
                 ResponseError_Details ResponseError_Field];
            first [by rewrite Hcd | by rewrite Hmd | by rewrite Hdd
                  |by rewrite Hfd]]).
  all: done.
Qed.

Lemma payload_written t :
  payload_ok t ->
  exists k k' c r,
    t = c :: r /\ compact t = Some k /\ value_text k k'.
Proof.
  intros (k & k' & Ht & Hk). pose proof (value_text_compact _ _ Ht) as Hc.
  destruct Ht as [Hne _]. destruct t as [|c r]; [done|].
  by exists k, k', c, r.
Qed.

Lemma Response_written e :
  Envelope_ok e ->
  exists out k e',
    Marshal_Response e = Some out /\ value_text out k /\
    decode_Response out zero_Response = (e', None) /\
    captured e' = captured e.
Proof.
  intros (Hd & Hx & Hm).
  destruct (bool_written (Response_Success e)) as [Hbv Hbd].
  unfold Marshal_Response, object, decode_Response, captured.
  destruct (Response_Data e) as [t|] eqn:Ht; simpl in Hd.
  1: destruct (payload_written t Hd) as (dk & dk' & c & r & -> & Hdc & Hdv).
  all: destruct (Response_Error e) as [x|] eqn:Ex; simpl in Hx.
  1, 3: destruct (ResponseError_written x Hx)
          as (xv & xk & x' & -> & Hxv & Hxn & Hxd).
  all: destruct (Response_Meta e) as [m|] eqn:Em; simpl in Hm.
  1, 3, 5, 7: destruct (Meta_written m Hm)
                as (mv & mk & m' & -> & Hmv & Hmn & Hmd & Hid & Hq).
  all: cbn [RawMessage_MarshalJSON marshaler]; rewrite ?Hdc;
    cbn [fields field option_map app omitted].
  all: match goal with |- context [emit_object ?ms] =>
         assert (Hms : Forall member_ok ms) by members_ok end.
  all: destruct (value_text_emit_object _ Hms) as [k Hk].
  all: eexists _, k, _; split; [done|]; split; [done|].
  all: rewrite decode_struct_emit_object, decode_fields_fold by done.
  all: repeat
         (read_member;
          [|unfold set_Response; cbn [String.eqb Ascii.eqb Bool.eqb];
            cbn [Response_Success Response_Data Response_Error Response_Meta
                 zero_Response];
            first [by rewrite Hbd | done
                  |by erewrite decode_ptr_written]]).
  all: cbn [fold_left]; split; [done|].
  all: cbn [Response_Success Response_Data Response_Error Response_Meta
            option_map]; by rewrite ?Hid, ?Hq.
Qed.

(** A body that is decoded without error is written again, and what is
    written is decoded to the same success flag, request id, limit and
    remaining. *)
Lemma Unmarshal_Marshal data e :
  Unmarshal_Response data = (e, None) ->
  exists out e',
    Marshal_Response e = Some out /\ out <> [] /\
    Unmarshal_Response out = (e', None) /\
    captured e' = captured e.
Proof.
  intros Hd. pose proof (Unmarshal_Response_ok data) as He.
  rewrite Hd in He. simpl in He.
  destruct (Response_written e He) as (out & k & e' & Hm & Hv & Hdec & Hc).
  exists out, e'. split; [done|]. split; [by destruct Hv|].
  split; [|done]. unfold Unmarshal_Response.
  by rewrite (value_text_checkValid out k), (value_text_is_document out k).
Qed.

#[local] Transparent emit_members.

End Envelopes.

(** * Further properties of the package *)

Lemma string_app_nil_r (s : string) : (s ++ "")%string = s.
Proof. induction s as [|c s IH]; [done|]. simpl. by rewrite IH. Qed.

Lemma string_app_assoc (s t u : string) :
  ((s ++ t) ++ u)%string = (s ++ (t ++ u))%string.
Proof. induction s as [|c s IH]; [done|]. simpl. by rewrite IH. Qed.

(** ** What the constructors refuse *)

Section Refusals.

Import toon.

Variable json_Unmarshal_Response :
  list byte -> Response_ (option (list byte)) * option error.

Local Abbreviation NewHandler := (toon.NewHandler json_Unmarshal_Response).
Local Abbreviation FromHTTPResponse :=
  (toon.FromHTTPResponse json_Unmarshal_Response).

Implicit Types (st : heap) (h : Handler) (b : bytes).

(** The errors of [NewHandler]: [EMPTY_RESPONSE] without cause, or
    [JSON_UNMARSHAL] around the error of the decoder. *)
Lemma NewHandler_error b st p ve st' :
  NewHandler b st = Ret ((p, Some ve), st') ->
  Err ve = None /\ Code ve = ErrCodeEmptyResponse \/
  Err ve <> None /\ Code ve = ErrCodeJSONUnmarshal.
Proof.
  destruct b as [s|].
  2: { unfold toon.NewHandler, mret, M_ret. intros [= <- <- <-]. by left. }
  destruct (decide (s_len s = 0)) as [Hz|Hnz].
  { unfold toon.NewHandler. simpl. rewrite Hz. simpl.
    unfold mret, M_ret. intros [= <- <- <-]. by left. }
  destruct (json_Unmarshal_Response (load st (Some s))) as [e err] eqn:Hd.
  rewrite (NewHandler_decoded _ _ _ _ _ Hnz Hd).
  destruct err as [x|]; [|done]. intros [= <- <- <-]. by right.
Qed.

(** X1. [NewHandler] always returns, with a handler or else with an error:
    a handler exactly when the body is neither nil nor empty and the
    decoder reports no error; [EMPTY_RESPONSE] for a nil and for an empty
    body, which leave the store as it was; [JSON_UNMARSHAL] around the
    decoder's error otherwise, with the size of the body. *)
Theorem NewHandler_verdict b st :
  exists p err st',
    NewHandler b st = Ret ((p, err), st') /\
    (p = None <-> err <> None) /\
    match err with
    | None =>
        b <> None /\ len b <> 0 /\
        snd (json_Unmarshal_Response (load st b)) = None
    | Some ve =>
        b = None /\ st' = st /\
        ve = mkValidationError ErrCodeEmptyResponse "body is nil" None []
        \/
        b <> None /\ len b = 0 /\ st' = st /\
        ve = mkValidationError ErrCodeEmptyResponse "body is empty" None []
        \/
        b <> None /\ len b <> 0 /\
        exists x,
          snd (json_Unmarshal_Response (load st b)) = Some x /\
          ve = mkValidationError ErrCodeJSONUnmarshal
                 "failed to unmarshal response body" (Some x)
                 [("body_size", VInt (Z.of_nat (len b)))]
    end.
Proof.
  destruct b as [s|].
  2: { do 3 eexists. split; [reflexivity|]. split; [done|]. by left. }
  destruct (decide (s_len s = 0)) as [Hz|Hnz].
  { unfold toon.NewHandler. simpl. rewrite Hz. simpl.
    do 3 eexists. split; [reflexivity|]. split; [done|].
    right; left. done. }
  destruct (json_Unmarshal_Response (load st (Some s))) as [e err] eqn:Hd.
  rewrite (NewHandler_decoded _ _ _ _ _ Hnz Hd).
  destruct err as [x|]; do 3 eexists; (split; [reflexivity|]).
  - split; [done|]. right; right. repeat split; try done.
    by exists x.
  - split; [split; [done|by intros []]|]. done.
Qed.

(** X2. [FromHTTPResponse] always returns: the success flag is asked only of
    a handler that is not nil. It returns a handler or else an error. *)
Theorem FromHTTPResponse_returns r st :
  exists p err after st',
    FromHTTPResponse r st = Ret ((p, err, after), st') /\
    (p = None <-> err <> None).
Proof.
  destruct r as [x|].
  2: { do 4 eexists. split; [reflexivity|]. done. }
  destruct (http.Body x) as [rc|] eqn:Hb.
  2: { unfold toon.FromHTTPResponse. rewrite Hb.
       do 4 eexists. split; [reflexivity|]. done. }
  destruct (io.failure rc) as [e|] eqn:Hf.
  { unfold toon.FromHTTPResponse. rewrite Hb.
    unfold bind, mbind, M_bind, io.ReadAll. simpl. rewrite Hf.
    do 4 eexists. split; [reflexivity|]. done. }
  rewrite (FromHTTPResponse_read _ _ _ _ Hb Hf).
  destruct (NewHandler_returns json_Unmarshal_Response
              (Some (mkSlice (length st) 0 (length (io.pending rc))))
              (st ++ [io.pending rc])) as (p & err & st' & -> & Hp).
  destruct err as [ve|].
  { do 4 eexists. split; [reflexivity|]. done. }
  destruct p as [h|]; [|by destruct Hp as [Hp _]; destruct (Hp eq_refl)].
  destruct (_ || _)%Z.
  - rewrite IsSuccess_Some.
    destruct (match resp h with Some r => _ | None => _ end);
      do 4 eexists; (split; [reflexivity|]); [done|].
    split; [done|]. by intros [].
  - do 4 eexists. split; [reflexivity|]. split; [done|]. by intros [].
Qed.

(** X3. What [FromHTTPResponse] refuses before it decodes: a nil response and
    a response without body with [INVALID_RESPONSE]; a body that fails
    while it is read with [IO_READ] around the failure, whatever had been
    read; a body that ends without a byte with [EMPTY_RESPONSE], as an
    empty one and not as a nil one. *)
Theorem FromHTTPResponse_refusals st :
  FromHTTPResponse None st
  = Ret ((None,
          Some (mkValidationError ErrCodeInvalidResponse
                  "http response is nil" None []),
          None), st) /\
  (forall r,
      http.Body r = None ->
      FromHTTPResponse (Some r) st
      = Ret ((None,
              Some (mkValidationError ErrCodeInvalidResponse
                      "http response body is nil" None
                      [("status_code", VInt (http.StatusCode r))]),
              Some r), st)) /\
  (forall r rc x,
      http.Body r = Some rc -> io.failure rc = Some x ->
      exists after st',
        FromHTTPResponse (Some r) st
        = Ret ((None,
                Some (mkValidationError ErrCodeIORead
                        "failed to read response body" (Some x)
                        [("status_code", VInt (http.StatusCode r))]),
                after), st')) /\
  (forall r rc,
      http.Body r = Some rc -> io.failure rc = None ->
      io.pending rc = [] ->
      exists after st',
        FromHTTPResponse (Some r) st
        = Ret ((None,
                Some (mkValidationError ErrCodeEmptyResponse
                        "body is empty" None []),
                after), st')).
Proof.
  split; [done|]. split; [|split].
  - intros r Hb. unfold toon.FromHTTPResponse. by rewrite Hb.
  - intros r rc x Hb Hf. unfold toon.FromHTTPResponse. rewrite Hb.
    unfold bind, mbind, M_bind, io.ReadAll. simpl. rewrite Hf.
    by do 2 eexists.
  - intros r rc Hb Hf Hp. rewrite (FromHTTPResponse_read _ _ _ _ Hb Hf).
    rewrite Hp. unfold toon.NewHandler. simpl. by do 2 eexists.
Qed.

(** X4. A status code within [200, 299] is never held against the body: when
    the body is read and decodes, the handler is returned whatever the
    success flag says. *)
Theorem success_status_accepted r rc e st :
  http.Body r = Some rc ->
  io.failure rc = None ->
  io.pending rc <> [] ->
  json_Unmarshal_Response (io.pending rc) = (e, None) ->
  (200 <= http.StatusCode r <= 299)%Z ->
  exists h after st',
    FromHTTPResponse (Some r) st = Ret ((Some h, None, after), st') /\
    IsSuccess (Some h) = Ret (Response_Success e).
Proof.
  intros Hb Hf Hne Hd Hcode.
  rewrite (FromHTTPResponse_read _ _ _ _ Hb Hf).
  set (buf := mkSlice _ _ _). set (st1 := st ++ _).
  assert (Hnz : s_len buf <> 0).
  { simpl. by destruct (io.pending rc). }
  assert (Hd' : json_Unmarshal_Response (load st1 (Some buf)) = (e, None)).
  { unfold st1, buf. by rewrite load_fresh. }
  rewrite (NewHandler_decoded _ _ _ _ _ Hnz Hd').
  replace ((http.StatusCode r <? 200) || (http.StatusCode r >=? 300))%Z
    with false by (symmetry; apply orb_false_iff; lia).
  do 3 eexists. split; [reflexivity|].
  rewrite IsSuccess_Some. simpl.
  by destruct (place_fields e st1) as (-> & _).
Qed.

(** X5. Whatever [FromHTTPResponse] returns for a response with a body, it
    has read the body to its end and closed it once. *)
Theorem body_closed_once r rc st :
  http.Body r = Some rc ->
  exists p err rc' st',
    FromHTTPResponse (Some r) st
    = Ret ((p, err,
            Some (http.mkResponse (http.StatusCode r) (Some rc'))), st') /\
    io.closed rc' = S (io.closed rc) /\ io.pending rc' = [].
Proof.
  intros Hb.
  destruct (io.failure rc) as [e|] eqn:Hf.
  { unfold toon.FromHTTPResponse. rewrite Hb.
    unfold bind, mbind, M_bind, io.ReadAll. simpl. rewrite Hf.
    by do 4 eexists. }
  rewrite (FromHTTPResponse_read _ _ _ _ Hb Hf).
  destruct (NewHandler_returns json_Unmarshal_Response
              (Some (mkSlice (length st) 0 (length (io.pending rc))))
              (st ++ [io.pending rc])) as (p & err & st' & -> & Hp).
  destruct err as [ve|]; [by do 4 eexists|].
  destruct p as [h|]; [|by destruct Hp as [Hp _]; destruct (Hp eq_refl)].
  destruct (_ || _)%Z; [|by do 4 eexists].
  rewrite IsSuccess_Some.
  destruct (match resp h with Some r => _ | None => _ end); by do 4 eexists.
Qed.

(** X6. The error of a constructor wraps a cause exactly when its code is
    [JSON_UNMARSHAL] or [IO_READ]: then [Unwrap] gives that cause and
    [Error] ends with it; every other error of the constructors prints as
    its code and message alone. *)
Theorem constructor_error_cause r st p ve after st' :
  FromHTTPResponse r st = Ret ((p, Some ve, after), st') ->
  (ValidationError_Unwrap (Some ve) <> None <->
   Code ve = ErrCodeJSONUnmarshal \/ Code ve = ErrCodeIORead) /\
  ValidationError_Error (Some ve)
  = (("[" ++ Code ve ++ "] " ++ Message ve)
     ++ match ValidationError_Unwrap (Some ve) with
        | Some x => ": " ++ error_Error x
        | None => ""
        end)%string.
Proof.
  intros H.
  assert (Hcases :
            (Err ve = None /\
             (Code ve = ErrCodeInvalidResponse
              \/ Code ve = ErrCodeEmptyResponse
              \/ Code ve = ErrCodeInvalidStatusCode)) \/
            (Err ve <> None /\
             (Code ve = ErrCodeJSONUnmarshal \/ Code ve = ErrCodeIORead))).
  { destruct r as [x|].
    2: { unfold toon.FromHTTPResponse, mret, M_ret in H. simplify_eq/=.
         left; split; [done|by left]. }
    destruct (http.Body x) as [rc|] eqn:Hb.
    2: { unfold toon.FromHTTPResponse in H. rewrite Hb in H.
         unfold mret, M_ret in H. simplify_eq/=. left; auto. }
    destruct (io.failure rc) as [e|] eqn:Hf.
    { unfold toon.FromHTTPResponse in H. rewrite Hb in H.
      unfold bind, mbind, M_bind, io.ReadAll in H. simpl in H.
      rewrite Hf in H. unfold mret, M_ret in H. simplify_eq/=.
      right; auto. }
    rewrite (FromHTTPResponse_read _ _ _ _ Hb Hf) in H.
    destruct (toon.NewHandler json_Unmarshal_Response _ _)
      as [[[p' [ve'|]] st1]|] eqn:Hn; [| |done].
    - assert (ve' = ve) as -> by by simplify_eq.
      destruct (NewHandler_error _ _ _ _ _ Hn) as [[? ?]|[? ?]].
      + left. split; [done|]. by right; left.
      + right. split; [done|]. by left.
    - destruct (_ || _)%Z; [|done].
      destruct (IsSuccess p') as [[|]|]; [|done..].
      simplify_eq/=. left. split; [done|]. by right; right. }
  unfold ValidationError_Unwrap, ValidationError_Error.
  destruct Hcases as [[He Hc]|[He Hc]].
  - rewrite He. split; [|by rewrite string_app_nil_r].
    split; [done|].
    by intros [Hj|Hj]; destruct Hc as [Hc|[Hc|Hc]]; rewrite Hc in Hj.
  - destruct (Err ve) as [x|]; [|done]. split; [done|].
    by rewrite !string_app_assoc.
Qed.

End Refusals.

(** ** The receivers *)

Section Receivers.

Import toon.

Variable T : Type.
Variable json_Unmarshal : list byte -> any -> T -> T * option error.

Local Abbreviation UnmarshalData := (toon.UnmarshalData T json_Unmarshal).

Implicit Types (st : heap) (h : Handler) (p : ptr Handler).

Ltac returns :=
  repeat first
    [ reflexivity
    | discriminate
    | match goal with
      | |- context [match ?x with _ => _ end] =>
          lazymatch x with
          | context [match _ with _ => _ end] => fail
          | _ => destruct x; simpl
          end
      end ].

Ltac panics_iff_nil p :=
  split; [|by intros ->];
  destruct p as [h|]; [|done];
  intros H; exfalso; revert H;
  unfold IsSuccess, IsError, ErrorString, GetError, GetRequestID,
    GetAPIVersion, GetTimestamp, GetRateLimitStatus, GetRateLimitReset,
    IsRateLimited, GetRateLimit, GetMeta, Handler_Response, GetData,
    RawBody, RLock, deref, bind, mbind, outcome_bind, M_bind, lift, mret,
    outcome_ret,
    M_ret, make, copy;
  simpl; returns.

(** X7. The methods that take the read lock panic on a nil receiver, and on
    no other: the test [h == nil] that follows the lock is never true.
    [String] tests the receiver first and returns on nil; [UnmarshalData]
    returns on nil when its target is nil too. *)
Theorem panics_iff_nil_receiver p st :
  (IsSuccess p = Panic <-> p = None) /\
  (IsError p = Panic <-> p = None) /\
  (GetError p = Panic <-> p = None) /\
  (ErrorString p = Panic <-> p = None) /\
  (GetData p st = Panic <-> p = None) /\
  (GetMeta p = Panic <-> p = None) /\
  (GetRequestID p = Panic <-> p = None) /\
  (GetRateLimit p = Panic <-> p = None) /\
  (IsRateLimited p = Panic <-> p = None) /\
  (GetRateLimitReset p = Panic <-> p = None) /\
  (GetRateLimitStatus p = Panic <-> p = None) /\
  (GetAPIVersion p = Panic <-> p = None) /\
  (GetTimestamp p = Panic <-> p = None) /\
  (RawBody p st = Panic <-> p = None) /\
  (Handler_Response p = Panic <-> p = None) /\
  Handler_String p <> Panic /\
  (forall v x, UnmarshalData p v x st = Panic <-> p = None /\ v <> None).
Proof.
  repeat (split; [panics_iff_nil p|]).
  split.
  - destruct p as [h|]; [|done]. unfold Handler_String, GetRequestID,
      ErrorString, GetError, GetMeta, bind, mbind, outcome_bind, mret,
      outcome_ret. simpl. returns.
  - intros v x. destruct v as [v|].
    2: { split; [done|]. by intros [_ []]. }
    destruct p as [h|].
    2: { split; [done|]. by intros _. }
    split; [|by intros [? _]]. intros H. exfalso. revert H.
    unfold toon.UnmarshalData, GetData, RLock, deref, read, bind, mbind,
      outcome_bind, M_bind, lift,
      mret, M_ret, make, copy. simpl. returns.
Qed.

End Receivers.

(** ** What the accessors report *)

Section Reports.

Import toon.

Implicit Types (st : heap) (h : Handler) (p : ptr Handler) (s : string).

Lemma nonempty_false s : nonempty s = false <-> s = "".
Proof.
  unfold nonempty. rewrite negb_false_iff. apply String.eqb_eq.
Qed.

Lemma nonempty_true s : nonempty s = true <-> s <> "".
Proof.
  unfold nonempty. rewrite negb_true_iff. apply String.eqb_neq.
Qed.

Lemma append_eq_nil s t : (s ++ t)%string = "" -> s = "" /\ t = "".
Proof. by destruct s. Qed.

Lemma GetError_Some h :
  GetError (Some h) =
  Ret (match resp h with Some r => Response_Error r | None => None end).
Proof. unfold GetError. simpl. by destruct (resp h). Qed.

(** The loop of [ErrorString] on the parts of an error object. *)
Lemma ErrorString_Some h :
  ErrorString (Some h)
  = Ret match resp h with
        | Some r =>
            match Response_Error r with
            | Some e =>
                (ResponseError_Code e
                 ++ (if nonempty (ResponseError_Message e)
                     then " | " ++ ResponseError_Message e else "")
                 ++ (if nonempty (ResponseError_Details e)
                     then " | " ++ ResponseError_Details e else "")
                 ++ (if nonempty (ResponseError_Field e)
                     then " | field: " ++ ResponseError_Field e else ""))%string
            | None => ""
            end
        | None => ""
        end.
Proof.
  unfold ErrorString. rewrite GetError_Some. unfold bind; simpl.
  destruct (resp h) as [r|]; [|done].
  destruct (Response_Error r) as [[c m d f]|]; [|done]. simpl.
  destruct (nonempty m), (nonempty d), (nonempty f); simpl;
    rewrite ?string_app_assoc, ?string_app_nil_r; reflexivity.
Qed.

(** X8. [ErrorString] returns the code, then the message, the details and the
    field, each after [" | "] and each only when it is not empty; the
    field after ["field: "]. The code is written even when it is empty.
    So the string is empty exactly when there is no error object, or one
    with all four fields empty. *)
Theorem ErrorString_form h :
  exists s,
    ErrorString (Some h) = Ret s /\
    (forall e,
        GetError (Some h) = Ret (Some e) ->
        s = (ResponseError_Code e
             ++ (if nonempty (ResponseError_Message e)
                 then " | " ++ ResponseError_Message e else "")
             ++ (if nonempty (ResponseError_Details e)
                 then " | " ++ ResponseError_Details e else "")
             ++ (if nonempty (ResponseError_Field e)
                 then " | field: " ++ ResponseError_Field e else ""))%string)
    /\
    (s = "" <->
     GetError (Some h) = Ret None \/
     GetError (Some h)
     = Ret (Some (mkResponseError "" "" "" ""))).
Proof.
  rewrite ErrorString_Some, GetError_Some.
  destruct (match resp h with Some r => Response_Error r | None => None end)
    as [e|] eqn:He.
  2: { exists "". split.
       { destruct (resp h) as [r|]; [|done]. simpl in He. by rewrite He. }
       split; [done|]. split; [by left|done]. }
  destruct (resp h) as [r|]; [|done]. simpl in He. rewrite He.
  eexists. split; [reflexivity|].
  split; [by intros e' [= <-]|].
  destruct e as [c m d f]. simpl. split.
  - intros H. right.
    apply append_eq_nil in H as [-> H].
    apply append_eq_nil in H as [Hm H].
    apply append_eq_nil in H as [Hd Hf].
    destruct (nonempty m) eqn:Em; [done|].
    destruct (nonempty d) eqn:Ed; [done|].
    destruct (nonempty f) eqn:Ef; [done|].
    apply nonempty_false in Em, Ed, Ef. by subst.
  - by intros [|[= -> -> -> ->]].
Qed.

(** X9. A handler that [Validate] accepts wraps an envelope on which
    [IsError] is the negation of [IsSuccess]; when it is an error, the
    error object has a code and a message, and [ErrorString] starts with
    the code, followed by the message. *)
Theorem validated_handler h :
  Validate (Some h) = None ->
  exists r,
    resp h = Some r /\
    IsSuccess (Some h) = Ret (Response_Success r) /\
    IsError (Some h) = Ret (negb (Response_Success r)) /\
    (Response_Success r = false ->
     exists e rest,
       GetError (Some h) = Ret (Some e) /\
       ResponseError_Code e <> "" /\ ResponseError_Message e <> "" /\
       ErrorString (Some h)
       = Ret (ResponseError_Code e ++ " | " ++ ResponseError_Message e
              ++ rest)%string).
Proof.
  unfold Validate. destruct (resp h) as [r|] eqn:Hr; [|done].
  intros Hv. exists r. split; [done|].
  rewrite IsSuccess_Some, Hr. split; [done|].
  unfold IsError. simpl. rewrite Hr. unfold bind; simpl.
  destruct (Response_Error r) as [e|] eqn:He.
  2: { rewrite bool_decide_true in Hv by done.
       destruct (Response_Success r); [|done]. split; [done|]. done. }
  rewrite bool_decide_false, andb_false_r in Hv by done.
  rewrite bool_decide_true, andb_true_r by done. split; [done|].
  intros _.
  destruct (String.eqb (ResponseError_Code e) "") eqn:Ec; [done|].
  destruct (String.eqb (ResponseError_Message e) "") eqn:Em; [done|].
  apply String.eqb_neq in Ec, Em.
  eexists e, _. split; [by rewrite GetError_Some, Hr, He|].
  split; [done|]. split; [done|].
  rewrite ErrorString_Some, Hr, He.
  apply nonempty_true in Em. rewrite Em.
  by rewrite string_app_assoc.
Qed.

(** X10. [String] returns on every receiver, nil included. It prints
    ["Handler(nil)"] exactly for a nil handler and for one without
    envelope; it prints a success exactly when [IsSuccess] is true, and an
    error exactly when the envelope says no success. *)
Theorem Handler_String_reports p :
  exists s,
    Handler_String p = Ret s /\
    (s = "Handler(nil)" <->
     p = None \/ exists h, p = Some h /\ resp h = None) /\
    (String.prefix "Handler(Success" s = true <-> IsSuccess p = Ret true) /\
    (String.prefix "Handler(Error" s = true <->
     exists h r,
       p = Some h /\ resp h = Some r /\ Response_Success r = false).
Proof.
  destruct p as [h|].
  2: { exists "Handler(nil)". split; [done|]. split; [by split; [left|]|].
       split; [done|]. split; [done|]. by intros (? & ? & ? & _). }
  unfold Handler_String, GetRequestID. rewrite GetMeta_Some, IsSuccess_Some.
  destruct (ErrorString (Some h)) as [es|] eqn:Hes;
    [|by rewrite ErrorString_Some in Hes].
  clear Hes.
  destruct (resp h) as [r|] eqn:Hr.
  2: { exists "Handler(nil)". split; [done|].
       split; [split; [right; by exists h|done]|].
       split; [done|]. split; [done|].
       intros (h0 & r0 & ? & ? & _). simplify_eq. }
  assert (Hnil : ~ (Some h = None \/
                    exists h0 : Handler, Some h = Some h0 /\ resp h0 = None)).
  { intros [|(h0 & ? & ?)]; simplify_eq. }
  unfold bind; simpl.
  destruct (Response_Success r) eqn:Hs.
  - assert (Herr : ~ exists h0 r0,
                       Some h = Some h0 /\ resp h0 = Some r0 /\
                       Response_Success r0 = false).
    { intros (h0 & r0 & ? & ? & ?). simplify_eq. congruence. }
    destruct (match Response_Meta r with Some m => _ | None => _ end)
      as [id|] eqn:Hid; [|by destruct (Response_Meta r)].
    simpl.
    destruct (nonempty id); eexists; (split; [reflexivity|]);
      (split; [by split|]); (split; [done|]); by split.
  - destruct (nonempty es); eexists; (split; [reflexivity|]);
      (split; [by split|]); (split; [done|]);
      (split; [by exists h, r|done]).
Qed.

(** [%d] of a number that is not negative starts with a digit. *)
Lemma Sprintf_d_head (n : Z) :
  (0 <= n)%Z ->
  exists c rest,
    Sprintf_d n = String (ascii_of_byte c) rest /\ time.isDigit c = true.
Proof.
  intros Hn. unfold Sprintf_d, strconv.FormatInt.
  destruct (Z.ltb_spec n 0) as [|_]; [lia|].
  unfold strconv.FormatUint.
  assert (Hall : forall k x,
             Forall (fun c => time.isDigit c = true) (strconv.decimal k x)).
  { induction k as [|k IH]; intros x; [constructor|].
    rewrite decimal_S. constructor; [apply isDigit_digit_byte|].
    destruct (x <? 10)%Z; [constructor|apply IH]. }
  pose proof (Hall 20 n) as Hd. apply Forall_rev in Hd.
  destruct (rev (strconv.decimal 20 n)) as [|c ds] eqn:Hr.
  { apply (f_equal (@length byte)) in Hr.
    rewrite length_rev, decimal_S in Hr. done. }
  exists c, (string_of_list_byte ds). split; [done|].
  by inversion Hd.
Qed.

(** [%d] of a positive [int] does not start with a zero. *)
Lemma Sprintf_d_positive (n : Z) :
  (0 < n < 2 ^ 63)%Z ->
  exists c rest,
    Sprintf_d n = String (ascii_of_byte c) rest /\ c <> x30.
Proof.
  intros Hn. unfold Sprintf_d, strconv.FormatInt.
  destruct (Z.ltb_spec n 0) as [|_]; [lia|].
  destruct (FormatUint_shape n) as [[-> _]|(c & ds & -> & _ & Hc & _)];
    [lia|lia|].
  by exists c, (string_of_list_byte ds).
Qed.

(** X11. [GetRateLimitStatus] answers that the information is not available
    exactly when [GetRateLimit] is nil, and so does [GetRateLimitReset]
    with nil: the reset time is handed out even when it is the zero time.
    Otherwise the status starts with the remaining quota, a negative one
    written as 0: the status of a rate-limited handler starts with ["0/"],
    and for a remaining quota of the type [int] no other does. *)
Theorem GetRateLimitStatus_reports h :
  exists s,
    GetRateLimitStatus (Some h) = Ret s /\
    (s = "rate limit information not available" <->
     GetRateLimit (Some h) = Ret None) /\
    (GetRateLimitReset (Some h) = Ret None <->
     GetRateLimit (Some h) = Ret None) /\
    (IsRateLimited (Some h) = Ret true ->
     String.prefix "0/" s = true) /\
    (forall l,
        GetRateLimit (Some h) = Ret (Some l) ->
        (RateLimit_Remaining l < 2 ^ 63)%Z ->
        String.prefix "0/" s = true ->
        IsRateLimited (Some h) = Ret true).
Proof.
  unfold GetRateLimitStatus, GetRateLimitReset, IsRateLimited.
  rewrite GetRateLimit_Some. unfold bind; simpl.
  destruct (match resp h with Some r => _ | None => _ end) as [l|].
  2: { eexists. split; [reflexivity|]. by repeat split. }
  eexists. split; [reflexivity|].
  set (remaining := if (RateLimit_Remaining l <? 0)%Z then 0%Z
                    else RateLimit_Remaining l).
  assert (Hrem : (0 <= remaining)%Z).
  { unfold remaining. destruct (Z.ltb_spec (RateLimit_Remaining l) 0); lia. }
  split; [|split; [done|split]].
  - split; [|done]. intros Heq. exfalso.
    destruct (Sprintf_d_head remaining Hrem) as (c & rest & Hc & Hd).
    rewrite Hc in Heq. simpl in Heq. injection Heq as Heq _.
    by destruct c.
  - intros [= Hle]. apply Z.leb_le in Hle.
    assert (Hz : remaining = 0%Z).
    { unfold remaining.
      destruct (Z.ltb_spec (RateLimit_Remaining l) 0); lia. }
    clearbody remaining. subst remaining.
    change (Sprintf_d 0) with "0". simpl.
    match goal with |- String.prefix "" ?x = true => by destruct x end.
  - intros l' [= <-] Hint Hp. do 2 f_equal. apply Z.leb_le.
    destruct (Z.leb_spec (RateLimit_Remaining l) 0) as [|Hpos]; [done|].
    exfalso.
    assert (Heq : remaining = RateLimit_Remaining l).
    { unfold remaining.
      destruct (Z.ltb_spec (RateLimit_Remaining l) 0); lia. }
    clearbody remaining. subst remaining.
    destruct (Sprintf_d_positive (RateLimit_Remaining l))
      as (c & rest & Hc & Hz); [lia|].
    rewrite Hc in Hp. by destruct c.
Qed.

End Reports.

(** ** The memory the handler shares *)

Section Memory.

Import toon.

Variable json_Unmarshal_Response :
  list byte -> Response_ (option (list byte)) * option error.

Local Abbreviation NewHandler := (toon.NewHandler json_Unmarshal_Response).

Implicit Types (st : heap) (h : Handler) (b : bytes).

Lemma alter_last {A : Type} (f : A -> A) (l : list A) (a : A) :
  alter f (length l) (l ++ [a]) = l ++ [f a].
Proof.
  replace (length l) with (length l + 0) by lia. by rewrite alter_app_r.
Qed.

Lemma make_copy_fresh st b :
  exists arr,
    (d <- make (len b) ;; _ <- copy (Some d) b ;; mret (Some d)) st
    = Ret (Some (mkSlice (length st) 0 (len b)), st ++ [arr]) /\
    length arr = len b.
Proof.
  unfold bind, mbind, M_bind, mret, M_ret, make, copy. simpl.
  rewrite alter_last. eexists. split; [reflexivity|].
  - unfold blit. rewrite take_0. simpl.
    rewrite length_app, length_drop, length_take, length_replicate.
    lia.
Qed.

(** X12. [RawBody] and [GetData] write to no memory that existed before the
    call, whatever the store: each returns nil and leaves the store as it
    is, or allocates one array and returns the slice of it, as long as the
    source. [RawBody] returns nil only for a nil body, and a slice of
    length 0 for an empty one; [GetData] returns nil for every payload of
    length 0. *)
Theorem copies_are_fresh h st :
  exists out1 st1 out2 st2,
    RawBody (Some h) st = Ret (out1, st1) /\
    GetData (Some h) st = Ret (out2, st2) /\
    (out1 = None <-> body h = None) /\
    (out2 = None <-> len (payload h) = 0) /\
    allocated st out1 st1 (len (body h)) /\
    allocated st out2 st2 (len (payload h)).
Proof.
  assert (HR : exists out1 st1,
             RawBody (Some h) st = Ret (out1, st1) /\
             (out1 = None <-> body h = None) /\
             allocated st out1 st1 (len (body h))).
  { unfold RawBody. simpl. destruct (body h) as [s|] eqn:Hb.
    - destruct (make_copy_fresh st (Some s)) as (arr & Hm & Hl).
      do 2 eexists. split; [exact Hm|]. split; [done|].
      by exists arr.
    - by exists None, st. }
  assert (HG : exists out2 st2,
             GetData (Some h) st = Ret (out2, st2) /\
             (out2 = None <-> len (payload h) = 0) /\
             allocated st out2 st2 (len (payload h))).
  { unfold GetData, payload. simpl. destruct (resp h) as [r|].
    2: { by exists None, st. }
    destruct (Nat.eqb_spec (len (Response_Data r)) 0) as [Hz|Hnz].
    { by exists None, st. }
    destruct (make_copy_fresh st (Response_Data r)) as (arr & Hm & Hl).
    do 2 eexists. split; [exact Hm|]. split; [done|].
    by exists arr. }
  destruct HR as (out1 & st1 & ? & ? & ?).
  destruct HG as (out2 & st2 & ? & ? & ?).
  by exists out1, st1, out2, st2.
Qed.

(** X13. [NewHandler] keeps the slice it is given and copies the payload out of
    it. Whatever the caller writes through that slice afterwards, the
    envelope and the payload of the handler are as decoded, and [GetData]
    returns the same bytes; [RawBody] returns the bytes as the caller has
    left them. *)
Theorem NewHandler_shares_body b st h st1 :
  valid st b ->
  NewHandler b st = Ret ((Some h, None), st1) ->
  forall st2,
    writes_through b st1 st2 ->
    valid st2 b ->
    fst (view st2 h) = fst (view st1 h) /\
    (exists out st3,
        GetData (Some h) st2 = Ret (out, st3) /\
        load st3 out = load st1 (payload h)) /\
    (exists out st3,
        RawBody (Some h) st2 = Ret (out, st3) /\
        load st3 out = load st2 b).
Proof.
  intros Hv HN st2 Hw Hv2.
  destruct b as [s|]; [|done].
  destruct (decide (s_len s = 0)) as [Hz|Hnz].
  { unfold toon.NewHandler in HN. simpl in HN. rewrite Hz in HN. done. }
  destruct (json_Unmarshal_Response (load st (Some s))) as [e err] eqn:Hd.
  rewrite (NewHandler_decoded _ _ _ _ _ Hnz Hd) in HN.
  destruct err as [x|]; [done|]. injection HN as <- <-.
  destruct (place_fields e st)
    as (_ & _ & _ & _ & Hpv).
  set (r := fst (place e st)) in *. set (st1 := snd (place e st)) in *.
  assert (Hne : forall s0 s', Some s = Some s0 ->
                              Response_Data r = Some s' ->
                              s_ptr s' <> s_ptr s0).
  { intros s0 s' [= <-] Hs'. pose proof (valid_slice_lt _ _ Hv) as Hlt.
    unfold r, place in Hs'.
    destruct (Response_Data e) as [[|c raw]|]; simpl in Hs'; try done.
    injection Hs' as <-. simpl. lia. }
  assert (Hl2 : load st2 (Response_Data r) = load st1 (Response_Data r))
    by by eapply load_writes_through.
  assert (Hp2 : valid st2 (Response_Data r))
    by by eapply valid_writes_through.
  split; [|split].
  - unfold view. simpl. by rewrite Hl2.
  - destruct (GetData_pattern (mkHandler (Some r) (Some s) None))
      as [[Hz HG]|[_ HG]].
    + exists None, st2. split; [apply HG|].
      simpl. symmetry. by apply load_empty.
    + change (payload _) with (Response_Data r) in *.
      rewrite (HG st2 Hp2). do 2 eexists.
      split; [reflexivity|]. rewrite <- Hl2.
      rewrite <- (length_load st2 (Response_Data r)) by done.
      apply load_fresh.
  - destruct (RawBody_pattern (mkHandler (Some r) (Some s) None))
      as [(_ & ? & _)|HR]; [done|].
    change (body _) with (Some s) in *.
    rewrite (HR st2 Hv2). do 2 eexists.
    split; [reflexivity|].
    rewrite <- (length_load st2 (Some s)) by done.
    apply load_fresh.
Qed.

End Memory.

(** ** Further scenarios on the reference decoder *)

Section MoreScenarios.

Import toon fixtures.

Local Abbreviation NewHandler := (toon.NewHandler json.Unmarshal_Response).
Local Abbreviation FromHTTPResponse :=
  (toon.FromHTTPResponse json.Unmarshal_Response).

(** Status code 200 with the error response: the handler is returned. *)
Lemma success_status_accepted_witness :
  exists h after st',
    FromHTTPResponse (transport 200 error_body) []
    = Ret ((Some h, None, after), st') /\
    IsSuccess (Some h) = Ret false.
Proof.
  apply (success_status_accepted json.Unmarshal_Response
           (http.mkResponse 200 (Some (io.mkReadCloser error_body None 0)))
           (io.mkReadCloser error_body None 0)
           (fst (json.Unmarshal_Response error_body)) []).
  - reflexivity.
  - reflexivity.
  - vm_compute. discriminate.
  - vm_compute. reflexivity.
  - simpl. lia.
Defined.

(** A body that is no JSON: it is read to its end and closed once. *)
Lemma body_closed_once_witness :
  exists p err rc' st',
    FromHTTPResponse (transport 200 (json.text "{invalid json}")) []
    = Ret ((p, err, Some (http.mkResponse 200 (Some rc'))), st') /\
    io.closed rc' = 1 /\ io.pending rc' = [].
Proof.
  apply (body_closed_once json.Unmarshal_Response
           (http.mkResponse 200
              (Some (io.mkReadCloser (json.text "{invalid json}") None 0)))
           (io.mkReadCloser (json.text "{invalid json}") None 0) []).
  reflexivity.
Defined.

(** The error of [TestNewHandlerWithInvalidJSON], through the transport:
    it wraps the error of the decoder. *)
Lemma constructor_error_cause_witness :
  exists ve after st',
    FromHTTPResponse (transport 200 (json.text "{invalid json}")) []
    = Ret ((None, Some ve, after), st') /\
    Code ve = ErrCodeJSONUnmarshal /\
    ValidationError_Unwrap (Some ve) <> None /\
    ValidationError_Error (Some ve)
    = (("[" ++ Code ve ++ "] " ++ Message ve)
       ++ match ValidationError_Unwrap (Some ve) with
          | Some x => ": " ++ error_Error x
          | None => ""
          end)%string.
Proof.
  eexists _, _, _. split; [vm_compute; reflexivity|].
  split; [reflexivity|].
  match goal with
  | |- ValidationError_Unwrap (Some ?ve) <> None /\ _ =>
      destruct (constructor_error_cause json.Unmarshal_Response
                  (transport 200 (json.text "{invalid json}")) []
                  None ve
                  (Some (http.mkResponse 200
                           (Some (io.mkReadCloser [] None 1))))
                  [json.text "{invalid json}"])
        as [Hcause Hform]
  end.
  - vm_compute. reflexivity.
  - split; [|exact Hform]. apply Hcause. by left.
Defined.

(** The valid error response of [TestValidate]. *)
Lemma validated_handler_witness :
  let h := fst (constructed error_body) in
  Validate (Some h) = None /\
  exists r,
    resp h = Some r /\
    IsSuccess (Some h) = Ret (Response_Success r) /\
    IsError (Some h) = Ret (negb (Response_Success r)) /\
    (Response_Success r = false ->
     exists e rest,
       GetError (Some h) = Ret (Some e) /\
       ResponseError_Code e <> "" /\ ResponseError_Message e <> "" /\
       ErrorString (Some h)
       = Ret (ResponseError_Code e ++ " | " ++ ResponseError_Message e
              ++ rest)%string).
Proof.
  split; [vm_compute; reflexivity|].
  apply validated_handler. vm_compute. reflexivity.
Defined.

(** The handler of [TestUnmarshalData], after the caller has overwritten
    the first byte of the body it passed. *)
Lemma NewHandler_shares_body_witness :
  let b := whole payload_body in
  let h := fst (constructed payload_body) in
  let st1 := snd (constructed payload_body) in
  let st2 := alter (blit 0 [x20]) 0 st1 in
  set_index (mkSlice 0 0 (length payload_body)) 0 x20 st1 = Ret (tt, st2) /\
  fst (view st2 h) = fst (view st1 h) /\
  (exists out st3,
      GetData (Some h) st2 = Ret (out, st3) /\
      load st3 out = load st1 (payload h)) /\
  (exists out st3,
      RawBody (Some h) st2 = Ret (out, st3) /\
      load st3 out = load st2 b).
Proof.
  intros b h st1 st2.
  assert (Hset : set_index (mkSlice 0 0 (length payload_body)) 0 x20 st1
                 = Ret (tt, st2)) by (vm_compute; reflexivity).
  split; [exact Hset|].
  apply (NewHandler_shares_body json.Unmarshal_Response b
           (caller payload_body) h st1).
  - apply caller_valid.
  - vm_compute. reflexivity.
  - exact (set_index_writes_through _ _ _ _ _ Hset).
  - eexists. split; [vm_compute; reflexivity|]. vm_compute. lia.
Defined.

End MoreScenarios.

(** ** The round trip of an envelope *)

Section RoundTrip.

Import toon json fixtures.

Local Abbreviation NewHandler := (toon.NewHandler json.Unmarshal_Response).

Implicit Types (st : heap) (h : Handler) (b : bytes).



End RoundTrip.
